(** * gpu-stat: remote GPU polling, parsing and storage

    A shallow embedding of the three core modules of the package
    ([ssh_client.py], [data_collector.py], [data_store.py]) together with
    the properties their specification states about them.

    Conventions of the embedding:
    - Python [str] values are Rocq [string]s; a character stands for a code
      point below 256.
    - A Python call that may raise returns a [result]; the exception classes
      that the handlers of the package tell apart are kept in [exc].
    - The outside world (network, clock, disk faults) is supplied to every
      operation as explicit data, so every definition below can be run. *)

From Stdlib Require Import ZArith QArith Ascii String DecimalString List Bool Lia.
From stdpp Require Import base option list gmap strings.

Local Open Scope Z_scope.

(** ** Exceptions and results *)

(** [KeyboardInterrupt] and [SystemExit] derive from [BaseException] only;
    every other class used by the package derives from [Exception]. *)
Inductive exc : Type :=
| KeyboardInterrupt
| SystemExit
| Exception (cls : string).

Definition ValueError : exc := Exception "ValueError".
Definition OSError : exc := Exception "OSError".

(** [isinstance(e, Exception)] *)
Definition is_Exception (e : exc) : bool :=
  match e with
  | Exception _ => true
  | KeyboardInterrupt | SystemExit => false
  end.

Inductive result (A : Type) : Type :=
| Ok (a : A)
| Raise (e : exc).
Arguments Ok {A} a.
Arguments Raise {A} e.

Definition bind {A B : Type} (r : result A) (k : A -> result B) : result B :=
  match r with
  | Ok a => k a
  | Raise e => Raise e
  end.

Declare Scope py_scope.
Delimit Scope py_scope with py.
Notation "'let*' x ':=' r 'in' k" := (bind r (fun x => k))
  (at level 10, x name, r at level 100, k at level 200) : py_scope.

(** A [for] loop whose body may raise: the first exception leaves the loop. *)
Fixpoint for_each {A S : Type} (body : S -> A -> result S) (xs : list A) (s : S)
  : result S :=
  match xs with
  | [] => Ok s
  | x :: rest =>
      match body s x with
      | Ok s' => for_each body rest s'
      | Raise e => Raise e
      end
  end.

(** ** Python string primitives *)
Module PyStr.

(** [c.isspace()] for code points below 256. *)
Definition is_space (c : ascii) : bool :=
  let n := nat_of_ascii c in
  ((9 <=? n)%nat && (n <=? 13)%nat)
  || ((28 <=? n)%nat && (n <=? 32)%nat)
  || (n =? 133)%nat || (n =? 160)%nat.

Fixpoint lstrip (s : string) : string :=
  match s with
  | EmptyString => EmptyString
  | String c rest => if is_space c then lstrip rest else s
  end.

Fixpoint rstrip (s : string) : string :=
  match s with
  | EmptyString => EmptyString
  | String c rest =>
      match rstrip rest with
      | EmptyString => if is_space c then EmptyString else String c EmptyString
      | r => String c r
      end
  end.

(** [s.strip()] *)
Definition strip (s : string) : string := rstrip (lstrip s).

(** [s.split(sep)] for a one-character separator: never the empty list. *)
Fixpoint split (sep : ascii) (s : string) : list string :=
  match s with
  | EmptyString => [EmptyString]
  | String c rest =>
      if Ascii.eqb c sep then EmptyString :: split sep rest
      else match split sep rest with
           | [] => [String c EmptyString]
           | hd :: tl => String c hd :: tl
           end
  end.

(** Truth value of a string: [bool(s)]. *)
Definition truthy (s : string) : bool :=
  match s with
  | EmptyString => false
  | String _ _ => true
  end.

Definition newline : ascii := ascii_of_nat 10.
Definition comma : ascii := ascii_of_nat 44.

(** [blob.strip().split("\n")] *)
Definition lines (blob : string) : list string := split newline (strip blob).

(** [[p.strip() for p in line.split(",")]] *)
Definition parts (line : string) : list string := map strip (split comma line).

End PyStr.

(** ** Data model: the dictionaries built by [collect_gpu_stats] *)

(** The built-in conversions [int()] and [float()] are parameters of the
    development: [F] is the type of Python floats, and a conversion that
    answers [None] raises [ValueError]. *)
Section DataModel.
Context {F : Type}.

(** A number that is either an [int] or a [float]
    ([fan_speed] is [float(fan) if fan else 0]). *)
Inductive num : Type :=
| NInt (z : Z)
| NFloat (f : F).

(** [process_data] *)
Record Process : Type := mkProcess {
  pid : Z;
  proc_name : string;
  used_memory : F
}.

(** [gpu_data] *)
Record GPU : Type := mkGPU {
  index : Z;
  name : string;
  uuid : string;
  utilization_gpu : F;
  utilization_memory : F;
  memory_total : F;
  memory_used : F;
  memory_free : F;
  temperature : F;
  power_draw : F;
  power_limit : F;
  fan_speed : num;
  processes : list Process
}.

(** [data]: the snapshot handed to the callback.  [server] is [None] when
    the key is missing or holds [None]. *)
Record Snapshot : Type := mkSnapshot {
  timestamp : string;
  server : option string;
  host : string;
  gpus : list GPU
}.

(** [gpu["processes"].append(process_data)] *)
Definition append_process (g : GPU) (p : Process) : GPU :=
  mkGPU (index g) (name g) (uuid g) (utilization_gpu g) (utilization_memory g)
        (memory_total g) (memory_used g) (memory_free g) (temperature g)
        (power_draw g) (power_limit g) (fan_speed g) (processes g ++ [p]).

End DataModel.
Arguments num : clear implicits.
Arguments Process : clear implicits.
Arguments GPU : clear implicits.
Arguments Snapshot : clear implicits.

(** ** The parsing half of [collect_gpu_stats] (lines 84-162) *)
Module Parser.
Import PyStr.
Local Open Scope py_scope.

Section Parse.
Context {F : Type}.
Variable py_int : string -> option Z.
Variable py_float : string -> option F.

(** [int(s)] and [float(s)] *)
Definition to_int (s : string) : result Z :=
  match py_int s with
  | Some z => Ok z
  | None => Raise ValueError
  end.

Definition to_float (s : string) : result F :=
  match py_float s with
  | Some f => Ok f
  | None => Raise ValueError
  end.

(** Body of the loop over the UUID table (lines 93-97). *)
Definition uuid_row (uuid_map : gmap string string) (line : string)
  : result (gmap string string) :=
  if truthy (strip line) then
    let ps := parts line in
    if (2 <=? length ps)%nat then
      match ps with
      | [idx; u] => Ok (<[idx := u]> uuid_map)
      | _ => Raise ValueError
      end
    else Ok uuid_map
  else Ok uuid_map.

Definition parse_uuid_map (gpu_uuid_output : string)
  : result (gmap string string) :=
  for_each uuid_row (lines gpu_uuid_output) ∅.

(** The dictionary display of lines 118-132; its entries are evaluated
    in order, so the first failing conversion is the one that raises. *)
Definition make_gpu (uuid_map : gmap string string) (ps : list string)
  : result (GPU F) :=
  match ps with
  | [idx; nm; util_gpu; util_mem; mem_total; mem_used; mem_free;
     temp; pdraw; plimit; fan] =>
      let* i := to_int idx in
      let u := default "unknown"%string (uuid_map !! idx) in
      let* ug := to_float util_gpu in
      let* um := to_float util_mem in
      let* mt := to_float mem_total in
      let* mu := to_float mem_used in
      let* mf := to_float mem_free in
      let* t := to_float temp in
      let* pd := to_float pdraw in
      let* pl := to_float plimit in
      let* fs := (if truthy fan
                  then let* f := to_float fan in Ok (NFloat f)
                  else Ok (NInt 0)) in
      Ok (mkGPU i nm u ug um mt mu mf t pd pl fs [])
  | _ => Raise ValueError
  end.

(** Body of the loop over the stats table (lines 101-133). *)
Definition stats_row (uuid_map : gmap string string)
           (gpus : list (GPU F)) (line : string) : result (list (GPU F)) :=
  if truthy (strip line) then
    let ps := parts line in
    if (11 <=? length ps)%nat then
      let* g := make_gpu uuid_map ps in
      Ok (gpus ++ [g])
    else Ok gpus
  else Ok gpus.

Definition parse_stats (uuid_map : gmap string string)
           (gpu_stats_output : string) : result (list (GPU F)) :=
  for_each (stats_row uuid_map) (lines gpu_stats_output) [].

(** Lines 149-152: the process goes to the first GPU with that uuid. *)
Fixpoint attach (p : Process F) (gpu_uuid : string) (gpus : list (GPU F))
  : list (GPU F) :=
  match gpus with
  | [] => []
  | g :: rest =>
      if String.eqb (uuid g) gpu_uuid
      then append_process g p :: rest
      else g :: attach p gpu_uuid rest
  end.

(** Body of the loop over the process table (lines 137-152). *)
Definition process_row (gpus : list (GPU F)) (line : string)
  : result (list (GPU F)) :=
  if truthy (strip line) then
    let ps := parts line in
    if (4 <=? length ps)%nat then
      match ps with
      | [p; nm; gpu_uuid; used] =>
          let* i := to_int p in
          let* m := to_float used in
          Ok (attach (mkProcess i nm m) gpu_uuid gpus)
      | _ => Raise ValueError
      end
    else Ok gpus
  else Ok gpus.

Definition parse_processes (gpus : list (GPU F)) (process_output : string)
  : result (list (GPU F)) :=
  for_each process_row (lines process_output) gpus.

(** Lines 84-162, given the three command outputs and the clock reading. *)
Definition parse (now server_name server_host : string)
           (gpu_stats_output gpu_uuid_output process_output : string)
  : result (Snapshot F) :=
  let* uuid_map := parse_uuid_map gpu_uuid_output in
  let* gpus := parse_stats uuid_map gpu_stats_output in
  let* gpus := parse_processes gpus process_output in
  Ok (mkSnapshot now (Some server_name) server_host gpus).

(** *** Vocabulary for the statements about the parser *)

(** The two guards in front of a stats row (lines 101 and 103). *)
Definition stats_line (line : string) : bool :=
  truthy (strip line) && (11 <=? length (parts line))%nat.

(** The two guards in front of a process row (lines 137 and 139). *)
Definition process_line (line : string) : bool :=
  truthy (strip line) && (4 <=? length (parts line))%nat.

(** Eleven fields whose numeric ones convert; an empty [fan] needs no
    conversion. *)
Definition stats_fields_ok (ps : list string) : bool :=
  match ps with
  | [idx; _; util_gpu; util_mem; mem_total; mem_used; mem_free;
     temp; pdraw; plimit; fan] =>
      bool_decide (is_Some (py_int idx))
      && forallb (fun f => bool_decide (is_Some (py_float f)))
                 [util_gpu; util_mem; mem_total; mem_used; mem_free;
                  temp; pdraw; plimit]
      && (negb (truthy fan) || bool_decide (is_Some (py_float fan)))
  | _ => false
  end.

(** The process described by four fields whose numeric ones convert,
    with the uuid of its GPU. *)
Definition process_of (ps : list string) : option (Process F * string) :=
  match ps with
  | [p; nm; gpu_uuid; used] =>
      match py_int p, py_float used with
      | Some i, Some m => Some (mkProcess i nm m, gpu_uuid)
      | _, _ => None
      end
  | _ => None
  end.

(** A GPU record as the stats table gives it, before any process is
    attached. *)
Definition without_processes (g : GPU F) : GPU F :=
  mkGPU (index g) (name g) (uuid g) (utilization_gpu g) (utilization_memory g)
        (memory_total g) (memory_used g) (memory_free g) (temperature g)
        (power_draw g) (power_limit g) (fan_speed g) [].

(** Attaching a list of processes, first to last. *)
Definition attach_all (rows : list (Process F * string)) (gpus : list (GPU F))
  : list (GPU F) :=
  fold_left (fun gs row => attach (fst row) (snd row) gs) rows gpus.

End Parse.

(** *** The built-in conversions

    [int_decimal] is [int(s)] and [float_decimal] is [float(s)] on text
    whose code points are below 256.  Both skip the white space that the
    number parsers skip (which is not that of [str.strip]: the separators
    0x1c-0x1f are not skipped), take an optional sign, and allow single
    underscores between digits.  [float()] reads [digits], [digits.],
    [.digits] and [digits.digits], each with an optional exponent, and the
    words [inf], [infinity] and [nan] in any case; it rounds the decimal
    value to the nearest binary64 number, ties to even, to an infinity
    from [2^1024 - 2^970] on. *)
Definition is_digit (c : ascii) : bool :=
  ((48 <=? nat_of_ascii c) && (nat_of_ascii c <=? 57))%nat.

Definition digit_value (c : ascii) : Z := Z.of_nat (nat_of_ascii c) - 48.

Fixpoint digits (acc : Z) (after_digit : bool) (s : string) : option Z :=
  match s with
  | EmptyString => if after_digit then Some acc else None
  | String c rest =>
      if is_digit c then digits (10 * acc + digit_value c) true rest
      else if Ascii.eqb c "_"
           then (if after_digit then digits acc false rest else None)
           else None
  end.

(** The white space around a number: tab to carriage return, the space,
    and the two code points above 127 that are spaces. *)
Definition numeric_space (c : ascii) : bool :=
  let n := nat_of_ascii c in
  ((9 <=? n)%nat && (n <=? 13)%nat) || (n =? 32)%nat
  || (n =? 133)%nat || (n =? 160)%nat.

Fixpoint ltrim (s : string) : string :=
  match s with
  | EmptyString => EmptyString
  | String c rest => if numeric_space c then ltrim rest else s
  end.

Fixpoint rtrim (s : string) : string :=
  match s with
  | EmptyString => EmptyString
  | String c rest =>
      match rtrim rest with
      | EmptyString =>
          if numeric_space c then EmptyString else String c EmptyString
      | r => String c r
      end
  end.

Definition trim (s : string) : string := rtrim (ltrim s).

(** An optional sign: whether it is a minus, and the text after it. *)
Definition sign_of (s : string) : bool * string :=
  match s with
  | String "+" rest => (false, rest)
  | String "-" rest => (true, rest)
  | _ => (false, s)
  end.

Definition int_decimal (s : string) : option Z :=
  let (negative, body) := sign_of (trim s) in
  (fun z => if negative then - z else z) <$> digits 0 false body.

(** A Python [float]: a binary64 number.  A finite one is kept as its
    sign and its exact magnitude, a rational in lowest terms. *)
Inductive float64 : Type :=
| Finite (negative : bool) (magnitude : Q)
| Infinite (negative : bool)
| NaN.

(** The integer part of the base-2 logarithm of [n / d], for positive
    [n] and [d]. *)
Definition floor_log2 (n d : Z) : Z :=
  let k := Z.log2 n - Z.log2 d in
  if (if 0 <=? k then d * 2 ^ k <=? n else d <=? n * 2 ^ (- k))
  then k else k - 1.

(** [num / den] rounded to the nearest integer, ties to even. *)
Definition round_half_even (num den : Z) : Z :=
  let q := num / den in
  match 2 * (num mod den) ?= den with
  | Lt => q
  | Gt => q + 1
  | Eq => if Z.even q then q else q + 1
  end.

(** The binary64 number nearest to [n / d] (with [0 <= n] and [0 < d]):
    53 bits of precision, exponents down to [-1074]. *)
Definition binary64 (negative : bool) (n d : Z) : float64 :=
  if n =? 0 then Finite negative 0
  else
    let l := floor_log2 n d in
    if 1024 <=? l then Infinite negative
    else
      let e := Z.max (l - 52) (-1074) in
      if 0 <=? e then
        let m := round_half_even n (d * 2 ^ e) in
        if 2 ^ 1024 <=? m * 2 ^ e then Infinite negative
        else Finite negative (inject_Z (m * 2 ^ e))
      else
        let m := round_half_even (n * 2 ^ (- e)) d in
        Finite negative (Qred (Qmake m (Z.to_pos (2 ^ (- e))))).

(** The float nearest to a rational: what a float literal denotes. *)
Definition of_rational (q : Q) : float64 :=
  binary64 (Qnum q <? 0) (Z.abs (Qnum q)) (Z.pos (Qden q)).

(** The longest run of digits, with single underscores between them, at
    the head of [s]: its value on top of [acc], the number of its digits
    on top of [count], and the text after it. *)
Fixpoint scan_digits (acc : Z) (count : nat) (s : string) : Z * nat * string :=
  match s with
  | EmptyString => (acc, count, s)
  | String c rest =>
      if is_digit c then
        let acc' := 10 * acc + digit_value c in
        match rest with
        | String "_" (String c' _ as rest') =>
            if is_digit c' then scan_digits acc' (S count) rest'
            else (acc', S count, rest)
        | _ => scan_digits acc' (S count) rest
        end
      else (acc, count, s)
  end.

Definition lower (c : ascii) : ascii :=
  let n := nat_of_ascii c in
  if ((65 <=? n) && (n <=? 90))%nat then ascii_of_nat (n + 32) else c.

Fixpoint lowercase (s : string) : string :=
  match s with
  | EmptyString => EmptyString
  | String c rest => String (lower c) (lowercase rest)
  end.

(** The exponent that ends a number: nothing, or [e] or [E], an optional
    sign and digits. *)
Definition exponent (s : string) : option Z :=
  match s with
  | EmptyString => Some 0
  | String c rest =>
      if Ascii.eqb (lower c) "e" then
        let (negative, body) := sign_of rest in
        match scan_digits 0 0 body with
        | (x, S _, EmptyString) => Some (if negative then - x else x)
        | _ => None
        end
      else None
  end.

(** The float nearest to [m * 10 ^ x]. *)
Definition scaled (negative : bool) (m x : Z) : float64 :=
  if 0 <=? x then binary64 negative (m * 10 ^ x) 1
  else binary64 negative m (10 ^ (- x)).

Definition floatnumber (negative : bool) (s : string) : option float64 :=
  let '(ip, ni, r1) := scan_digits 0 0 s in
  match r1 with
  | String "." r2 =>
      let '(m, nf, r3) := scan_digits ip 0 r2 in
      match (ni + nf)%nat with
      | O => None
      | S _ => (fun x => scaled negative m (x - Z.of_nat nf)) <$> exponent r3
      end
  | _ =>
      match ni with
      | O => None
      | S _ => scaled negative ip <$> exponent r1
      end
  end.

Definition float_decimal (s : string) : option float64 :=
  let (negative, body) := sign_of (trim s) in
  let word := lowercase body in
  if String.eqb word "inf" || String.eqb word "infinity"
  then Some (Infinite negative)
  else if String.eqb word "nan" then Some NaN
  else floatnumber negative body.

End Parser.

(** ** [ssh_client.py] *)
Module SSH.
Import PyStr.

(** The [paramiko.SSHClient] object held in [self.client]:
    [has_transport] tells whether [get_transport()] is not [None]. *)
Record Session : Type := mkSession { has_transport : bool }.

Record SSHClient : Type := mkSSHClient { client : option Session }.

(** [SSHClient.__init__] leaves [self.client = None]. *)
Definition init : SSHClient := mkSSHClient None.

(** What [exec_command] and the reads that follow it do. *)
Inductive exec_result : Type :=
| Completed (stdout stderr : string) (exit_code : Z)
| ExecRaises (msg : string).

(** The network during one call of [execute_command]:
    - [alive]: what [is_active()] reports for an existing transport;
    - [connect_error]: [None] when [client.connect] succeeds, [Some msg]
      when it raises an [Exception] whose text is [msg];
    - [transport_left]: whether the new client object has a transport
      after a failed [connect];
    - [exec]: the outcome of running a command, if one is run. *)
Record Net : Type := mkNet {
  alive : bool;
  connect_error : option string;
  transport_left : bool;
  exec : string -> exec_result
}.

(** Calls made on the paramiko client. *)
Inductive event : Type :=
| EvConnect
| EvExec (command : string)
| EvClose.

(** [connect]: a fresh client object replaces the handle before the
    connection is attempted. *)
Definition connect (net : Net) (self : SSHClient)
  : bool * SSHClient * list event :=
  match connect_error net with
  | None => (true, mkSSHClient (Some (mkSession true)), [EvConnect])
  | Some _ =>
      (false, mkSSHClient (Some (mkSession (transport_left net))), [EvConnect])
  end.

(** The guard of lines 79-83. *)
Definition needs_connect (net : Net) (self : SSHClient) : bool :=
  match client self with
  | None => true
  | Some c => negb (has_transport c) || negb (alive net)
  end.

(** Lines 88-104: the [try] block around [exec_command]. *)
Definition run_command (net : Net) (command : string)
  : (bool * string * string) * list event :=
  match exec net command with
  | Completed out err exit_code =>
      let stdout_str := strip out in
      let stderr_str := strip err in
      if negb (exit_code =? 0)
      then ((false, stdout_str, stderr_str), [EvExec command])
      else ((true, stdout_str, stderr_str), [EvExec command])
  | ExecRaises msg => ((false, EmptyString, msg), [EvExec command])
  end.

Definition execute_command (net : Net) (self : SSHClient) (command : string)
  : (bool * string * string) * SSHClient * list event :=
  if needs_connect net self then
    let '(connected, self', evs) := connect net self in
    if negb connected
    then ((false, EmptyString, "Unable to connect to server"%string), self', evs)
    else let '(r, evs') := run_command net command in (r, self', evs ++ evs')
  else
    let '(r, evs') := run_command net command in (r, self, evs').

Definition disconnect (self : SSHClient) : SSHClient * list event :=
  match client self with
  | Some _ => (mkSSHClient None, [EvClose])
  | None => (self, [])
  end.

End SSH.

(** ** [data_collector.py] *)
Module Collector.

Definition NVIDIA_SMI_CMD : string :=
  "nvidia-smi --query-gpu=index,name,utilization.gpu,utilization.memory,memory.total,memory.used,memory.free,temperature.gpu,power.draw,power.limit,fan.speed --format=csv,noheader,nounits".
Definition NVIDIA_SMI_PROCESS_CMD : string :=
  "nvidia-smi --query-compute-apps=pid,process_name,gpu_uuid,used_memory --format=csv,noheader,nounits".
Definition NVIDIA_SMI_UUID_CMD : string :=
  "nvidia-smi --query-gpu=index,uuid --format=csv,noheader,nounits".

Record GPUDataCollector : Type := mkCollector {
  server_name : string;
  server_host : string;
  ssh_client : SSH.SSHClient
}.

Section Collect.
Context {F : Type}.
Variable py_int : string -> option Z.
Variable py_float : string -> option F.

Definition with_client (self : GPUDataCollector) (c : SSH.SSHClient)
  : GPUDataCollector :=
  mkCollector (server_name self) (server_host self) c.

(** [collect_gpu_stats]: [n1], [n2], [n3] are the network during the
    three commands and [now] is the clock reading of line 85. *)
Definition collect_gpu_stats (n1 n2 n3 : SSH.Net) (now : string)
           (self : GPUDataCollector)
  : result (option (Snapshot F)) * GPUDataCollector * list SSH.event :=
  let '((success, gpu_stats_output, _), c1, e1) :=
    SSH.execute_command n1 (ssh_client self) NVIDIA_SMI_CMD in
  if negb success then (Ok None, with_client self c1, e1) else
  let '((success, gpu_uuid_output, _), c2, e2) :=
    SSH.execute_command n2 c1 NVIDIA_SMI_UUID_CMD in
  if negb success then (Ok None, with_client self c2, e1 ++ e2) else
  let '((success, process_output, _), c3, e3) :=
    SSH.execute_command n3 c2 NVIDIA_SMI_PROCESS_CMD in
  if negb success then (Ok None, with_client self c3, e1 ++ e2 ++ e3) else
  match Parser.parse py_int py_float now (server_name self) (server_host self)
                     gpu_stats_output gpu_uuid_output process_output with
  | Ok data => (Ok (Some data), with_client self c3, e1 ++ e2 ++ e3)
  | Raise e => (Raise e, with_client self c3, e1 ++ e2 ++ e3)
  end.

End Collect.

(** *** The collection loop

    The loop runs against a script: one [cycle] per pass through the loop
    body, holding what the three calls of the body do if they are
    reached.  A script that runs out leaves the loop [Running]. *)
Section Loop.
Context {F R : Type}.

Record cycle : Type := mkCycle {
  collected : result (option (Snapshot F));   (* self.collect_gpu_stats() *)
  called_back : result R;                     (* callback(data) *)
  slept : result unit                         (* time.sleep(interval) *)
}.

(** Calls made by [start_collection]. *)
Inductive call : Type :=
| CallCollect
| CallCallback (data : Snapshot F)
| CallSleep (interval : Z)
| CallDisconnect.

(** The ways out of the [while True]: the [break] of line 200, the two
    handlers, and an exception that neither handler catches. *)
Inductive exit : Type :=
| MaxRetries
| Interrupted
| Errored (e : exc)
| Propagated (e : exc).

Inductive status : Type :=
| Running
| Exited (x : exit).

Record run : Type := mkRun {
  state : status;
  retry_count : Z;
  calls : list call
}.

(** [interval], [callback] (given or [None]) and [max_retries]. *)
Variable interval : Z.
Variable callback : bool.
Variable max_retries : Z.

(** The handlers of lines 210-218. *)
Definition handler (e : exc) : exit :=
  match e with
  | KeyboardInterrupt => Interrupted
  | Exception _ => Errored e
  | SystemExit => Propagated e
  end.

(** Lines 191-193. *)
Definition call_back (c : cycle) (data : Snapshot F) (cs : list call)
  : result unit * list call :=
  if callback then
    match called_back c with
    | Ok _ => (Ok tt, cs ++ [CallCallback data])
    | Raise e => (Raise e, cs ++ [CallCallback data])
    end
  else (Ok tt, cs).

(** Lines 182-218. *)
Fixpoint while_true (script : list cycle) (retry_count : Z) (cs : list call)
  : run :=
  match script with
  | [] => mkRun Running retry_count cs
  | c :: rest =>
      let cs := cs ++ [CallCollect] in
      match collected c with
      | Raise e => mkRun (Exited (handler e)) retry_count cs
      | Ok (Some data) =>
          let retry_count := 0 in
          match call_back c data cs with
          | (Raise e, cs) => mkRun (Exited (handler e)) retry_count cs
          | (Ok _, cs) =>
              let cs := cs ++ [CallSleep interval] in
              match slept c with
              | Raise e => mkRun (Exited (handler e)) retry_count cs
              | Ok _ => while_true rest retry_count cs
              end
          end
      | Ok None =>
          let retry_count := retry_count + 1 in
          if retry_count >=? max_retries
          then mkRun (Exited MaxRetries) retry_count cs
          else while_true rest retry_count cs
      end
  end.

(** Lines 175-222: the [finally] clause runs once the loop is left. *)
Definition start_collection (script : list cycle) : run :=
  let r := while_true script 0 [] in
  match state r with
  | Running => r
  | Exited _ => mkRun (state r) (retry_count r) (calls r ++ [CallDisconnect])
  end.

(** The exception that leaves the [try] body of a cycle, if one does:
    raised by [collect_gpu_stats], by the callback or by the sleep. *)
Definition raised (c : cycle) : option exc :=
  match collected c with
  | Raise e => Some e
  | Ok None => None
  | Ok (Some _) =>
      match callback, called_back c with
      | true, Raise e => Some e
      | _, _ =>
          match slept c with
          | Raise e => Some e
          | Ok _ => None
          end
      end
  end.

(** A cycle fails when [collect_gpu_stats] returns [None]. *)
Definition failed (c : cycle) : Prop := collected c = Ok None.

Definition failedb (c : cycle) : bool :=
  match collected c with
  | Ok None => true
  | _ => false
  end.

Definition is_disconnect (c : call) : bool :=
  match c with
  | CallDisconnect => true
  | _ => false
  end.

(** Number of [disconnect()] calls in a trace. *)
Fixpoint disconnects (cs : list call) : nat :=
  match cs with
  | [] => 0
  | c :: rest => ((if is_disconnect c then 1 else 0) + disconnects rest)%nat
  end.

(** The longest run of consecutive failed cycles in a script. *)
Fixpoint longest_failures (cur best : nat) (script : list cycle) : nat :=
  match script with
  | [] => Nat.max cur best
  | c :: rest =>
      if failedb c then longest_failures (S cur) best rest
      else longest_failures 0 (Nat.max cur best) rest
  end.

End Loop.
Arguments cycle : clear implicits.
Arguments call : clear implicits.
Arguments run : clear implicits.

End Collector.

(** ** [data_store.py] *)
Module Store.
Import PyStr.

(** [str(n)] for an integer. *)
Definition str_int (z : Z) : string := NilEmpty.string_of_int (Z.to_int z).

Definition starts_with_slash (s : string) : bool :=
  match s with
  | String "/" _ => true
  | _ => false
  end.

Fixpoint ends_with_slash (s : string) : bool :=
  match s with
  | EmptyString => false
  | String "/" EmptyString => true
  | String _ rest => ends_with_slash rest
  end.

(** [os.path.join(a, b)] on a POSIX system. *)
Definition path_join (a b : string) : string :=
  if starts_with_slash b then b
  else if negb (truthy a) || ends_with_slash a then (a ++ b)%string
  else (a ++ "/" ++ b)%string.

(** [p[:i], p[i:]] for [i = p.rfind("/") + 1]. *)
Fixpoint cut_at_last_slash (p : string) : string * string :=
  match p with
  | EmptyString => (EmptyString, EmptyString)
  | String c rest =>
      let (head, tail) := cut_at_last_slash rest in
      if truthy head then (String c head, tail)
      else if Ascii.eqb c "/" then (String c EmptyString, rest)
      else (EmptyString, String c rest)
  end.

(** [s.rstrip("/")] *)
Fixpoint rstrip_slashes (s : string) : string :=
  match s with
  | EmptyString => EmptyString
  | String c rest =>
      match rstrip_slashes rest with
      | EmptyString =>
          if Ascii.eqb c "/" then EmptyString else String c EmptyString
      | r => String c r
      end
  end.

(** [os.path.split(p)] on a POSIX system: the head loses its trailing
    slashes unless it is made of slashes only. *)
Definition path_split (p : string) : string * string :=
  let (head, tail) := cut_at_last_slash p in
  (if truthy (rstrip_slashes head) then rstrip_slashes head else head, tail).

(** The head and the last component of [name] as [os.makedirs] takes
    them: [name] is split again when it ends with a slash. *)
Definition head_tail (name : string) : string * string :=
  let (head, tail) := path_split name in
  if truthy tail then (head, tail) else path_split head.

(** The paths on which [os.makedirs(name, exist_ok=True)] calls [mkdir],
    in the order of the calls: when the head of [name] is missing, the
    directories above [name] first, and no [mkdir] of [name] itself when
    its last component is [.].  The head is shorter than [name], so a
    [fuel] of the length of [name] is never used up. *)
Fixpoint mkdir_calls (fuel : nat) (present : string -> bool) (name : string)
  : list string :=
  let (head, tail) := head_tail name in
  if truthy head && truthy tail && negb (present head) then
    match fuel with
    | O => [name]
    | S fuel' =>
        let above := mkdir_calls fuel' present head in
        if String.eqb tail "." then above else above ++ [name]
    end
  else [name].

(** [name] and the heads above it, the topmost first. *)
Fixpoint lineage (fuel : nat) (name : string) : list string :=
  let (head, tail) := head_tail name in
  (if truthy head && truthy tail then
     match fuel with
     | O => []
     | S fuel' => lineage fuel' head
     end
   else []) ++ [name].

(** The names of the two kinds of files, as lines 58 and 121 build them. *)
Definition stats_name (day : string) : string :=
  ("gpu_stats_" ++ day ++ ".csv")%string.

Definition process_name (idx : Z) (day : string) : string :=
  ("gpu_" ++ str_int idx ++ "_processes_" ++ day ++ ".csv")%string.

Section Store.
Context {F : Type}.

(** A value written by the [csv] writer. *)
Inductive cell : Type :=
| CStr (s : string)
| CInt (z : Z)
| CFloat (f : F).

Definition num_cell (n : num F) : cell :=
  match n with
  | NInt z => CInt z
  | NFloat f => CFloat f
  end.

(** A record of a CSV file: written by [writeheader] or by [writerow]. *)
Inductive line : Type :=
| Header (fieldnames : list string)
| Row (cells : list cell).

(** The disk and the number of operations performed on the outside
    world so far. *)
Record World : Type := mkWorld {
  dirs : gset string;
  files : gmap string (list line);
  clock : nat
}.

(** The outside world: the date read by [datetime.now()] at a given
    instant, the instants at which an I/O operation fails, with the
    class of the [Exception] it raises, and how many directories an
    [os.makedirs] that fails at an instant has made before it fails. *)
Record Env : Type := mkEnv {
  today : nat -> string;
  fault : nat -> option string;
  made_before : nat -> nat
}.

Variable env : Env.
Variable base_dir : string.

(** Stateful computations that may raise. *)
Definition M (A : Type) : Type := World -> result A * World.

Definition ret {A : Type} (a : A) : M A := fun w => (Ok a, w).

Definition mbind {A B : Type} (m : M A) (k : A -> M B) : M B :=
  fun w =>
    match m w with
    | (Ok a, w') => k a w'
    | (Raise e, w') => (Raise e, w')
    end.

Notation "'do' x <- m ; k" := (mbind m (fun x => k))
  (at level 10, x name, m at level 100, k at level 200).
Notation "m ;; k" := (mbind m (fun _ => k))
  (at level 100, k at level 200, right associativity).

Fixpoint for_ {A : Type} (xs : list A) (body : A -> M unit) : M unit :=
  match xs with
  | [] => ret tt
  | x :: rest => body x ;; for_ rest body
  end.

Definition tick (w : World) : World :=
  mkWorld (dirs w) (files w) (S (clock w)).

(** An I/O operation: it fails when the environment says so, and
    otherwise changes the disk by [effect]. *)
Definition io (effect : World -> World) : M unit :=
  fun w =>
    match fault env (clock w) with
    | Some cls => (Raise (Exception cls), tick w)
    | None => (Ok tt, tick (effect w))
    end.

(** [os.path.exists], as a plain function of the world. *)
Definition exists_in (w : World) (path : string) : bool :=
  bool_decide (is_Some (files w !! path)) || bool_decide (path ∈ dirs w).

(** [os.path.exists(path)] *)
Definition path_exists (path : string) : M bool :=
  fun w => (Ok (bool_decide (is_Some (files w !! path))
                || bool_decide (path ∈ dirs w)), w).

(** The directories that [os.makedirs(name, exist_ok=True)] makes on the
    disk [w], the topmost first. *)
Definition made_dirs (w : World) (name : string) : list string :=
  mkdir_calls (String.length name) (exists_in w) name.

Definition add_dirs (ds : list string) (w : World) : World :=
  mkWorld (list_to_set ds ∪ dirs w) (files w) (clock w).

(** [os.makedirs(path, exist_ok=True)]: one operation, which makes the
    missing directories above [path] and then [path].  When it fails, it
    has made some of the directories above [path], the topmost first, and
    not the one of its last [mkdir]. *)
Definition makedirs (path : string) : M unit :=
  fun w =>
    match fault env (clock w) with
    | Some cls =>
        (Raise (Exception cls),
         tick (add_dirs (take (made_before env (clock w))
                              (removelast (made_dirs w path))) w))
    | None => (Ok tt, tick (add_dirs (made_dirs w path) w))
    end.

(** [open(path, "a", newline="")]: creates the file when it is missing. *)
Definition open_append (path : string) : M unit :=
  io (fun w => mkWorld (dirs w)
                       (<[path := default [] (files w !! path)]> (files w))
                       (clock w)).

Definition write (path : string) (l : line) : M unit :=
  io (fun w => mkWorld (dirs w)
                       (<[path := default [] (files w !! path) ++ [l]]> (files w))
                       (clock w)).

(** [datetime.now().strftime("%Y-%m-%d")] *)
Definition date_now : M string :=
  fun w => (Ok (today env (clock w)), tick w).

(** [csv.DictWriter(f, fieldnames=row.keys())]: [writeheader] and
    [writerow] on the file opened at [path]. *)
Definition writeheader (path : string) (row : list (string * cell)) : M unit :=
  write path (Header (map fst row)).

Definition writerow (path : string) (row : list (string * cell)) : M unit :=
  write path (Row (map snd row)).

Definition _get_server_dir (server_name : string) : M string :=
  let server_dir := path_join base_dir server_name in
  makedirs server_dir ;;
  ret server_dir.

Definition _get_date_filename (server_name : string) : M string :=
  do date_str <- date_now ;
  do server_dir <- _get_server_dir server_name ;
  ret (path_join server_dir ("gpu_stats_" ++ date_str ++ ".csv")%string).

(** The [row] dictionary of lines 89-103. *)
Definition gpu_row (timestamp : string) (gpu : GPU F) : list (string * cell) :=
  [ ("timestamp", CStr timestamp);
    ("gpu_index", CInt (index gpu));
    ("gpu_name", CStr (name gpu));
    ("utilization_gpu", CFloat (utilization_gpu gpu));
    ("utilization_memory", CFloat (utilization_memory gpu));
    ("memory_total", CFloat (memory_total gpu));
    ("memory_used", CFloat (memory_used gpu));
    ("memory_free", CFloat (memory_free gpu));
    ("temperature", CFloat (temperature gpu));
    ("power_draw", CFloat (power_draw gpu));
    ("power_limit", CFloat (power_limit gpu));
    ("fan_speed", num_cell (fan_speed gpu));
    ("process_count", CInt (Z.of_nat (length (processes gpu)))) ]%string.

(** The [proc_row] dictionary of lines 128-134. *)
Definition proc_row (timestamp : string) (gpu_idx : Z) (proc : Process F)
  : list (string * cell) :=
  [ ("timestamp", CStr timestamp);
    ("gpu_index", CInt gpu_idx);
    ("pid", CInt (pid proc));
    ("process_name", CStr (proc_name proc));
    ("used_memory", CFloat (used_memory proc)) ]%string.

(** Lines 127-143: the loop over the processes of one GPU; the flag
    [process_file_exists] is threaded through it. *)
Fixpoint write_processes (process_file timestamp : string) (gpu_idx : Z)
         (process_file_exists : bool) (procs : list (Process F)) : M unit :=
  match procs with
  | [] => ret tt
  | proc :: rest =>
      let row := proc_row timestamp gpu_idx proc in
      (if negb process_file_exists then writeheader process_file row else ret tt) ;;
      writerow process_file row ;;
      write_processes process_file timestamp gpu_idx true rest
  end.

(** Lines 116-143. *)
Definition store_processes (server_name timestamp : string) (gpu : GPU F)
  : M unit :=
  match processes gpu with
  | [] => ret tt
  | procs =>
      do server_dir <- _get_server_dir server_name ;
      do date_str <- date_now ;
      let process_file :=
        path_join server_dir
          ("gpu_" ++ str_int (index gpu) ++ "_processes_" ++ date_str ++ ".csv")%string in
      do process_file_exists <- path_exists process_file ;
      open_append process_file ;;
      write_processes process_file timestamp (index gpu) process_file_exists procs
  end.

(** Lines 84-143: the loop over the GPUs; [file_exists] is threaded
    through it. *)
Fixpoint store_gpus (server_name filename timestamp : string)
         (file_exists : bool) (gs : list (GPU F)) : M unit :=
  match gs with
  | [] => ret tt
  | gpu :: rest =>
      let row := gpu_row timestamp gpu in
      open_append filename ;;
      (if negb file_exists then writeheader filename row else ret tt) ;;
      writerow filename row ;;
      store_processes server_name timestamp gpu ;;
      store_gpus server_name filename timestamp true rest
  end.

(** The [try] block of [store_data]. *)
Definition store_data_body (data : Snapshot F) : M bool :=
  match server data with
  | None | Some EmptyString => ret false
  | Some server_name =>
      do filename <- _get_date_filename server_name ;
      do file_exists <- path_exists filename ;
      store_gpus server_name filename (timestamp data) file_exists (gpus data) ;;
      ret true
  end.

(** [store_data]: [except Exception] turns a failure into [False]. *)
Definition store_data (data : Snapshot F) : M bool :=
  fun w =>
    match store_data_body data w with
    | (Ok b, w') => (Ok b, w')
    | (Raise e, w') =>
        if is_Exception e then (Ok false, w') else (Raise e, w')
    end.

(** *** Vocabulary for the statements about the store *)

(** The directory of a server and the path of its stats file for a day. *)
Definition server_dir (server_name : string) : string :=
  path_join base_dir server_name.

Definition stats_path (server_name day : string) : string :=
  path_join (server_dir server_name) (stats_name day).

(** The world in which the loop over the GPUs starts, when the date has
    been read and the server directory made. *)
Definition prepared (server_name : string) (w : World) : World :=
  mkWorld (list_to_set (made_dirs w (server_dir server_name)) ∪ dirs w)
          (files w) (S (S (clock w))).

(** The world in which a call stops when the server directory cannot be
    made: some of the directories above it may be there. *)
Definition unprepared (server_name : string) (w : World) : World :=
  mkWorld (list_to_set (take (made_before env (S (clock w)))
                             (removelast (made_dirs w (server_dir server_name))))
           ∪ dirs w)
          (files w) (S (S (clock w))).

(** A directory and the directories above it. *)
Definition ancestors (dir : string) : list string :=
  lineage (String.length dir) dir.

(** The files that belong to the processes of a server's GPUs. *)
Definition is_process_path (server_name path : string) : Prop :=
  exists idx day, path = path_join (server_dir server_name) (process_name idx day).

(** The lines that [writerow] adds for a list of GPUs. *)
Definition stats_rows (timestamp : string) (gs : list (GPU F)) : list line :=
  map (fun g => Row (map snd (gpu_row timestamp g))) gs.

(** What the loop over the GPUs adds to the stats file. *)
Definition stats_lines (timestamp : string) (file_exists : bool)
           (gs : list (GPU F)) : list line :=
  match gs with
  | [] => []
  | g :: _ =>
      (if file_exists then [] else [Header (map fst (gpu_row timestamp g))])
      ++ stats_rows timestamp gs
  end.

(** Every file of [w] is still there in [w'], with its lines followed by
    new ones at most. *)
Definition grows (w w' : World) : Prop :=
  forall path ls, files w !! path = Some ls ->
                  exists more, files w' !! path = Some (ls ++ more).

(** What a run from [w] to [w'] may have done: files only grow, new
    directories are [dir] and the directories above it at most, and the
    files that [keep] names are as they were. *)
Definition run_ok (dir : string) (keep : string -> Prop) (w w' : World) : Prop :=
  grows w w'
  /\ dirs w' ⊆ list_to_set (ancestors dir) ∪ dirs w
  /\ (forall path, keep path -> files w' !! path = files w !! path).

(** A result is either a value or an exception of class [Exception]. *)
Definition no_base_exception {A : Type} (r : result A) : Prop :=
  forall e, r = Raise e -> is_Exception e = true.

(** The snapshot with another list of GPUs. *)
Definition with_gpus (data : Snapshot F) (gs : list (GPU F)) : Snapshot F :=
  mkSnapshot (timestamp data) (server data) (host data) gs.

(** The header of the per-day stats file. *)
Definition stats_fieldnames : list string :=
  [ "timestamp"; "gpu_index"; "gpu_name"; "utilization_gpu";
    "utilization_memory"; "memory_total"; "memory_used"; "memory_free";
    "temperature"; "power_draw"; "power_limit"; "fan_speed";
    "process_count" ]%string.

Definition is_header (l : line) : bool :=
  match l with
  | Header _ => true
  | Row _ => false
  end.

Fixpoint headers (ls : list line) : nat :=
  match ls with
  | [] => 0
  | l :: rest => ((if is_header l then 1 else 0) + headers rest)%nat
  end.

Fixpoint data_rows (ls : list line) : nat :=
  match ls with
  | [] => 0
  | l :: rest => ((if is_header l then 0 else 1) + data_rows rest)%nat
  end.

End Store.
Arguments cell : clear implicits.
Arguments line : clear implicits.
Arguments World : clear implicits.

End Store.

(** * Observations on runs

    What the further properties say about a call or a run: the answer of a
    command, the commands in a trace of the client, the snapshots handed to
    the callback. *)
Module Observe.
Import PyStr SSH Collector.

(** The flag, the output and the error text of a call. *)
Definition answer (net : Net) (self : SSHClient) (command : string)
  : bool * string * string :=
  fst (fst (execute_command net self command)).

(** The commands run in a trace of the client, in order. *)
Fixpoint commands (evs : list event) : list string :=
  match evs with
  | [] => []
  | EvExec command :: rest => command :: commands rest
  | _ :: rest => commands rest
  end.

(** The network lets [command] through: a connection can be opened, and the
    command prints [out] and exits with status 0. *)
Definition answers (net : Net) (command out : string) : Prop :=
  connect_error net = None /\ exists err, exec net command = Completed out err 0.

Section Calls.
Context {F R : Type}.

(** The snapshots handed to the callback in a trace of the loop, in order. *)
Fixpoint delivered (cs : list (call F)) : list (Snapshot F) :=
  match cs with
  | [] => []
  | CallCallback data :: rest => data :: delivered rest
  | _ :: rest => delivered rest
  end.

(** The intervals slept in a trace of the loop, in order. *)
Fixpoint sleeps (cs : list (call F)) : list Z :=
  match cs with
  | [] => []
  | CallSleep interval :: rest => interval :: sleeps rest
  | _ :: rest => sleeps rest
  end.

(** The snapshots that the collections of a script return, in order. *)
Fixpoint collected_snapshots (script : list (cycle F R)) : list (Snapshot F) :=
  match script with
  | [] => []
  | c :: rest =>
      match collected c with
      | Ok (Some data) => data :: collected_snapshots rest
      | _ => collected_snapshots rest
      end
  end.

End Calls.

(** The rows of the uuid table that have exactly two fields, as pairs of an
    index and a uuid. *)
Definition uuid_rows (blob : string) : list (string * string) :=
  omap (fun line => match parts line with
                    | [idx; u] => Some (idx, u)
                    | _ => None
                    end)
       (lines blob).

(** [uuid_map[idx] = uuid] for a row of the uuid table. *)
Definition put (m : gmap string string) (row : string * string)
  : gmap string string :=
  <[fst row := snd row]> m.

Section Tables.
Context {F : Type}.
Variable py_int : string -> option Z.
Variable py_float : string -> option F.

(** No row of the uuid table has a third field. *)
Definition uuid_table_ok (blob : string) : Prop :=
  forall line, In line (lines blob) ->
               (2 <= length (parts line))%nat -> length (parts line) = 2%nat.

(** Every row of the stats table with at least 11 fields has exactly 11,
    with numeric fields that convert. *)
Definition stats_table_ok (blob : string) : Prop :=
  forall line, In line (lines blob) ->
               (11 <= length (parts line))%nat ->
               Parser.stats_fields_ok py_int py_float (parts line) = true.

(** Every row of the process table with at least 4 fields has exactly 4,
    with a pid and a memory use that convert. *)
Definition process_table_ok (blob : string) : Prop :=
  forall line, In line (lines blob) ->
               (4 <= length (parts line))%nat ->
               is_Some (Parser.process_of py_int py_float (parts line)).

(** The number of processes attached to the GPUs of a list. *)
Fixpoint total_processes (gs : list (GPU F)) : nat :=
  match gs with
  | [] => 0
  | g :: rest => (length (processes g) + total_processes rest)%nat
  end.

(** Whether some GPU of the list has the uuid. *)
Definition has_uuid (gs : list (GPU F)) (u : string) : bool :=
  existsb (fun g => String.eqb (uuid g) u) gs.

End Tables.

End Observe.

(** * Observations on the disk

    What the further properties say about the files of a server: what a
    file holds, and the lines that the loop over the processes of a GPU
    adds to a process file. *)
Module Disk.
Import PyStr Store.

Section Files.
Context {F : Type}.
Variable base_dir : string.

(** The lines of a file, none when the file is missing. *)
Definition contents (w : World F) (path : string) : list (line F) :=
  default [] (files w !! path).

(** The process file of a GPU for a day. *)
Definition process_path (server_name : string) (idx : Z) (day : string)
  : string :=
  path_join (server_dir base_dir server_name) (process_name idx day).

(** The lines that [writerow] adds for the processes of a GPU. *)
Definition process_rows (timestamp : string) (idx : Z)
           (procs : list (Process F)) : list (line F) :=
  map (fun proc => Row (map snd (proc_row timestamp idx proc))) procs.

(** What the loop over the processes adds to the process file. *)
Definition process_lines (timestamp : string) (idx : Z)
           (process_file_exists : bool) (procs : list (Process F))
  : list (line F) :=
  match procs with
  | [] => []
  | proc :: _ =>
      (if process_file_exists then []
       else [Header (map fst (proc_row timestamp idx proc))])
      ++ process_rows timestamp idx procs
  end.

End Files.

End Disk.

(** * Concrete inputs

    The networks, scripts, blobs, snapshots and disks on which the
    properties below are run. *)
Module Examples.
Import PyStr Parser SSH Collector Store.

Local Abbreviation fl := of_rational.

(** A network on which nothing can be reached. *)
Definition unreachable : Net :=
  mkNet false (Some "timed out"%string) false
        (fun _ => ExecRaises "unreachable"%string).

(** A snapshot of a server without GPUs. *)
Definition empty_snapshot : Snapshot float64 :=
  mkSnapshot "2024-01-01T00:00:00" (Some "gpu-box"%string) "10.0.0.1" [].

(** A cycle whose collection succeeds and is stored. *)
Definition succeed : cycle float64 bool :=
  mkCycle (Ok (Some empty_snapshot)) (Ok true) (Ok tt).

(** A cycle whose collection returns [None]. *)
Definition fail : cycle float64 bool := mkCycle (Ok None) (Ok true) (Ok tt).

(** A cycle whose callback raises. *)
Definition sink_raises : cycle float64 bool :=
  mkCycle (Ok (Some empty_snapshot)) (Raise ValueError) (Ok tt).

(** The script fail, fail, succeed, fail, fail, succeed. *)
Definition two_by_two : list (cycle float64 bool) :=
  [fail; fail; succeed; fail; fail; succeed].

(** Two lines of a blob. *)
Definition joined (l1 l2 : string) : string :=
  (l1 ++ String newline l2)%string.

(** The stats row of the end-to-end example of the specification. *)
Definition test_gpu_row : string :=
  "0, TestGPU, 10, 5, 8000, 2000, 6000, 45, 20.5, 70, 30".

(** A row with ten fields: the fan speed is missing altogether. *)
Definition short_row : string := "1, TestGPU, 10, 5, 8000, 2000, 6000, 45, 20.5, 70".

(** A row of a GPU without a fan and without an entry in the uuid table. *)
Definition fanless_row : string := "2, Passive, 0, 0, 4000, 0, 4000, 30, 9.75, 35,".

(** A row of a GPU that does not report its power draw. *)
Definition no_power_row : string :=
  "0, TestGPU, 10, 5, 8000, 2000, 6000, 45, [N/A], 70, 30".

(** A row with a twelfth field. *)
Definition overlong_row : string :=
  "0, TestGPU, 10, 5, 8000, 2000, 6000, 45, 20.5, 70, 30, 0".

(** A stats blob of three lines, the middle one too short. *)
Definition three_rows : string := joined test_gpu_row (joined short_row fanless_row).

(** The mapping read from the uuid blob ["0, GPU-abc"]. *)
Definition one_uuid : gmap string string := {[ "0"%string := "GPU-abc"%string ]}.

(** The three blobs of a server with two GPUs. *)
Definition uuid_table : string := joined "0, GPU-abc" "1, GPU-def".

Definition two_gpus : string :=
  joined test_gpu_row "1, TestGPU, 90, 50, 8000, 7000, 1000, 80, 65.5, 70, 85".

(** Two processes on GPU 1, one on GPU 0, one on a GPU that is not in the
    stats table, and one incomplete row. *)
Definition process_table : string :=
  joined "123, python, GPU-def, 512"
    (joined "124, python, GPU-abc, 256"
       (joined "125, bash, GPU-xyz, 1"
          (joined "126, cut off" "127, train, GPU-def, 2048"))).

(** A process whose memory use is not reported. *)
Definition no_memory_process : string := "123, python, GPU-abc, [N/A]".

(** A day without faults. *)
Definition quiet : Env :=
  mkEnv (fun _ => "2024-01-01"%string) (fun _ => None) (fun _ => 0%nat).

(** The same day, with the disk failing at the [n]-th operation. *)
Definition failing_at (n : nat) : Env :=
  mkEnv (fun _ => "2024-01-01"%string)
        (fun t => if (t =? n)%nat then Some "OSError"%string else None)
        (fun _ => 0%nat).

(** A disk without files or directories, before any operation. *)
Definition empty_disk : World float64 := mkWorld ∅ ∅ 0.

(** The GPU of the end-to-end example, with its process, and a second GPU
    without processes and without a fan. *)
Definition busy_gpu : GPU float64 :=
  mkGPU 0 "TestGPU" "GPU-abc" (fl 10) (fl 5) (fl 8000) (fl 2000) (fl 6000)
        (fl 45) (fl 20.5) (fl 70) (NFloat (fl 30))
        [mkProcess 123 "python" (fl 512)].

Definition idle_gpu : GPU float64 :=
  mkGPU 1 "TestGPU" "GPU-def" (fl 0) (fl 0) (fl 8000) (fl 0) (fl 8000)
        (fl 30) (fl 9.5) (fl 70) (NInt 0) [].

(** Snapshots of the server "gpu-box", and one without a server name. *)
Definition snapshot_of (gs : list (GPU float64)) : Snapshot float64 :=
  mkSnapshot "2024-01-01T12:00:00" (Some "gpu-box"%string) "10.0.0.1" gs.

Definition nameless_snapshot : Snapshot float64 :=
  mkSnapshot "2024-01-01T12:00:00" None "10.0.0.1" [busy_gpu].

(** The stats file of "gpu-box" for the day, under [/data]. *)
Definition box_stats : string := stats_path "/data" "gpu-box" "2024-01-01".

(** A cycle whose snapshot cannot be stored: the directory cannot be
    made. *)
Definition unstored : cycle float64 bool :=
  mkCycle (Ok (Some (snapshot_of [busy_gpu])))
          (fst (store_data (failing_at 1) "/data" (snapshot_of [busy_gpu])
                           empty_disk))
          (Ok tt).

End Examples.

(** * More concrete inputs *)
Module MoreExamples.
Import PyStr Parser SSH Collector Store Examples.

(** A client whose session is up. *)
Definition connected : SSHClient := mkSSHClient (Some (mkSession true)).

(** A network on which every command prints a line and exits with 0. *)
Definition healthy : Net :=
  mkNet true None true (fun _ => Completed " ok " EmptyString 0).

(** A uuid table that lists the index 0 twice. *)
Definition repeated_index : string := joined "0, GPU-old" "0, GPU-new".

(** A disk that holds a file of another program, and no directory. *)
Definition used_disk : World float64 :=
  mkWorld ∅ {["/data/notes.txt"%string := []]} 0.

(** A disk on which the base directory is there, and nothing else. *)
Definition data_disk : World float64 := mkWorld {["/data"%string]} ∅ 0.

(** A day on which the [n]-th operation fails; an [os.makedirs] that
    fails has made [k] directories by then, if that many were missing
    above its last one. *)
Definition stuck_at (n k : nat) : Env :=
  mkEnv (fun _ => "2024-01-01"%string)
        (fun t => if (t =? n)%nat then Some "OSError"%string else None)
        (fun _ => k).

(** A snapshot of a server that is named after its rack. *)
Definition rack_snapshot : Snapshot float64 :=
  mkSnapshot "2024-01-01T12:00:00" (Some "rack1/gpu-box"%string) "10.0.0.1"
             [idle_gpu].

(** The server of the end-to-end example: one GPU, one process. *)
Definition gpu_box : Net :=
  mkNet true None true
        (fun command =>
           if String.eqb command NVIDIA_SMI_CMD
           then Completed test_gpu_row EmptyString 0
           else if String.eqb command NVIDIA_SMI_UUID_CMD
                then Completed "0, GPU-abc" EmptyString 0
                else Completed "123, python, GPU-abc, 512" EmptyString 0).

(** The collector of that server, before its first command. *)
Definition box_collector : GPUDataCollector :=
  mkCollector "gpu-box" "10.0.0.1" SSH.init.

End MoreExamples.

(** * Properties *)

(** ** The remote-command client *)
Module SSHProps.
Import SSH Examples.

(** The guard of [execute_command], spelled out. *)
Lemma needs_connect_iff (net : Net) (self : SSHClient) :
  needs_connect net self = true <->
  client self = None \/
  exists c, client self = Some c /\ (has_transport c = false \/ alive net = false).
Proof.
  unfold needs_connect. destruct (client self) as [c|]; split.
  - intros H. right. exists c. split; [reflexivity|].
    apply orb_true_iff in H. destruct H as [H|H]; apply negb_true_iff in H; auto.
  - intros [H|(c' & Hc & H)]; [discriminate|]. inversion Hc; subst c'.
    apply orb_true_iff. destruct H as [H|H]; rewrite H; auto.
  - auto.
  - reflexivity.
Qed.

(** A live session is used as it is: no [connect()] is made. *)
Lemma execute_command_live (net : Net) (self : SSHClient) (command : string) :
  needs_connect net self = false ->
  snd (execute_command net self command) = [EvExec command].
Proof.
  intros H. unfold execute_command, run_command. rewrite H.
  destruct (exec net command) as [out err code|msg]; [|reflexivity].
  destruct (negb (code =? 0)); reflexivity.
Qed.

Lemma run_command_events (net : Net) (command : string) :
  snd (run_command net command) = [EvExec command].
Proof.
  unfold run_command. destruct (exec net command) as [out err code|msg]; [|reflexivity].
  destruct (negb (code =? 0)); reflexivity.
Qed.

(** C3. When [execute_command] finds no session handle, or a session whose
    transport is absent or inactive, its first call is [connect()], and
    that is the only [connect()] it makes: what follows is the command
    itself when the connection succeeds, and nothing when it fails; in the
    latter case the answer is [(False, "", "Unable to connect to server")]
    and the command is not run. *)
Theorem execute_command_connects_once
        (net : Net) (self : SSHClient) (command : string) :
  (client self = None \/
   exists c, client self = Some c /\ (has_transport c = false \/ alive net = false)) ->
  exists r self' rest,
    execute_command net self command = (r, self', EvConnect :: rest)
    /\ (connect_error net = None -> rest = [EvExec command])
    /\ (forall msg, connect_error net = Some msg ->
        r = (false, EmptyString, "Unable to connect to server"%string)
        /\ rest = []).
Proof.
  intros H. apply needs_connect_iff in H.
  unfold execute_command, connect. rewrite H.
  destruct (connect_error net) as [msg|] eqn:Hc; simpl.
  - eexists _, _, _. split; [reflexivity|]. split; [discriminate|].
    intros msg' _. split; reflexivity.
  - pose proof (run_command_events net command) as Hev.
    destruct (run_command net command) as [r evs']. simpl in Hev. subst evs'.
    eexists _, _, _. split; [reflexivity|]. split; [reflexivity|].
    intros msg' Hm. discriminate.
Qed.

Lemma execute_command_connects_once_witness :
  exists r self' rest,
    execute_command unreachable init "nvidia-smi"%string
    = (r, self', EvConnect :: rest)
    /\ (connect_error unreachable = None -> rest = [EvExec "nvidia-smi"%string])
    /\ (forall msg, connect_error unreachable = Some msg ->
        r = (false, EmptyString, "Unable to connect to server"%string)
        /\ rest = []).
Proof.
  apply (execute_command_connects_once unreachable init "nvidia-smi"%string).
  left. reflexivity.
Defined.

End SSHProps.

(** ** The collection loop *)
Module CollectorProps.
Import Collector Examples.

Section Loop.
Context {F R : Type}.
Variable interval : Z.
Variable callback : bool.
Variable max_retries : Z.

Local Abbreviation cycle := (cycle F R).
Local Abbreviation call := (call F).
Local Abbreviation while_true := (@while_true F R interval callback max_retries).
Local Abbreviation start_collection :=
  (@start_collection F R interval callback max_retries).

Implicit Types (script pre post : list cycle) (cs : list call) (rc : Z).

Lemma handler_not_max_retries (e : exc) : handler e <> @MaxRetries.
Proof. destruct e; discriminate. Qed.

(** Running a script in two pieces. *)
Lemma while_true_app pre post rc cs :
  while_true (pre ++ post) rc cs =
  match state (while_true pre rc cs) with
  | Running => while_true post (retry_count (while_true pre rc cs))
                          (calls (while_true pre rc cs))
  | Exited _ => while_true pre rc cs
  end.
Proof.
  revert rc cs. induction pre as [|c pre IH]; intros rc cs; [reflexivity|].
  simpl. destruct (collected c) as [[d|]|e]; simpl.
  - destruct (call_back callback c d (cs ++ [CallCollect])) as [[u|e] cs'];
      [|reflexivity].
    destruct (slept c); [apply IH|reflexivity].
  - destruct (rc + 1 >=? max_retries); [reflexivity|apply IH].
  - reflexivity.
Qed.

Lemma disconnects_app cs cs' :
  disconnects (cs ++ cs') = (disconnects cs + disconnects cs')%nat.
Proof. induction cs as [|c cs IH]; simpl; [reflexivity|rewrite IH; lia]. Qed.

Lemma disconnects_collects (n : nat) :
  disconnects (replicate n (@CallCollect F)) = 0%nat.
Proof. induction n as [|n IH]; simpl; [reflexivity|exact IH]. Qed.

Lemma call_back_disconnects (c : cycle) d cs :
  disconnects (snd (call_back callback c d cs)) = disconnects cs.
Proof.
  unfold call_back. destruct callback; [|reflexivity].
  destruct (called_back c); simpl; rewrite disconnects_app; simpl; lia.
Qed.

(** The loop body never calls [disconnect()]. *)
Lemma while_true_disconnects script rc cs :
  disconnects (calls (while_true script rc cs)) = disconnects cs.
Proof.
  revert rc cs. induction script as [|c script IH]; intros rc cs; [reflexivity|].
  assert (Hc : disconnects (cs ++ [CallCollect]) = disconnects cs)
    by (rewrite disconnects_app; simpl; lia).
  simpl. destruct (collected c) as [[d|]|e]; simpl.
  - pose proof (call_back_disconnects c d (cs ++ [CallCollect])) as Hcb.
    destruct (call_back callback c d (cs ++ [CallCollect])) as [[u|e] cs'];
      simpl in *; [|lia].
    assert (Hs : disconnects (cs' ++ [CallSleep interval]) = disconnects cs)
      by (rewrite disconnects_app; simpl; lia).
    destruct (slept c); simpl; [rewrite IH|]; exact Hs.
  - destruct (rc + 1 >=? max_retries); simpl; [|rewrite IH]; exact Hc.
  - exact Hc.
Qed.

(** The counter is never negative, and stays below the limit while the
    loop runs. *)
Lemma while_true_counter script rc cs :
  0 <= rc ->
  0 <= retry_count (while_true script rc cs)
  /\ (rc < max_retries -> state (while_true script rc cs) = Running ->
      retry_count (while_true script rc cs) < max_retries).
Proof.
  revert rc cs. induction script as [|c script IH]; intros rc cs Hrc;
    [simpl; auto|].
  simpl. destruct (collected c) as [[d|]|e]; simpl.
  - destruct (call_back callback c d (cs ++ [CallCollect])) as [[u|e] cs'];
      simpl; [|split; [lia|discriminate]].
    destruct (slept c); simpl; [|split; [lia|discriminate]].
    destruct (IH 0 (cs' ++ [CallSleep interval]) ltac:(lia)) as [H0 H1].
    split; [exact H0|]. intros Hlt. apply H1. lia.
  - destruct (rc + 1 >=? max_retries) eqn:Hge; simpl.
    + split; [lia|discriminate].
    + destruct (IH (rc + 1) (cs ++ [CallCollect]) ltac:(lia)) as [H0 H1].
      split; [exact H0|]. intros _. apply H1. lia.
  - split; [lia|discriminate].
Qed.

(** Enough failed cycles in a row end the loop, with one call of
    [collect_gpu_stats] each and nothing in between. *)
Lemma while_true_failures (fs post : list cycle) rc cs :
  Forall failed fs ->
  rc < max_retries ->
  max_retries - rc <= Z.of_nat (length fs) ->
  while_true (fs ++ post) rc cs =
  mkRun (Exited MaxRetries) max_retries
        (cs ++ replicate (Z.to_nat (max_retries - rc)) CallCollect).
Proof.
  revert rc cs. induction fs as [|c fs IH]; intros rc cs Hf Hlt Hlen.
  - simpl in Hlen. lia.
  - inversion Hf as [|? ? Hc Hfs]; subst. unfold failed in Hc.
    simpl. rewrite Hc.
    destruct (rc + 1 >=? max_retries) eqn:Hge.
    + assert (max_retries = rc + 1) as -> by lia.
      replace (rc + 1 - rc) with 1 by lia. reflexivity.
    + rewrite IH; [|assumption|lia|simpl in Hlen; lia].
      replace (Z.to_nat (max_retries - rc))
        with (S (Z.to_nat (max_retries - (rc + 1)))) by lia.
      simpl. rewrite <- app_assoc. reflexivity.
Qed.

Lemma start_collection_running script :
  state (start_collection script) = Running ->
  start_collection script = while_true script 0 [].
Proof.
  unfold start_collection. destruct (state (while_true script 0 [])) eqn:Hs;
    [reflexivity|]. simpl. discriminate.
Qed.

Lemma start_collection_state script :
  state (start_collection script) = state (while_true script 0 []).
Proof.
  unfold start_collection. destruct (state (while_true script 0 [])) eqn:Hs;
    [exact Hs|reflexivity].
Qed.

(** C1. Take any run of the loop that is still going after the cycles
    [pre], and let the next [max_retries] cycles all fail.  Then the loop
    ends there by giving up, whatever the script holds afterwards; from
    the end of [pre] on it only calls [collect_gpu_stats] (no sleep
    between the failed cycles), at most [max_retries] times and exactly
    that often when the counter stood at 0; and [disconnect()] is called
    once, as the last call. *)
Theorem consecutive_failures_give_up (pre fs post : list cycle) :
  1 <= max_retries ->
  state (start_collection pre) = Running ->
  Forall failed fs ->
  length fs = Z.to_nat max_retries ->
  let r0 := start_collection pre in
  let r := start_collection (pre ++ fs ++ post) in
  state r = Exited MaxRetries
  /\ 0 <= retry_count r0 < max_retries
  /\ calls r = calls r0
               ++ replicate (Z.to_nat (max_retries - retry_count r0)) CallCollect
               ++ [CallDisconnect]
  /\ disconnects (calls r) = 1%nat.
Proof.
  intros Hm Hrun Hf Hlen r0 r.
  pose proof (start_collection_running pre Hrun) as Hr0.
  rewrite start_collection_state in Hrun.
  destruct (while_true_counter pre 0 [] ltac:(lia)) as [H0 H1].
  specialize (H1 ltac:(lia) Hrun).
  assert (Hw : while_true (pre ++ fs ++ post) 0 [] =
               mkRun (Exited MaxRetries) max_retries
                     (calls r0 ++ replicate
                        (Z.to_nat (max_retries - retry_count r0)) CallCollect)).
  { rewrite while_true_app, Hrun. subst r0. rewrite Hr0.
    apply while_true_failures; [assumption|lia|lia]. }
  assert (Hr : r = mkRun (Exited MaxRetries) max_retries
                     (calls r0 ++ replicate
                        (Z.to_nat (max_retries - retry_count r0)) CallCollect
                      ++ [CallDisconnect])).
  { subst r. unfold start_collection at 1. rewrite Hw. simpl.
    rewrite <- app_assoc. reflexivity. }
  rewrite Hr. simpl. split; [reflexivity|].
  split; [subst r0; rewrite Hr0; lia|]. split; [reflexivity|].
  rewrite !disconnects_app, disconnects_collects. subst r0.
  rewrite Hr0, while_true_disconnects. reflexivity.
Qed.

Lemma longest_failures_ge (script : list cycle) (cur best : nat) :
  (cur <= longest_failures cur best script
   /\ best <= longest_failures cur best script)%nat.
Proof.
  revert cur best. induction script as [|c script IH]; intros cur best; simpl.
  - lia.
  - destruct (failedb c).
    + destruct (IH (S cur) best). lia.
    + destruct (IH 0%nat (Nat.max cur best)). lia.
Qed.

(** As long as the failures in a row stay below the limit, the loop does
    not give up. *)
Lemma while_true_no_give_up script (cur best : nat) rc cs :
  rc <= Z.of_nat cur ->
  Z.of_nat (longest_failures cur best script) < max_retries ->
  state (while_true script rc cs) <> Exited MaxRetries.
Proof.
  revert cur best rc cs.
  induction script as [|c script IH]; intros cur best rc cs Hrc Hlong;
    [discriminate|].
  simpl in *. unfold failedb in Hlong.
  destruct (collected c) as [[d|]|e]; simpl.
  - destruct (call_back callback c d (cs ++ [CallCollect])) as [[u|e] cs'].
    + destruct (slept c) as [u'|e].
      * apply (IH 0%nat (Nat.max cur best)); [lia|exact Hlong].
      * simpl. intros H. inversion H as [H']. exact (handler_not_max_retries e H').
    + simpl. intros H. inversion H as [H']. exact (handler_not_max_retries e H').
  - pose proof (longest_failures_ge script (S cur) best) as [Hge _].
    destruct (rc + 1 >=? max_retries) eqn:Hcmp; [lia|].
    apply (IH (S cur) best); [lia|exact Hlong].
  - intros H. inversion H as [H']. exact (handler_not_max_retries e H').
Qed.

(** The cycle after a running prefix, when its collection succeeds and
    neither the callback nor the sleep raises. *)
Lemma successful_cycle pre (c : cycle) data :
  state (start_collection pre) = Running ->
  collected c = Ok (Some data) ->
  raised callback c = None ->
  state (start_collection (pre ++ [c])) = Running
  /\ retry_count (start_collection (pre ++ [c])) = 0.
Proof.
  intros Hrun Hc Hr. rewrite start_collection_state in Hrun.
  unfold start_collection. rewrite while_true_app, Hrun. simpl.
  unfold raised in Hr. rewrite Hc in *. unfold call_back.
  destruct callback; [destruct (called_back c); [|discriminate]|];
    destruct (slept c); try discriminate; simpl; auto.
Qed.

(** C2. A cycle whose collection succeeds leaves the consecutive-failure
    counter at 0; and on every script in which fewer than [max_retries]
    cycles ever fail in a row, the loop does not leave through the
    give-up exit. *)
Theorem success_resets_counter :
  (forall pre (c : cycle) data,
      state (start_collection pre) = Running ->
      collected c = Ok (Some data) ->
      retry_count (start_collection (pre ++ [c])) = 0)
  /\ (forall script,
         Z.of_nat (longest_failures 0 0 script) < max_retries ->
         state (start_collection script) <> Exited MaxRetries).
Proof.
  split.
  - intros pre c data Hrun Hc. rewrite start_collection_state in Hrun.
    unfold start_collection. rewrite while_true_app, Hrun. simpl. rewrite Hc.
    destruct (call_back callback c data _) as [[u|e] cs']; simpl;
      [|reflexivity].
    destruct (slept c); reflexivity.
  - intros script Hlong. rewrite start_collection_state.
    apply (while_true_no_give_up script 0%nat 0%nat); [lia|exact Hlong].
Qed.

(** A cycle whose body raises ends the loop on the spot. *)
Lemma while_true_raised (c : cycle) post e rc cs :
  raised callback c = Some e ->
  while_true (c :: post) rc cs = while_true [c] rc cs
  /\ state (while_true [c] rc cs) = Exited (handler e)
  /\ (retry_count (while_true [c] rc cs) = rc
      \/ retry_count (while_true [c] rc cs) = 0).
Proof.
  unfold raised. intros Hr. simpl.
  destruct (collected c) as [[d|]|e0]; simpl.
  - unfold call_back. destruct callback.
    + destruct (called_back c) as [v|e1]; simpl.
      * destruct (slept c) as [u|e2]; [discriminate|].
        inversion Hr; subst. auto.
      * inversion Hr; subst. auto.
    + destruct (slept c) as [u|e2]; [discriminate|].
      inversion Hr; subst. auto.
  - discriminate.
  - inversion Hr; subst. auto.
Qed.

(** C8. When an exception leaves the body of a cycle (raised by
    [collect_gpu_stats], for instance by a numeric conversion of the
    parser, by the callback or by the sleep), the loop ends with that
    cycle: the later cycles of the script are not run, the exit is the
    handler's and not the give-up exit, the consecutive-failure counter
    is not above its value before the cycle, and [disconnect()] is the
    last call and is made once. *)
Theorem exception_ends_loop pre (c : cycle) post (e : exc) :
  state (start_collection pre) = Running ->
  raised callback c = Some e ->
  let r0 := start_collection pre in
  let r := start_collection (pre ++ c :: post) in
  r = start_collection (pre ++ [c])
  /\ state r = Exited (handler e)
  /\ state r <> Exited MaxRetries
  /\ retry_count r <= retry_count r0
  /\ last (calls r) = Some CallDisconnect
  /\ disconnects (calls r) = 1%nat.
Proof.
  intros Hrun Hr r0 r.
  pose proof (start_collection_running pre Hrun) as Hr0.
  rewrite start_collection_state in Hrun.
  destruct (while_true_counter pre 0 [] ltac:(lia)) as [H0 _].
  destruct (while_true_raised c post e (retry_count (while_true pre 0 []))
              (calls (while_true pre 0 [])) Hr) as (Hpost & Hst & Hrc).
  assert (Hw : while_true (pre ++ c :: post) 0 [] = while_true (pre ++ [c]) 0 []).
  { rewrite !while_true_app, Hrun. exact Hpost. }
  assert (Hw1 : while_true (pre ++ [c]) 0 [] =
                while_true [c] (retry_count (while_true pre 0 []))
                           (calls (while_true pre 0 []))).
  { rewrite while_true_app, Hrun. reflexivity. }
  assert (Heq : r = start_collection (pre ++ [c])).
  { subst r. unfold start_collection. rewrite Hw. reflexivity. }
  split; [exact Heq|]. rewrite Heq. subst r0. rewrite Hr0.
  pose proof (while_true_disconnects (pre ++ [c]) 0 []) as Hd.
  unfold start_collection. rewrite Hw1 in *.
  destruct (while_true [c] _ _) as [st rc' cs']. simpl in *. subst st. simpl.
  split; [reflexivity|].
  split; [intros H; inversion H as [H']; exact (handler_not_max_retries e H')|].
  split; [destruct Hrc as [-> | ->]; lia|].
  split; [apply last_snoc|].
  rewrite disconnects_app, Hd. reflexivity.
Qed.

End Loop.

(** *** The properties on concrete scripts *)

Lemma consecutive_failures_give_up_witness :
  let r := start_collection 5 true 3 ([succeed] ++ [fail; fail; fail] ++ [succeed]) in
  state r = Exited MaxRetries
  /\ calls r = [CallCollect; CallCallback empty_snapshot; CallSleep 5;
                CallCollect; CallCollect; CallCollect; CallDisconnect]
  /\ disconnects (calls r) = 1%nat.
Proof.
  destruct (consecutive_failures_give_up 5 true 3 [succeed] [fail; fail; fail]
                                         [succeed])
    as (Hstate & _ & Hcalls & Hone).
  - lia.
  - reflexivity.
  - repeat constructor.
  - reflexivity.
  - split; [exact Hstate|]. split; [exact Hcalls|exact Hone].
Defined.

Lemma success_resets_counter_witness :
  Z.of_nat (longest_failures 0 0 two_by_two) < 3
  /\ state (start_collection 5 true 3 two_by_two) <> Exited MaxRetries.
Proof.
  split; [reflexivity|].
  apply (proj2 (success_resets_counter 5 true 3)). reflexivity.
Defined.

Lemma exception_ends_loop_witness :
  let r := start_collection 5 true 3 ([fail; fail] ++ sink_raises :: [succeed]) in
  state r = Exited (Errored ValueError)
  /\ retry_count r = 0
  /\ calls r = [CallCollect; CallCollect; CallCollect;
                CallCallback empty_snapshot; CallDisconnect].
Proof.
  destruct (exception_ends_loop 5 true 3 [fail; fail] sink_raises [succeed]
                                ValueError)
    as (_ & Hstate & _ & _ & _ & _).
  - reflexivity.
  - reflexivity.
  - split; [exact Hstate|]. split; reflexivity.
Defined.

End CollectorProps.

(** ** The parser *)
Module ParserProps.
Import PyStr Parser Observe Examples.

(** *** Blank lines have a single field *)

Lemma lstrip_empty (s : string) :
  lstrip s = EmptyString -> split comma s = [s].
Proof.
  induction s as [|c s IH]; simpl; [reflexivity|].
  destruct (is_space c) eqn:Hc; [|discriminate].
  intros H. rewrite (IH H).
  destruct (Ascii.eqb c comma) eqn:Hcomma; [|reflexivity].
  apply Ascii.eqb_eq in Hcomma. subst c. discriminate.
Qed.

Lemma lstrip_head (s : string) (c : ascii) (t : string) :
  lstrip s = String c t -> is_space c = false.
Proof.
  induction s as [|a s IH]; simpl; [discriminate|].
  destruct (is_space a) eqn:Ha; [exact IH|].
  intros H. inversion H; subst. exact Ha.
Qed.

Lemma rstrip_head (c : ascii) (t : string) :
  is_space c = false -> rstrip (String c t) <> EmptyString.
Proof.
  intros Hc. simpl. destruct (rstrip t); [rewrite Hc|]; discriminate.
Qed.

Lemma blank_line_parts (line : string) :
  truthy (strip line) = false -> length (parts line) = 1%nat.
Proof.
  unfold strip, parts. intros H.
  destruct (lstrip line) as [|c t] eqn:Hl.
  - rewrite (lstrip_empty line Hl). reflexivity.
  - pose proof (rstrip_head c t (lstrip_head line c t Hl)) as Hne.
    destruct (rstrip (String c t)); [congruence|discriminate].
Qed.

Section Parse.
Context {F : Type}.
Variable py_int : string -> option Z.
Variable py_float : string -> option F.

Local Abbreviation make_gpu := (@make_gpu F py_int py_float).
Local Abbreviation stats_row := (@stats_row F py_int py_float).
Local Abbreviation parse_stats := (@parse_stats F py_int py_float).
Local Abbreviation process_row := (@process_row F py_int py_float).
Local Abbreviation parse_processes := (@parse_processes F py_int py_float).
Local Abbreviation process_of := (@process_of F py_int py_float).
Local Abbreviation stats_fields_ok := (@stats_fields_ok F py_int py_float).

(** The guards of a stats row amount to counting its fields. *)
Lemma stats_line_fields (line : string) :
  stats_line line = (11 <=? length (parts line))%nat.
Proof.
  unfold stats_line. destruct (truthy (strip line)) eqn:Hb; [reflexivity|].
  rewrite (blank_line_parts line Hb). reflexivity.
Qed.

Lemma process_line_fields (line : string) :
  process_line line = (4 <=? length (parts line))%nat.
Proof.
  unfold process_line. destruct (truthy (strip line)) eqn:Hb; [reflexivity|].
  rewrite (blank_line_parts line Hb). reflexivity.
Qed.

(** A loop skips the elements that its body leaves alone. *)
Lemma for_each_filter {A S : Type} (body : S -> A -> result S)
      (keep : A -> bool) (xs : list A) (s : S) :
  (forall s x, keep x = false -> body s x = Ok s) ->
  for_each body xs s = for_each body (List.filter keep xs) s.
Proof.
  intros Hskip. revert s. induction xs as [|x xs IH]; intros s; [reflexivity|].
  simpl. destruct (keep x) eqn:Hk.
  - simpl. destruct (body s x); [apply IH|reflexivity].
  - rewrite (Hskip s x Hk). apply IH.
Qed.

Lemma stats_row_skip m gs line :
  stats_line line = false -> stats_row m gs line = Ok gs.
Proof.
  unfold stats_line, Parser.stats_row. intros H.
  destruct (truthy (strip line)); [|reflexivity].
  rewrite andb_true_l in H. rewrite H. reflexivity.
Qed.

Lemma stats_row_keep m gs line :
  stats_line line = true ->
  stats_row m gs line =
  match make_gpu m (parts line) with
  | Ok g => Ok (gs ++ [g])
  | Raise e => Raise e
  end.
Proof.
  unfold stats_line, Parser.stats_row. intros H.
  apply andb_true_iff in H as [H1 H2]. rewrite H1, H2. reflexivity.
Qed.

Lemma to_float_ok (s : string) :
  is_Some (py_float s) -> exists f, to_float py_float s = Ok f.
Proof. intros [f Hf]. exists f. unfold to_float. rewrite Hf. reflexivity. Qed.

(** Eleven convertible fields give a record. *)
Lemma make_gpu_ok m ps :
  stats_fields_ok ps = true -> exists g, make_gpu m ps = Ok g.
Proof.
  unfold Parser.stats_fields_ok, Parser.make_gpu.
  do 11 (destruct ps as [|? ps]; try discriminate).
  destruct ps; [|discriminate].
  intros H. repeat (apply andb_true_iff in H as [H ?]).
  repeat match goal with
         | Hb : bool_decide _ = true |- _ => apply bool_decide_eq_true in Hb
         end.
  simpl in *.
  repeat match goal with
         | Hb : _ && _ = true |- _ => apply andb_true_iff in Hb as [? ?]
         | Hb : bool_decide _ = true |- _ => apply bool_decide_eq_true in Hb
         end.
  unfold to_int.
  match goal with Hi : is_Some (py_int _) |- _ => destruct Hi as [i ->] end.
  simpl.
  repeat match goal with
         | Hf : is_Some (py_float ?x) |- context [to_float py_float ?x] =>
             destruct (to_float_ok x Hf) as [? ->]; simpl
         end.
  match goal with
  | Hfan : negb (truthy ?fan) || _ = true |- _ =>
      destruct (truthy fan) eqn:Ht; simpl in Hfan
  end.
  - match goal with
    | Hb : bool_decide _ = true |- _ => apply bool_decide_eq_true in Hb;
        destruct (to_float_ok _ Hb) as [? ->]
    end.
    simpl. eexists. reflexivity.
  - simpl. eexists. reflexivity.
Qed.

(** What a record built from a row holds. *)
Lemma make_gpu_inv m ps g :
  make_gpu m ps = Ok g ->
  length ps = 11%nat
  /\ py_int (hd EmptyString ps) = Some (index g)
  /\ name g = nth 1 ps EmptyString
  /\ uuid g = default "unknown"%string (m !! hd EmptyString ps)
  /\ processes g = [].
Proof.
  unfold Parser.make_gpu.
  do 11 (destruct ps as [|? ps]; try discriminate).
  destruct ps; [|discriminate].
  unfold to_int, to_float. simpl.
  repeat match goal with
         | |- context [py_int ?x] => destruct (py_int x); simpl; try discriminate
         | |- context [py_float ?x] =>
             destruct (py_float x); simpl; try discriminate
         | |- context [truthy ?x] => destruct (truthy x); simpl
         end;
    intros H; inversion H; subst; simpl; auto.
Qed.

Local Abbreviation long_enough n :=
  (fun line : string => (n <=? length (parts line))%nat).

Lemma filter_ext_bool {A : Type} (f g : A -> bool) (xs : list A) :
  (forall x, f x = g x) -> List.filter f xs = List.filter g xs.
Proof.
  intros H. induction xs as [|x xs IH]; simpl; [reflexivity|].
  rewrite H, IH. reflexivity.
Qed.

(** The loop over the stats table, from any list built so far. *)
Lemma stats_loop_ok m (ls : list string) (acc : list (GPU F)) :
  (forall line, In line ls -> stats_line line = true ->
                stats_fields_ok (parts line) = true) ->
  exists gs,
    for_each (stats_row m) ls acc = Ok (acc ++ gs)
    /\ Forall2 (fun line g => make_gpu m (parts line) = Ok g)
               (List.filter stats_line ls) gs.
Proof.
  revert acc. induction ls as [|line ls IH]; intros acc Hok.
  - exists []. simpl. rewrite app_nil_r. split; [reflexivity|constructor].
  - simpl. destruct (stats_line line) eqn:Hl.
    + rewrite (stats_row_keep m acc line Hl).
      destruct (make_gpu_ok m (parts line) (Hok line (or_introl eq_refl) Hl))
        as [g Hg].
      rewrite Hg.
      destruct (IH (acc ++ [g]) (fun l Hin => Hok l (or_intror Hin)))
        as (gs & Hloop & Hall).
      exists (g :: gs). rewrite Hloop, <- app_assoc. split; [reflexivity|].
      constructor; assumption.
    + rewrite (stats_row_skip m acc line Hl).
      apply IH. intros l Hin. apply Hok. right. exact Hin.
Qed.

Lemma stats_loop_inv m (ls : list string) (acc out : list (GPU F)) :
  for_each (stats_row m) ls acc = Ok out ->
  exists gs,
    out = acc ++ gs
    /\ Forall2 (fun line g => make_gpu m (parts line) = Ok g)
               (List.filter stats_line ls) gs.
Proof.
  revert acc. induction ls as [|line ls IH]; intros acc Hrun.
  - simpl in Hrun. inversion Hrun; subst. exists [].
    rewrite app_nil_r. split; [reflexivity|constructor].
  - simpl in *. destruct (stats_line line) eqn:Hl.
    + rewrite (stats_row_keep m acc line Hl) in Hrun.
      destruct (make_gpu m (parts line)) as [g|e] eqn:Hg; [|discriminate].
      destruct (IH _ Hrun) as (gs & -> & Hall).
      exists (g :: gs). rewrite <- app_assoc. split; [reflexivity|].
      constructor; assumption.
    + rewrite (stats_row_skip m acc line Hl) in Hrun. apply IH. exact Hrun.
Qed.

(** C5 (amended). Take a stats blob in which every line with at least
    11 comma-separated fields has exactly 11, with numeric fields that
    convert.  Then the parser returns, the lines with fewer than 11
    fields are skipped, and the lines with 11 fields become one
    GPURecord each, in their order, whatever the skipped lines hold; the
    uuid of a record is the entry of the index-to-uuid mapping for the
    row's index field, and the string "unknown" when there is none. *)
Theorem stats_rows_become_records (m : gmap string string) (blob : string) :
  (forall line, In line (lines blob) ->
                (11 <= length (parts line))%nat ->
                stats_fields_ok (parts line) = true) ->
  exists gs,
    parse_stats m blob = Ok gs
    /\ Forall2 (fun line g =>
                  make_gpu m (parts line) = Ok g
                  /\ uuid g = default "unknown"%string
                                      (m !! hd EmptyString (parts line)))
               (List.filter (long_enough 11%nat) (lines blob)) gs.
Proof.
  intros Hok.
  destruct (stats_loop_ok m (lines blob) []) as (gs & Hloop & Hall).
  { intros line Hin Hl. apply Hok; [exact Hin|].
    rewrite stats_line_fields in Hl. apply Nat.leb_le. exact Hl. }
  exists gs. split; [exact Hloop|].
  rewrite <- (filter_ext_bool stats_line _ _ stats_line_fields).
  eapply Forall2_impl; [exact Hall|].
  intros line g Hg. simpl in Hg. split; [exact Hg|].
  apply (make_gpu_inv m (parts line) g Hg).
Qed.

(** *** Attaching processes *)

Lemma attach_unmatched (p : Process F) (u : string) (l : list (GPU F)) :
  (forall g, In g l -> uuid g <> u) -> attach p u l = l.
Proof.
  induction l as [|g l IH]; intros Hno; [reflexivity|].
  simpl. destruct (String.eqb (uuid g) u) eqn:Heq.
  - apply String.eqb_eq in Heq. exfalso. exact (Hno g (or_introl eq_refl) Heq).
  - rewrite IH; [reflexivity|]. intros g' Hin. apply Hno. right. exact Hin.
Qed.

Lemma attach_first (p : Process F) (u : string) (pre : list (GPU F)) g post :
  (forall g', In g' pre -> uuid g' <> u) ->
  uuid g = u ->
  attach p u (pre ++ g :: post) = pre ++ append_process g p :: post.
Proof.
  induction pre as [|g' pre IH]; intros Hno Hu; simpl.
  - apply String.eqb_eq in Hu. rewrite Hu. reflexivity.
  - destruct (String.eqb (uuid g') u) eqn:Heq.
    + apply String.eqb_eq in Heq. exfalso.
      exact (Hno g' (or_introl eq_refl) Heq).
    + rewrite IH; [reflexivity| |exact Hu].
      intros g'' Hin. apply Hno. right. exact Hin.
Qed.

Lemma attach_without_processes (p : Process F) (u : string) (l : list (GPU F)) :
  map without_processes (attach p u l) = map without_processes l.
Proof.
  induction l as [|g l IH]; [reflexivity|].
  simpl. destruct (String.eqb (uuid g) u); simpl; [reflexivity|].
  rewrite IH. reflexivity.
Qed.

Lemma attach_all_without_processes rows (l : list (GPU F)) :
  map without_processes (attach_all rows l) = map without_processes l.
Proof.
  revert l. induction rows as [|[p u] rows IH]; intros l; [reflexivity|].
  unfold attach_all in *. simpl. rewrite IH. apply attach_without_processes.
Qed.

Lemma process_row_skip (gs : list (GPU F)) line :
  process_line line = false -> process_row gs line = Ok gs.
Proof.
  unfold process_line, Parser.process_row. intros H.
  destruct (truthy (strip line)); [|reflexivity].
  rewrite andb_true_l in H. rewrite H. reflexivity.
Qed.

Lemma process_row_keep (gs : list (GPU F)) line :
  process_line line = true ->
  process_row gs line =
  match process_of (parts line) with
  | Some (p, u) => Ok (attach p u gs)
  | None => Raise ValueError
  end.
Proof.
  unfold process_line, Parser.process_row, Parser.process_of. intros H.
  apply andb_true_iff in H as [H1 H2]. rewrite H1, H2.
  destruct (parts line) as [|a [|b [|c [|d [|x l]]]]]; try reflexivity.
  unfold to_int, to_float.
  destruct (py_int a); simpl; [|reflexivity].
  destruct (py_float d); reflexivity.
Qed.

Lemma process_loop_ok (ls : list string) (gs : list (GPU F)) :
  (forall line, In line ls -> process_line line = true ->
                is_Some (process_of (parts line))) ->
  for_each process_row ls gs =
  Ok (attach_all (omap (fun line => process_of (parts line))
                       (List.filter process_line ls)) gs).
Proof.
  revert gs. induction ls as [|line ls IH]; intros gs Hok; [reflexivity|].
  simpl. destruct (process_line line) eqn:Hl.
  - rewrite (process_row_keep gs line Hl).
    destruct (Hok line (or_introl eq_refl) Hl) as [[p u] Hp].
    simpl. rewrite Hp. simpl. apply IH.
    intros l Hin. apply Hok. right. exact Hin.
  - rewrite (process_row_skip gs line Hl). apply IH.
    intros l Hin. apply Hok. right. exact Hin.
Qed.

(** Records that differ from the parsed ones by their processes only
    still answer to the same rows. *)
Lemma records_keep_their_rows m (ls : list string) (gs gs' : list (GPU F)) :
  Forall2 (fun line g => make_gpu m (parts line) = Ok g) ls gs ->
  map without_processes gs' = map without_processes gs ->
  Forall2 (fun line g => make_gpu m (parts line) = Ok (without_processes g))
          ls gs'.
Proof.
  intros Hall. revert gs'.
  induction Hall as [|line g ls gs0 Hg Hall IH]; intros gs' Hsame.
  - destruct gs'; [constructor|discriminate].
  - destruct gs' as [|g' gs']; [discriminate|].
    simpl in Hsame.
    assert (Hhead : without_processes g' = without_processes g)
      by exact (f_equal (fun l => hd g l) Hsame).
    assert (Htail : map without_processes gs' = map without_processes gs0)
      by exact (f_equal (@tl _) Hsame).
    constructor; [|apply IH; exact Htail].
    rewrite Hhead.
    destruct (make_gpu_inv m (parts line) g Hg) as (_ & _ & _ & _ & Hp).
    rewrite Hg. f_equal. destruct g; simpl in *. subst. reflexivity.
Qed.

(** The loop over the UUID table returns when no row has a third field. *)
Lemma uuid_loop_ok (ls : list string) (acc : gmap string string) :
  (forall line, In line ls -> (2 <= length (parts line))%nat ->
                length (parts line) = 2%nat) ->
  exists m, for_each uuid_row ls acc = Ok m.
Proof.
  revert acc. induction ls as [|line ls IH]; intros acc Hok.
  - exists acc. reflexivity.
  - simpl. assert (Hrow : exists m', uuid_row acc line = Ok m').
    { unfold uuid_row. destruct (truthy (strip line)); [|eauto].
      destruct (2 <=? length (parts line))%nat eqn:Hlen; [|eauto].
      apply Nat.leb_le in Hlen.
      pose proof (Hok line (or_introl eq_refl) Hlen) as H2.
      destruct (parts line) as [|a [|b [|c l]]]; try discriminate. eauto. }
    destruct Hrow as [m' ->]. apply IH.
    intros l Hin. apply Hok. right. exact Hin.
Qed.

(** *** Where the processes end up *)

Lemma has_uuid_cons (g : GPU F) (l : list (GPU F)) (u : string) :
  has_uuid (g :: l) u = String.eqb (uuid g) u || has_uuid l u.
Proof. reflexivity. Qed.

Lemma attach_keeps_uuids (p : Process F) (u : string) (l : list (GPU F)) :
  map uuid (attach p u l) = map uuid l.
Proof.
  induction l as [|g l IH]; [reflexivity|].
  simpl. destruct (String.eqb (uuid g) u); simpl; [reflexivity|].
  rewrite IH. reflexivity.
Qed.

Lemma attach_all_keeps_uuids rows (l : list (GPU F)) :
  map uuid (attach_all rows l) = map uuid l.
Proof.
  revert l. induction rows as [|[p u] rows IH]; intros l; [reflexivity|].
  unfold attach_all in *. simpl. rewrite IH. apply attach_keeps_uuids.
Qed.

Lemma has_uuid_take (l l' : list (GPU F)) (i : nat) (u : string) :
  map uuid l = map uuid l' -> has_uuid (take i l) u = has_uuid (take i l') u.
Proof.
  revert l l'. induction i as [|i IH]; intros [|g l] [|g' l'] H;
    try discriminate; try reflexivity.
  simpl in H. inversion H as [[H1 H2]].
  cbn [take]. rewrite !has_uuid_cons, H1, (IH l l' H2). reflexivity.
Qed.

(** The processes of a record before and after one process row. *)
Lemma attach_lookup (p : Process F) (u : string) (l : list (GPU F))
      (i : nat) (g' : GPU F) :
  attach p u l !! i = Some g' ->
  exists g,
    l !! i = Some g
    /\ uuid g' = uuid g
    /\ processes g'
       = processes g
         ++ (if String.eqb (uuid g) u && negb (has_uuid (take i l) u)
             then [p] else []).
Proof.
  revert i. induction l as [|g0 l IH]; intros i; [destruct i; discriminate|].
  simpl. destruct (String.eqb (uuid g0) u) eqn:Hu.
  - destruct i as [|i]; simpl.
    + intros H. inversion H; subst. exists g0. rewrite Hu. simpl. auto.
    + intros H. exists g'. rewrite Hu. simpl.
      rewrite andb_false_r, app_nil_r. auto.
  - destruct i as [|i]; simpl.
    + intros H. inversion H; subst. exists g'. rewrite Hu. simpl.
      rewrite app_nil_r. auto.
    + intros H. destruct (IH i H) as (g & Hg & Hsame & Hp).
      exists g. rewrite Hu. simpl. auto.
Qed.

(** The processes of a record after all the process rows: those of the
    rows that name its uuid, in order, when no earlier record has that
    uuid. *)
Lemma attach_all_lookup rows (l : list (GPU F)) (i : nat) (g' : GPU F) :
  attach_all rows l !! i = Some g' ->
  exists g,
    l !! i = Some g
    /\ uuid g' = uuid g
    /\ processes g'
       = processes g
         ++ map fst (List.filter
                       (fun row => String.eqb (uuid g) (snd row)
                                   && negb (has_uuid (take i l) (snd row)))
                       rows).
Proof.
  revert l. induction rows as [|[p u] rows IH]; intros l.
  - intros H. exists g'. simpl. rewrite app_nil_r. auto.
  - unfold attach_all in *. simpl. intros H.
    destruct (IH _ H) as (g1 & Hg1 & Hsame1 & Hp1).
    destruct (attach_lookup p u l i g1 Hg1) as (g & Hg & Hsame & Hp).
    exists g. split; [exact Hg|]. split; [congruence|].
    rewrite Hp1, Hp, <- app_assoc. f_equal.
    rewrite (filter_ext_bool
               (fun row => String.eqb (uuid g1) (snd row)
                           && negb (has_uuid (take i (attach p u l)) (snd row)))
               (fun row => String.eqb (uuid g) (snd row)
                           && negb (has_uuid (take i l) (snd row))))
      by (intros row; rewrite Hsame,
            (has_uuid_take _ l i (snd row) (attach_keeps_uuids p u l));
          reflexivity).
    destruct (String.eqb (uuid g) u && negb (has_uuid (take i l) u));
      reflexivity.
Qed.

(** *** A process row that does not convert *)

Lemma process_row_value_error (gs : list (GPU F)) line e :
  process_row gs line = Raise e -> e = ValueError.
Proof.
  destruct (process_line line) eqn:Hl.
  - rewrite (process_row_keep gs line Hl).
    destruct (process_of (parts line)) as [[p u]|]; [discriminate|].
    intros H. inversion H. reflexivity.
  - rewrite (process_row_skip gs line Hl). discriminate.
Qed.

Lemma process_loop_raises (ls : list string) (gs : list (GPU F)) line :
  In line ls ->
  process_line line = true ->
  process_of (parts line) = None ->
  for_each process_row ls gs = Raise ValueError.
Proof.
  intros Hin Hl Hnone. revert gs.
  induction ls as [|l ls IH]; intros gs; [destruct Hin|].
  simpl. destruct (process_row gs l) as [gs'|e] eqn:Hrow.
  - destruct Hin as [->|Hin]; [|exact (IH Hin gs')].
    rewrite (process_row_keep gs line Hl), Hnone in Hrow. discriminate.
  - rewrite (process_row_value_error gs l e Hrow). reflexivity.
Qed.

(** C4 (amended). Take three blobs in which no uuid row has more than 2
    fields, and no stats row more than 11 fields or a numeric field that
    does not convert.

    When, also, no process row has more than 4 fields and the pid and
    the memory use of the process rows convert, the parser returns a
    snapshot whose GPURecords are, in order, those of the stats lines
    with 11 fields, which come without processes; the process rows with
    4 fields are attached first to last, each to the first GPURecord
    whose uuid equals the row's gpu_uuid (the process goes to the end of
    its list, nothing else in the record changes) and to no GPURecord
    when none has that uuid.  So the processes of a GPURecord are, in the
    order of the rows, the processes of the rows that name its uuid when
    no earlier GPURecord has that uuid, and none otherwise; and an empty
    process blob leaves every GPURecord without processes.

    When a process row with 4 fields has a pid or a memory use that does
    not convert, the parser raises [ValueError]. *)
Theorem processes_attach_to_first_match
        (now server_name server_host a b c : string) :
  (forall line, In line (lines b) -> (2 <= length (parts line))%nat ->
                length (parts line) = 2%nat) ->
  (forall line, In line (lines a) -> (11 <= length (parts line))%nat ->
                stats_fields_ok (parts line) = true) ->
  ((forall line, In line (lines c) -> (4 <= length (parts line))%nat ->
                 is_Some (process_of (parts line))) ->
   let rows := omap (fun line => process_of (parts line))
                    (List.filter (long_enough 4%nat) (lines c)) in
   exists m gs,
     parse_uuid_map b = Ok m
     /\ parse_stats m a = Ok gs
     /\ parse py_int py_float now server_name server_host a b c
        = Ok (mkSnapshot now (Some server_name) server_host (attach_all rows gs))
     /\ Forall2 (fun line g => make_gpu m (parts line) = Ok (without_processes g))
                (List.filter (long_enough 11%nat) (lines a)) (attach_all rows gs)
     /\ (forall (p : Process F) u l,
            (forall g, In g l -> uuid g <> u) -> attach p u l = l)
     /\ (forall (p : Process F) u pre g post,
            (forall g', In g' pre -> uuid g' <> u) -> uuid g = u ->
            attach p u (pre ++ g :: post) = pre ++ append_process g p :: post)
     /\ (strip c = EmptyString -> attach_all rows gs = gs)
     /\ (forall (g : GPU F) p,
            processes (append_process g p) = processes g ++ [p]
            /\ without_processes (append_process g p) = without_processes g)
     /\ Forall (fun g => processes g = []) gs
     /\ (forall i g,
            attach_all rows gs !! i = Some g ->
            processes g
            = map fst
                  (List.filter
                     (fun row =>
                        String.eqb (uuid g) (snd row)
                        && negb (has_uuid (take i (attach_all rows gs))
                                          (snd row)))
                     rows))
     /\ (strip c = EmptyString ->
         Forall (fun g => processes g = []) (attach_all rows gs)))
  /\ ((exists line, In line (lines c)
                    /\ length (parts line) = 4%nat
                    /\ process_of (parts line) = None) ->
      parse py_int py_float now server_name server_host a b c
      = Raise ValueError).
Proof.
  intros Hb Ha.
  destruct (uuid_loop_ok (lines b) ∅ Hb) as [m Hm].
  destruct (stats_loop_ok m (lines a) []) as (gs & Hgs & Hall).
  { intros line Hin Hl. apply Ha; [exact Hin|].
    rewrite stats_line_fields in Hl. apply Nat.leb_le. exact Hl. }
  assert (Hm' : parse_uuid_map b = Ok m) by exact Hm.
  assert (Hgs' : parse_stats m a = Ok gs) by exact Hgs.
  assert (Hbare : Forall (fun g => processes g = []) gs).
  { clear -Hall. induction Hall as [|line g ls gs0 Hg Hall IH]; constructor;
      [|exact IH].
    destruct (make_gpu_inv m (parts line) g Hg) as (_ & _ & _ & _ & Hp).
    exact Hp. }
  split.
  - intros Hc rows.
    assert (Hrows : parse_processes gs c = Ok (attach_all rows gs)).
    { unfold Parser.parse_processes. rewrite process_loop_ok.
      - subst rows.
        rewrite (filter_ext_bool process_line _ _ process_line_fields).
        reflexivity.
      - intros line Hin Hl. apply Hc; [exact Hin|].
        rewrite process_line_fields in Hl. apply Nat.leb_le. exact Hl. }
    exists m, gs. split; [exact Hm'|]. split; [exact Hgs'|].
    split.
    { unfold parse. rewrite Hm'. simpl. rewrite Hgs'. simpl.
      rewrite Hrows. reflexivity. }
    split.
    { rewrite <- (filter_ext_bool stats_line _ _ stats_line_fields).
      apply (records_keep_their_rows m _ gs); [exact Hall|].
      apply attach_all_without_processes. }
    split; [apply attach_unmatched|]. split; [apply attach_first|].
    split.
    { intros Hempty. subst rows. unfold lines. rewrite Hempty. reflexivity. }
    split; [intros g p; split; reflexivity|].
    split; [exact Hbare|].
    split.
    { intros i g Hi.
      destruct (attach_all_lookup rows gs i g Hi) as (g0 & Hg0 & Hsame & Hp).
      rewrite Forall_forall in Hbare.
      rewrite Hp, (Hbare g0) by (apply list_elem_of_lookup; exists i; exact Hg0).
      simpl. f_equal. apply filter_ext_bool. intros row.
      rewrite Hsame,
        (has_uuid_take _ gs i (snd row) (attach_all_keeps_uuids rows gs)).
      reflexivity. }
    intros Hempty.
    assert (Hnone : attach_all rows gs = gs)
      by (subst rows; unfold lines; rewrite Hempty; reflexivity).
    rewrite Hnone. exact Hbare.
  - intros (line & Hin & Hlen & Hnone).
    unfold parse. rewrite Hm'. simpl. rewrite Hgs'. simpl.
    unfold Parser.parse_processes.
    rewrite (process_loop_raises (lines c) gs line Hin); [reflexivity| |exact Hnone].
    rewrite process_line_fields, Hlen. reflexivity.
Qed.

End Parse.

(** *** The parser on concrete blobs *)

Lemma stats_rows_become_records_witness :
  exists gs,
    parse_stats int_decimal float_decimal one_uuid three_rows = Ok gs
    /\ Forall2 (fun line g =>
                  make_gpu int_decimal float_decimal one_uuid (parts line) = Ok g
                  /\ uuid g = default "unknown"%string
                                      (one_uuid !! hd EmptyString (parts line)))
               [test_gpu_row; fanless_row] gs.
Proof.
  refine (stats_rows_become_records int_decimal float_decimal one_uuid
                                    three_rows _).
  intros line Hin Hlen. cbv in Hin.
  repeat (destruct Hin as [<-|Hin]; [try (vm_compute; reflexivity)|]).
  - exfalso. vm_compute in Hlen. lia.
  - destruct Hin.
Defined.

(** The records of [three_rows]: the short row is gone, the fanless GPU
    has the uuid "unknown" and the fan speed [0]. *)
Example three_rows_records :
  (fun gs => map (fun g => (index g, uuid g, fan_speed g)) gs)
    <$> (match parse_stats int_decimal float_decimal one_uuid three_rows with
         | Ok gs => Some gs
         | Raise _ => None
         end)
  = Some [(0, "GPU-abc"%string, NFloat (Finite false 30));
          (2, "unknown"%string, NInt 0)].
Proof. vm_compute. reflexivity. Qed.

(** C5, as stated, fails: a stats line with 11 fields whose power draw is
    reported as [[N/A]] does not become a GPURecord; the parse raises
    [ValueError]. *)
Lemma unconvertible_stats_row_raises :
  lines no_power_row = [no_power_row]
  /\ length (parts no_power_row) = 11%nat
  /\ parse_stats int_decimal float_decimal one_uuid no_power_row = Raise ValueError.
Proof. vm_compute. auto. Qed.

(** A stats line with a twelfth field passes the guard of line 103 and
    fails the unpacking of line 104. *)
Example overlong_stats_row_raises :
  length (parts overlong_row) = 12%nat
  /\ parse_stats int_decimal float_decimal one_uuid overlong_row = Raise ValueError.
Proof. vm_compute. auto. Qed.

Lemma processes_attach_to_first_match_witness :
  exists snapshot,
    parse int_decimal float_decimal "t" "gpu-box" "10.0.0.1"
          two_gpus uuid_table process_table = Ok snapshot
    /\ map (fun g => (index g, map pid (processes g))) (gpus snapshot)
       = [(0, [124]); (1, [123; 127])].
Proof.
  destruct (processes_attach_to_first_match
              int_decimal float_decimal "t" "gpu-box" "10.0.0.1"
              two_gpus uuid_table process_table)
    as [Hgood _].
  - intros line Hin Hlen. cbv in Hin.
    repeat (destruct Hin as [<-|Hin]; [try (vm_compute; reflexivity)|]).
    destruct Hin.
  - intros line Hin Hlen. cbv in Hin.
    repeat (destruct Hin as [<-|Hin]; [try (vm_compute; reflexivity)|]).
    destruct Hin.
  - destruct Hgood as (m & gs & Hm & Hgs & Hparse & _);
      [|eexists; split; [exact Hparse|];
        vm_compute in Hm; injection Hm as <-;
        vm_compute in Hgs; injection Hgs as <-;
        vm_compute; reflexivity].
    intros line Hin Hlen. cbv in Hin.
    repeat (destruct Hin as [<-|Hin];
            [try (vm_compute; eexists; reflexivity)|]).
    + exfalso. vm_compute in Hlen. lia.
    + destruct Hin.
Defined.

(** An empty process blob: the records come back without processes. *)
Example empty_process_blob :
  (fun s => map (fun g => processes g) (gpus s))
    <$> (match parse int_decimal float_decimal "t" "gpu-box" "10.0.0.1"
                     two_gpus uuid_table "" with
         | Ok s => Some s
         | Raise _ => None
         end)
  = Some [[]; []].
Proof. vm_compute. reflexivity. Qed.

(** C4, as stated, fails: a process row with 4 fields and the uuid of a
    parsed GPU, whose memory use is reported as [[N/A]], is attached to no
    GPURecord; the parse raises [ValueError]. *)
Lemma unconvertible_process_row_raises :
  length (parts no_memory_process) = 4%nat
  /\ nth 2 (parts no_memory_process) EmptyString = "GPU-abc"%string
  /\ parse int_decimal float_decimal "t" "gpu-box" "10.0.0.1"
           test_gpu_row "0, GPU-abc" no_memory_process = Raise ValueError.
Proof. vm_compute. auto. Qed.

(** A process row with a fifth field passes the guard of line 139 and
    fails the unpacking of line 140. *)
Example overlong_process_row_raises :
  parse int_decimal float_decimal "t" "gpu-box" "10.0.0.1"
        test_gpu_row "0, GPU-abc" "123, python, train.py, GPU-abc, 512"
  = Raise ValueError.
Proof. vm_compute. reflexivity. Qed.

End ParserProps.

(** ** The store *)
Module StoreProps.
Import PyStr Store Examples.

(** *** Paths *)

Lemma length_app_string (a b : string) :
  String.length (a ++ b)%string = (String.length a + String.length b)%nat.
Proof. induction a as [|c a IH]; simpl; [reflexivity|rewrite IH; reflexivity]. Qed.

Lemma app_string_inj (a b c : string) : (a ++ b = a ++ c)%string -> b = c.
Proof. induction a as [|x a IH]; simpl; [auto|]. intros H. inversion H. auto. Qed.

(** Joining a relative name to a directory appends to the directory. *)
Lemma path_join_relative (a b : string) :
  starts_with_slash b = false ->
  exists sep, path_join a b = (a ++ sep ++ b)%string.
Proof.
  intros Hb. unfold path_join. rewrite Hb.
  destruct (negb (truthy a) || ends_with_slash a).
  - exists EmptyString. reflexivity.
  - exists "/"%string. reflexivity.
Qed.

Lemma path_join_sep_same (a b c : string) :
  starts_with_slash b = false -> starts_with_slash c = false ->
  exists sep, path_join a b = (a ++ sep ++ b)%string
              /\ path_join a c = (a ++ sep ++ c)%string.
Proof.
  intros Hb Hc. unfold path_join. rewrite Hb, Hc.
  destruct (negb (truthy a) || ends_with_slash a).
  - exists EmptyString. auto.
  - exists "/"%string. auto.
Qed.

(** The name of a stats file is never the name of a process file: after
    "gpu_" the one goes on with "s", the other with a digit or a sign. *)
Lemma stats_name_not_process_name (day day' : string) (idx : Z) :
  stats_name day <> process_name idx day'.
Proof.
  unfold stats_name, process_name, str_int. simpl.
  destruct (Z.to_int idx) as [u|u]; simpl; [|discriminate].
  destruct u; simpl; discriminate.
Qed.

Lemma stats_path_not_process_path (dir day day' : string) (idx : Z) :
  path_join dir (stats_name day) <> path_join dir (process_name idx day').
Proof.
  destruct (path_join_sep_same dir (stats_name day) (process_name idx day'))
    as (sep & -> & ->); [reflexivity|reflexivity|].
  intros H. apply app_string_inj, app_string_inj in H.
  exact (stats_name_not_process_name day day' idx H).
Qed.

Lemma stats_path_not_dir (dir day : string) :
  path_join dir (stats_name day) <> dir.
Proof.
  destruct (path_join_relative dir (stats_name day)) as [sep ->]; [reflexivity|].
  intros H. apply (f_equal String.length) in H.
  rewrite !length_app_string in H. simpl in H. lia.
Qed.

(** *** The directories that [os.makedirs] makes *)

Lemma cut_at_last_slash_length (p : string) :
  (String.length (fst (cut_at_last_slash p))
   + String.length (snd (cut_at_last_slash p)))%nat = String.length p.
Proof.
  induction p as [|c p IH]; [reflexivity|].
  simpl. destruct (cut_at_last_slash p) as [head tail]. simpl in IH.
  destruct head as [|h head]; simpl in *.
  - destruct (Ascii.eqb c "/"); simpl; lia.
  - lia.
Qed.

Lemma rstrip_slashes_length (s : string) :
  (String.length (rstrip_slashes s) <= String.length s)%nat.
Proof.
  induction s as [|c s IH]; [reflexivity|].
  simpl. destruct (rstrip_slashes s) as [|r rs]; simpl in *.
  - destruct (Ascii.eqb c "/"); simpl; lia.
  - lia.
Qed.

Lemma path_split_length (p : string) :
  (String.length (fst (path_split p)) + String.length (snd (path_split p))
   <= String.length p)%nat.
Proof.
  unfold path_split. pose proof (cut_at_last_slash_length p) as H.
  destruct (cut_at_last_slash p) as [head tail]. simpl in *.
  pose proof (rstrip_slashes_length head).
  destruct (truthy (rstrip_slashes head)); lia.
Qed.

Lemma truthy_length (s : string) :
  truthy s = true -> (0 < String.length s)%nat.
Proof. destruct s; simpl; [discriminate|lia]. Qed.

(** The head that [os.makedirs] recurses on is shorter than the name. *)
Lemma head_tail_shorter (name : string) :
  truthy (snd (head_tail name)) = true ->
  (String.length (fst (head_tail name)) < String.length name)%nat.
Proof.
  unfold head_tail. pose proof (path_split_length name) as H1.
  destruct (path_split name) as [head tail]. simpl in H1.
  destruct (truthy tail) eqn:Ht; simpl.
  - intros _. apply truthy_length in Ht. lia.
  - intros Ht2. pose proof (path_split_length head) as H2.
    apply truthy_length in Ht2. lia.
Qed.

Lemma head_tail_length (name : string) :
  (String.length (fst (head_tail name)) <= String.length name)%nat.
Proof.
  unfold head_tail. pose proof (path_split_length name) as H1.
  destruct (path_split name) as [head tail]. simpl in H1.
  destruct (truthy tail); simpl; [lia|].
  pose proof (path_split_length head). lia.
Qed.

(** A fuel of the length of the name is enough: more fuel changes
    nothing. *)
Lemma mkdir_calls_fuel (n m : nat) (present : string -> bool) (name : string) :
  (String.length name <= n)%nat -> (String.length name <= m)%nat ->
  mkdir_calls n present name = mkdir_calls m present name.
Proof.
  revert m name. induction n as [|n IH]; intros m name Hn Hm.
  - destruct name; [|simpl in Hn; lia].
    destruct m; reflexivity.
  - destruct m as [|m].
    + destruct name; [reflexivity|simpl in Hm; lia].
    + simpl. pose proof (head_tail_shorter name) as Hs.
      destruct (head_tail name) as [head tail]. simpl in Hs.
      destruct (truthy head && truthy tail && negb (present head)) eqn:Hc;
        [|reflexivity].
      apply andb_true_iff in Hc as [Hc _]. apply andb_true_iff in Hc as [_ Ht].
      specialize (Hs Ht). rewrite (IH m head) by lia. reflexivity.
Qed.

Lemma lineage_length (fuel : nat) (name x : string) :
  In x (lineage fuel name) -> (String.length x <= String.length name)%nat.
Proof.
  revert name. induction fuel as [|fuel IH]; intros name; simpl;
    pose proof (head_tail_length name) as Hl;
    destruct (head_tail name) as [head tail]; simpl in Hl;
    destruct (truthy head && truthy tail); simpl; intros Hin.
  - destruct Hin as [<-|[]]. lia.
  - destruct Hin as [<-|[]]. lia.
  - apply in_app_or in Hin as [Hin|[<-|[]]]; [|lia].
    apply IH in Hin. lia.
  - destruct Hin as [<-|[]]. lia.
Qed.

(** Every [mkdir] is on the name or on a directory above it. *)
Lemma mkdir_calls_lineage (fuel : nat) (present : string -> bool)
      (name x : string) :
  In x (mkdir_calls fuel present name) -> In x (lineage fuel name).
Proof.
  revert name. induction fuel as [|fuel IH]; intros name; simpl;
    destruct (head_tail name) as [head tail];
    destruct (truthy head && truthy tail) eqn:Hc; simpl.
  - destruct (negb (present head)); intros [<-|[]]; left; reflexivity.
  - intros [<-|[]]. left. reflexivity.
  - destruct (negb (present head)).
    + destruct (String.eqb tail "."); intros Hin.
      * apply in_or_app. left. apply IH. exact Hin.
      * apply in_app_or in Hin as [Hin|Hin]; apply in_or_app;
          [left; apply IH; exact Hin|right; exact Hin].
    + intros [<-|[]]. apply in_or_app. right. left. reflexivity.
  - intros [<-|[]]. left. reflexivity.
Qed.

Lemma mkdir_calls_length (fuel : nat) (present : string -> bool)
      (name x : string) :
  In x (mkdir_calls fuel present name) ->
  (String.length x <= String.length name)%nat.
Proof. intros H. exact (lineage_length _ _ _ (mkdir_calls_lineage _ _ _ _ H)). Qed.

Lemma removelast_incl {A : Type} (l : list A) (x : A) :
  In x (removelast l) -> In x l.
Proof.
  induction l as [|a l IH]; [intros []|].
  simpl. destruct l as [|b l]; [intros []|].
  intros [<-|H]; [left; reflexivity|right; exact (IH H)].
Qed.

Lemma take_incl {A : Type} (n : nat) (l : list A) (x : A) :
  In x (take n l) -> In x l.
Proof.
  revert l. induction n as [|n IH]; intros [|a l]; simpl; try tauto.
  intros [<-|H]; [left; reflexivity|right; exact (IH l H)].
Qed.

(** Every [mkdir] but the last is on a directory strictly above the
    name. *)
Lemma mkdir_calls_above (fuel : nat) (present : string -> bool)
      (name x : string) :
  In x (removelast (mkdir_calls fuel present name)) ->
  (String.length x < String.length name)%nat.
Proof.
  destruct fuel as [|fuel]; simpl;
    pose proof (head_tail_shorter name) as Hs;
    destruct (head_tail name) as [head tail]; simpl in Hs;
    destruct (truthy head && truthy tail && negb (present head)) eqn:Hc;
    try (intros []).
  apply andb_true_iff in Hc as [Hc _]. apply andb_true_iff in Hc as [_ Ht].
  specialize (Hs Ht).
  destruct (String.eqb tail ".").
  - intros Hin. apply removelast_incl, mkdir_calls_length in Hin. lia.
  - rewrite removelast_last. intros Hin. apply mkdir_calls_length in Hin. lia.
Qed.

(** A file under a directory is not the directory or one above it. *)
Lemma under_not_ancestor (dir name : string) :
  starts_with_slash name = false -> name <> EmptyString ->
  ~ In (path_join dir name) (ancestors dir).
Proof.
  intros Hrel Hne Hin. apply lineage_length in Hin.
  destruct (path_join_relative dir name Hrel) as [sep Hj].
  rewrite Hj, !length_app_string in Hin.
  destruct name; [congruence|]. simpl in Hin. lia.
Qed.

Section Store.
Context {F : Type}.
Variable env : Env.
Variable base_dir : string.

Local Abbreviation World := (World F).
Local Abbreviation M := (@M F).
Local Abbreviation io := (@io F env).
Local Abbreviation made_dirs := (@made_dirs F).
Local Abbreviation add_dirs := (@add_dirs F).
Local Abbreviation store_gpus := (@store_gpus F env base_dir).
Local Abbreviation store_processes := (@store_processes F env base_dir).
Local Abbreviation write_processes := (@write_processes F env).
Local Abbreviation store_data_body := (@store_data_body F env base_dir).
Local Abbreviation store_data := (@store_data F env base_dir).
Local Abbreviation server_dir := (server_dir base_dir).
Local Abbreviation stats_path := (stats_path base_dir).
Local Abbreviation run_ok := (@run_ok F).
Local Abbreviation grows := (@grows F).
Local Abbreviation is_process_path := (is_process_path base_dir).
Local Abbreviation prepared := (@prepared F base_dir).
Local Abbreviation unprepared := (@unprepared F env base_dir).

Implicit Types (w : World) (path : string).

(** *** Effects of the primitives *)

Lemma grows_refl w : grows w w.
Proof. intros path ls H. exists []. rewrite app_nil_r. exact H. Qed.

Lemma grows_trans w1 w2 w3 : grows w1 w2 -> grows w2 w3 -> grows w1 w3.
Proof.
  intros H12 H23 path ls H. destruct (H12 path ls H) as [m1 H1].
  destruct (H23 path _ H1) as [m2 H2]. exists (m1 ++ m2).
  rewrite app_assoc. exact H2.
Qed.

Lemma grows_same_files w w' : files w' = files w -> grows w w'.
Proof.
  intros Hf path ls H. exists []. rewrite app_nil_r, Hf. exact H.
Qed.

Lemma run_ok_refl dir keep w : run_ok dir keep w w.
Proof. split; [apply grows_refl|]. split; [set_solver|auto]. Qed.

Lemma run_ok_tick dir keep w : run_ok dir keep w (tick w).
Proof.
  split; [intros path ls H; exists []; rewrite app_nil_r; exact H|].
  split; [simpl; set_solver|auto].
Qed.

Lemma run_ok_trans dir keep w1 w2 w3 :
  run_ok dir keep w1 w2 -> run_ok dir keep w2 w3 -> run_ok dir keep w1 w3.
Proof.
  intros (G1 & D1 & K1) (G2 & D2 & K2).
  split; [exact (grows_trans _ _ _ G1 G2)|]. split.
  { intros x Hx. apply D2, elem_of_union in Hx as [Hx|Hx].
    - apply elem_of_union. left. exact Hx.
    - apply D1. exact Hx. }
  intros path Hk. rewrite (K2 path Hk). apply K1. exact Hk.
Qed.

Lemma run_ok_weaken dir (keep keep' : string -> Prop) w w' :
  (forall path, keep' path -> keep path) ->
  run_ok dir keep w w' -> run_ok dir keep' w w'.
Proof. intros Hk (G & D & K). split; [exact G|]. split; [exact D|]. auto. Qed.

Lemma io_inv (effect : World -> World) w (r : result unit) w' :
  io effect w = (r, w') ->
  (r = Ok tt /\ w' = tick (effect w) /\ fault env (clock w) = None)
  \/ (exists cls, r = Raise (Exception cls) /\ w' = tick w
                  /\ fault env (clock w) = Some cls).
Proof.
  unfold Store.io. destruct (fault env (clock w)) as [cls|];
    intros H; inversion H; subst; eauto.
Qed.

Lemma mbind_inv {A B : Type} (m : M A) (k : A -> M B) w (r : result B) w'' :
  mbind m k w = (r, w'') ->
  (exists a w', m w = (Ok a, w') /\ k a w' = (r, w''))
  \/ (exists e, m w = (Raise e, w'') /\ r = Raise e).
Proof.
  unfold mbind. destruct (m w) as [[a|e] w'] eqn:Hm; intros H.
  - left. eauto.
  - right. inversion H; subst. eauto.
Qed.

Lemma made_dirs_ancestors w (dir x : string) :
  In x (made_dirs w dir) -> In x (ancestors dir).
Proof. apply mkdir_calls_lineage. Qed.

Lemma makedirs_run (dir : string) w (r : result unit) w' :
  makedirs env dir w = (r, w') ->
  run_ok dir (fun _ => True) w w' /\ no_base_exception r.
Proof.
  unfold Store.makedirs. intros H.
  destruct (fault env (clock w)) as [cls|]; inversion H; subst; clear H.
  - split; [|intros e He; inversion He; reflexivity].
    split; [apply grows_same_files; reflexivity|].
    split; [|auto]. simpl. intros x Hx.
    apply elem_of_union in Hx as [Hx|Hx]; [|set_solver].
    apply elem_of_union. left.
    apply elem_of_list_to_set, list_elem_of_In in Hx.
    apply elem_of_list_to_set, list_elem_of_In.
    apply (made_dirs_ancestors w), removelast_incl.
    exact (take_incl _ _ _ Hx).
  - split; [|discriminate].
    split; [apply grows_same_files; reflexivity|].
    split; [|auto]. simpl. intros x Hx.
    apply elem_of_union in Hx as [Hx|Hx]; [|set_solver].
    apply elem_of_union. left.
    apply elem_of_list_to_set, list_elem_of_In in Hx.
    apply elem_of_list_to_set, list_elem_of_In.
    apply (made_dirs_ancestors w). exact Hx.
Qed.

Lemma open_append_run (dir file : string) w (r : result unit) w' :
  open_append env file w = (r, w') ->
  run_ok dir (fun path => path <> file) w w' /\ no_base_exception r
  /\ (r = Ok tt -> files w' !! file = Some (default [] (files w !! file))).
Proof.
  intros H. apply io_inv in H as [(-> & -> & _)|(cls & -> & -> & _)].
  - split; [|split; [discriminate|]].
    + split; [|split; [simpl; set_solver|]].
      * intros path ls Hls. exists []. rewrite app_nil_r. simpl.
        destruct (decide (file = path)) as [->|Hne].
        -- rewrite lookup_insert_eq, Hls. reflexivity.
        -- rewrite lookup_insert_ne; assumption.
      * intros path Hne. simpl. rewrite lookup_insert_ne; [reflexivity|auto].
    + intros _. simpl. apply lookup_insert_eq.
  - split; [apply run_ok_tick|]. split; [|discriminate].
    intros e He. inversion He. reflexivity.
Qed.

Lemma write_run (dir file : string) (l : line F) w (r : result unit) w' :
  write env file l w = (r, w') ->
  run_ok dir (fun path => path <> file) w w' /\ no_base_exception r
  /\ (r = Ok tt ->
      files w' !! file = Some (default [] (files w !! file) ++ [l])).
Proof.
  intros H. apply io_inv in H as [(-> & -> & _)|(cls & -> & -> & _)].
  - split; [|split; [discriminate|]].
    + split; [|split; [simpl; set_solver|]].
      * intros path ls Hls. simpl.
        destruct (decide (file = path)) as [->|Hne].
        -- exists [l]. rewrite lookup_insert_eq, Hls. reflexivity.
        -- exists []. rewrite app_nil_r, lookup_insert_ne; assumption.
      * intros path Hne. simpl. rewrite lookup_insert_ne; [reflexivity|auto].
    + intros _. simpl. apply lookup_insert_eq.
  - split; [apply run_ok_tick|]. split; [|discriminate].
    intros e He. inversion He. reflexivity.
Qed.

Ltac inv_bind H :=
  let a := fresh "a" in
  let w := fresh "w" in
  let Hm := fresh "Hm" in
  let e := fresh "e" in
  let Hr := fresh "Hr" in
  apply mbind_inv in H as [(a & w & Hm & H)|(e & Hm & Hr)];
  [|try discriminate Hr; try (injection Hr as Hr); subst].

Lemma ret_inv {A : Type} (a : A) w (r : result A) w' :
  ret a w = (r, w') -> r = Ok a /\ w' = w.
Proof. unfold ret. intros H. inversion H. auto. Qed.

(** The loop over the processes of a GPU writes to the process file
    only. *)
Lemma write_processes_run (dir file ts : string) (idx : Z) (pfe : bool)
      (procs : list (Process F)) w (r : result unit) w' :
  write_processes file ts idx pfe procs w = (r, w') ->
  run_ok dir (fun path => path <> file) w w' /\ no_base_exception r.
Proof.
  revert pfe w. induction procs as [|proc procs IH]; intros pfe w H.
  - apply ret_inv in H as [-> ->]. split; [apply run_ok_refl|discriminate].
  - simpl in H. inv_bind H.
    + assert (Hhead : run_ok dir (fun path => path <> file) w w0).
      { destruct (negb pfe).
        - apply (write_run dir) in Hm. tauto.
        - apply ret_inv in Hm as [_ ->]. apply run_ok_refl. }
      inv_bind H.
      * apply (write_run dir) in Hm0 as (Hrow & _ & _).
        apply IH in H as (Hrest & Hexc). split; [|exact Hexc].
        eapply run_ok_trans; [exact Hhead|].
        eapply run_ok_trans; [exact Hrow|exact Hrest].
      * apply (write_run dir) in Hm0 as (Hrow & Hexc & _).
        split; [|exact Hexc]. eapply run_ok_trans; [exact Hhead|exact Hrow].
    + destruct (negb pfe).
      * apply (write_run dir) in Hm. tauto.
      * apply ret_inv in Hm as [Hr _]. discriminate.
Qed.

Lemma store_processes_run (server_name ts : string) (g : GPU F)
      w (r : result unit) w' :
  store_processes server_name ts g w = (r, w') ->
  run_ok (server_dir server_name)
         (fun path => ~ is_process_path server_name path) w w'
  /\ no_base_exception r.
Proof.
  unfold Store.store_processes. intros H.
  destruct (processes g) as [|proc procs] eqn:Hp.
  - apply ret_inv in H as [-> ->]. split; [apply run_ok_refl|discriminate].
  - unfold _get_server_dir in H. inv_bind H.
    + inv_bind Hm.
      apply makedirs_run in Hm0 as [Hdir _].
      apply ret_inv in Hm as [Ha ->]. injection Ha as ->.
      eapply run_ok_weaken in Hdir; [|intros path _; exact I].
      inv_bind H; [|unfold date_now in Hm; inversion Hm].
      unfold date_now in Hm. inversion Hm; subst. clear Hm.
      inv_bind H; [|unfold path_exists in Hm; inversion Hm].
      unfold path_exists in Hm. inversion Hm; subst. clear Hm.
      set (file := path_join _ _) in *.
      assert (Hkeep : forall path,
                 ~ is_process_path server_name path -> path <> file).
      { intros path Hn ->. apply Hn. eexists _, _. reflexivity. }
      inv_bind H.
      * apply (open_append_run (server_dir server_name)) in Hm
          as (Hopen & _ & _).
        apply (write_processes_run (server_dir server_name)) in H
          as (Hw & Hexc).
        split; [|exact Hexc].
        eapply run_ok_trans; [exact Hdir|].
        eapply run_ok_trans; [apply run_ok_tick|].
        eapply run_ok_trans;
          [exact (run_ok_weaken _ _ _ _ _ Hkeep Hopen)|].
        exact (run_ok_weaken _ _ _ _ _ Hkeep Hw).
      * apply (open_append_run (server_dir server_name)) in Hm
          as (Hopen & Hexc & _).
        split; [|exact Hexc].
        eapply run_ok_trans; [exact Hdir|].
        eapply run_ok_trans; [apply run_ok_tick|].
        exact (run_ok_weaken _ _ _ _ _ Hkeep Hopen).
    + inv_bind Hm.
      * apply ret_inv in Hm as [Hr _]. discriminate.
      * apply makedirs_run in Hm0 as [Hdir Hexc].
        split; [|exact Hexc]. eapply run_ok_weaken; [|exact Hdir].
        intros path _. exact I.
Qed.

(** Chains the effects of consecutive steps. *)
Ltac chain :=
  match goal with
  | H : run_ok ?d ?k ?w ?w1 |- run_ok ?d ?k ?w ?w2 =>
      first [exact H | eapply run_ok_trans; [exact H|]; clear H; chain]
  end.

Lemma stats_lines_cons (ts : string) (fe : bool) (g : GPU F) (rest : list (GPU F))
      (old : list (line F)) :
  ((old ++ (if fe then [] else [Header (map fst (gpu_row ts g))]))
       ++ [Row (map snd (gpu_row ts g))])
    ++ stats_lines ts true rest
  = old ++ stats_lines ts fe (g :: rest).
Proof.
  unfold stats_lines, stats_rows. destruct rest as [|g' rest]; simpl.
  - rewrite app_nil_r, <- !app_assoc. reflexivity.
  - rewrite <- !app_assoc. reflexivity.
Qed.

(** The loop over the GPUs: its effects, and what a complete pass adds
    to the stats file. *)
Lemma store_gpus_run (server_name filename ts : string) (fe : bool)
      (gs : list (GPU F)) w (r : result unit) w' :
  store_gpus server_name filename ts fe gs w = (r, w') ->
  ~ is_process_path server_name filename ->
  run_ok (server_dir server_name)
         (fun path => path <> filename /\ ~ is_process_path server_name path)
         w w'
  /\ no_base_exception r
  /\ (r = Ok tt ->
      files w' !! filename =
      match gs with
      | [] => files w !! filename
      | _ => Some (default [] (files w !! filename) ++ stats_lines ts fe gs)
      end).
Proof.
  intros H Hnp. revert fe w H.
  set (D := server_dir server_name).
  set (K := fun path => path <> filename /\ ~ is_process_path server_name path).
  assert (K1 : forall path, K path -> path <> filename) by (intros ? [? ?]; auto).
  assert (K2 : forall path, K path -> ~ is_process_path server_name path)
    by (intros ? [? ?]; auto).
  induction gs as [|g rest IH]; intros fe w H.
  - apply ret_inv in H as [-> ->].
    split; [apply run_ok_refl|]. split; [discriminate|reflexivity].
  - simpl in H. inv_bind H.
    2:{ apply (open_append_run D) in Hm as (Hopen & Hexc & _).
        apply (run_ok_weaken _ _ _ _ _ K1) in Hopen.
        split; [exact Hopen|]. split; [exact Hexc|discriminate]. }
    apply (open_append_run D) in Hm as (Hopen & _ & Copen).
    destruct a. specialize (Copen eq_refl).
    apply (run_ok_weaken _ _ _ _ _ K1) in Hopen.
    inv_bind H.
    2:{ destruct (negb fe).
        - apply (write_run D) in Hm as (Hhdr & Hexc & _).
          apply (run_ok_weaken _ _ _ _ _ K1) in Hhdr.
          split; [chain|]. split; [exact Hexc|discriminate].
        - apply ret_inv in Hm as [Hr _]. discriminate. }
    assert (Hhdr : run_ok D K w0 w1
                   /\ files w1 !! filename
                      = Some (default [] (files w !! filename)
                              ++ (if fe then []
                                  else [Header (map fst (gpu_row ts g))]))).
    { destruct fe; simpl in Hm.
      - apply ret_inv in Hm as [_ ->]. split; [apply run_ok_refl|].
        rewrite app_nil_r. exact Copen.
      - apply (write_run D) in Hm as (Hhdr & _ & Chdr). destruct a.
        split; [exact (run_ok_weaken _ _ _ _ _ K1 Hhdr)|].
        rewrite (Chdr eq_refl), Copen. reflexivity. }
    destruct Hhdr as [Hhdr Chdr].
    inv_bind H.
    2:{ apply (write_run D) in Hm0 as (Hrow & Hexc & _).
        apply (run_ok_weaken _ _ _ _ _ K1) in Hrow.
        split; [chain|]. split; [exact Hexc|discriminate]. }
    apply (write_run D) in Hm0 as (Hrow & _ & Crow).
    destruct a0. specialize (Crow eq_refl). rewrite Chdr in Crow.
    cbn [from_option id] in Crow.
    apply (run_ok_weaken _ _ _ _ _ K1) in Hrow.
    inv_bind H.
    2:{ apply store_processes_run in Hm0 as (Hproc & Hexc).
        apply (run_ok_weaken _ _ _ _ _ K2) in Hproc.
        split; [chain|]. split; [exact Hexc|discriminate]. }
    apply store_processes_run in Hm0 as (Hproc & _).
    pose proof (proj2 (proj2 Hproc) filename Hnp) as Cproc.
    apply (run_ok_weaken _ _ _ _ _ K2) in Hproc.
    apply IH in H as (Hrest & Hexc & Crest).
    split; [chain|]. split; [exact Hexc|].
    intros Hr. rewrite (Crest Hr), Cproc, Crow. cbn [from_option id].
    rewrite <- stats_lines_cons.
    destruct rest as [|g' rest']; [|reflexivity].
    cbn [stats_lines]. rewrite app_nil_r. reflexivity.
Qed.

(** *** The shape of a call *)

Lemma stats_path_not_process (server_name day : string) :
  ~ is_process_path server_name (stats_path server_name day).
Proof.
  intros (idx & day' & H). exact (stats_path_not_process_path _ _ _ _ H).
Qed.

(** [store_data_body] up to the loop over the GPUs. *)
Lemma store_data_body_run (data : Snapshot F) (server_name : string) w :
  server data = Some server_name ->
  server_name <> EmptyString ->
  store_data_body data w =
  match fault env (S (clock w)) with
  | Some cls => (Raise (Exception cls), unprepared server_name w)
  | None =>
      let filename := stats_path server_name (today env (clock w)) in
      match store_gpus server_name filename (timestamp data)
                       (exists_in (prepared server_name w) filename)
                       (gpus data) (prepared server_name w) with
      | (Ok _, w') => (Ok true, w')
      | (Raise e, w') => (Raise e, w')
      end
  end.
Proof.
  intros Hs Hne. unfold Store.store_data_body. rewrite Hs.
  destruct server_name as [|c rest]; [congruence|].
  unfold _get_date_filename, date_now, _get_server_dir, makedirs, Store.io,
    path_exists, mbind, ret. simpl.
  destruct (fault env (S (clock w))) as [cls|]; [reflexivity|]. simpl.
  reflexivity.
Qed.

(** Whatever [store_data_body] raises is of class [Exception], and the
    files only grow. *)
Lemma store_data_body_sound (data : Snapshot F) w (r : result bool) w' :
  store_data_body data w = (r, w') ->
  no_base_exception r /\ grows w w'.
Proof.
  destruct (server data) as [[|c rest]|] eqn:Hs.
  - unfold Store.store_data_body. rewrite Hs. intros H.
    apply ret_inv in H as [-> ->]. split; [discriminate|apply grows_refl].
  - rewrite (store_data_body_run data (String c rest) w Hs); [|discriminate].
    destruct (fault env (S (clock w))) as [cls|].
    + intros H. inversion H; subst. split.
      * intros e He. inversion He. reflexivity.
      * apply grows_same_files. reflexivity.
    + cbv zeta.
      destruct (store_gpus _ _ _ _ _ _) as [rg wg] eqn:Hg.
      apply store_gpus_run in Hg as ((Hgrow & _) & Hexc & _);
        [|apply stats_path_not_process].
      assert (Hg' : grows w wg).
      { eapply grows_trans; [|exact Hgrow]. apply grows_same_files. reflexivity. }
      destruct rg as [u|e]; intros H; inversion H; subst.
      * split; [discriminate|exact Hg'].
      * split; [|exact Hg']. intros e' He'. inversion He'; subst.
        apply Hexc. reflexivity.
  - unfold Store.store_data_body. rewrite Hs. intros H.
    apply ret_inv in H as [-> ->]. split; [discriminate|apply grows_refl].
Qed.

(** [store_data] always returns a boolean. *)
Lemma store_data_returns (data : Snapshot F) w :
  exists b w', store_data data w = (Ok b, w').
Proof.
  unfold Store.store_data.
  destruct (store_data_body data w) as [[b|e] w'] eqn:Hb; [eauto|].
  apply store_data_body_sound in Hb as [Hexc _].
  rewrite (Hexc e eq_refl). eauto.
Qed.

(** The loop over a list of GPUs in two pieces. *)
Lemma store_gpus_app (server_name filename ts : string) (fe : bool)
      (pre post : list (GPU F)) w :
  store_gpus server_name filename ts fe (pre ++ post) w =
  match store_gpus server_name filename ts fe pre w with
  | (Ok _, w1) =>
      store_gpus server_name filename ts
                 (match pre with [] => fe | _ => true end) post w1
  | (Raise e, w1) => (Raise e, w1)
  end.
Proof.
  revert fe w. induction pre as [|g pre IH]; intros fe w; [reflexivity|].
  simpl. unfold mbind.
  destruct (open_append env filename w) as [[u1|e1] w1]; [|reflexivity].
  match goal with
  | |- context [(if negb fe then ?a else ?b) w1] =>
      destruct ((if negb fe then a else b) w1) as [[u2|e2] w2]; [|reflexivity]
  end.
  destruct (writerow env filename (gpu_row ts g) w2) as [[u3|e3] w3];
    [|reflexivity].
  destruct (store_processes server_name ts g w3) as [[u4|e4] w4]; [|reflexivity].
  rewrite IH. destruct pre; reflexivity.
Qed.

(** What a call returns, read off the loop over the GPUs. *)
Lemma store_data_run (data : Snapshot F) (server_name : string) w :
  server data = Some server_name ->
  server_name <> EmptyString ->
  store_data data w =
  match fault env (S (clock w)) with
  | Some cls => (Ok false, unprepared server_name w)
  | None =>
      let filename := stats_path server_name (today env (clock w)) in
      match store_gpus server_name filename (timestamp data)
                       (exists_in (prepared server_name w) filename)
                       (gpus data) (prepared server_name w) with
      | (Ok _, w') => (Ok true, w')
      | (Raise e, w') => (Ok false, w')
      end
  end.
Proof.
  intros Hs Hne. unfold Store.store_data.
  rewrite (store_data_body_run data server_name w Hs Hne).
  destruct (fault env (S (clock w))) as [cls|]; [reflexivity|]. cbv zeta.
  destruct (store_gpus _ _ _ _ _ _) as [[u|e] wg] eqn:Hg; [reflexivity|].
  apply store_gpus_run in Hg as (_ & Hexc & _); [|apply stats_path_not_process].
  rewrite (Hexc e eq_refl). reflexivity.
Qed.

(** C9. Let the call store the first [i - 1] GPURecords of a snapshot
    (storing these alone returns [True] and leads to [w1]) and fail on
    the [i]-th (storing the first [i] returns [False]).  Then the call
    returns [False]; every file holds at the end what it held at [w1],
    followed by new lines at most, so that the stats rows and process
    rows of the earlier records are still there; in particular the stats
    file holds the rows of the earlier records. *)
Theorem store_data_not_atomic (data : Snapshot F) (server_name : string)
        (pre : list (GPU F)) (g : GPU F) (post : list (GPU F)) (w w1 : World) :
  server data = Some server_name ->
  server_name <> EmptyString ->
  gpus data = pre ++ g :: post ->
  store_data (with_gpus data pre) w = (Ok true, w1) ->
  fst (store_data (with_gpus data (pre ++ [g])) w) = Ok false ->
  exists w2,
    store_data data w = (Ok false, w2)
    /\ grows w1 w2
    /\ (pre <> [] ->
        exists before more,
          files w2 !! stats_path server_name (today env (clock w))
          = Some (before ++ stats_rows (timestamp data) pre ++ more)).
Proof.
  intros Hs Hne Hgpus Hpre Hfail.
  rewrite (store_data_run (with_gpus data pre) server_name w Hs Hne) in Hpre.
  rewrite (store_data_run (with_gpus data (pre ++ [g])) server_name w Hs Hne)
    in Hfail.
  rewrite (store_data_run data server_name w Hs Hne), Hgpus.
  destruct (fault env (S (clock w))) as [cls|]; [discriminate|].
  cbv zeta in *. cbn [timestamp gpus with_gpus] in *.
  set (p := stats_path server_name (today env (clock w))) in *.
  set (fe := exists_in (prepared server_name w) p) in *.
  set (ts := timestamp data) in *.
  change (pre ++ g :: post) with (pre ++ [g] ++ post).
  rewrite store_gpus_app in Hfail |- *.
  destruct (store_gpus server_name p ts fe pre (prepared server_name w))
    as [[u|e] wp] eqn:Hrun; [|discriminate].
  injection Hpre as ->.
  rewrite store_gpus_app.
  destruct (store_gpus server_name p ts
                       match pre with [] => fe | _ => true end [g] w1)
    as [[u'|e] w2] eqn:Hg; [discriminate|].
  exists w2. split; [reflexivity|].
  apply store_gpus_run in Hg as ((Hgrow & _) & _ & _);
    [|apply stats_path_not_process].
  split; [exact Hgrow|].
  intros Hnonempty.
  apply store_gpus_run in Hrun as (_ & _ & Hfile);
    [|apply stats_path_not_process].
  destruct u. specialize (Hfile eq_refl).
  destruct pre as [|g0 pre']; [congruence|].
  cbn [stats_lines] in Hfile. rewrite app_assoc in Hfile.
  destruct (Hgrow p _ Hfile) as [more Hmore].
  eexists _, more. rewrite Hmore, <- app_assoc. reflexivity.
Qed.

(** C10. A snapshot without a server name, or with an empty one, is
    refused: the call returns [False] and the world is untouched: no
    directory is made, no file opened or written, no operation
    attempted. *)
Theorem store_data_without_server (data : Snapshot F) (w : World) :
  server data = None \/ server data = Some EmptyString ->
  store_data data w = (Ok false, w).
Proof.
  intros [Hs|Hs]; unfold Store.store_data, Store.store_data_body;
    rewrite Hs; reflexivity.
Qed.

(** *** Runs without faults *)

Lemma mbind_ok {A B : Type} (m : M A) (k : A -> M B) w (a : A) w1 :
  m w = (Ok a, w1) -> mbind m k w = k a w1.
Proof. unfold mbind. intros ->. reflexivity. Qed.

Section NoFault.
Hypothesis no_fault : forall t, fault env t = None.

Lemma io_no_fault (effect : World -> World) w :
  io effect w = (Ok tt, tick (effect w)).
Proof. unfold Store.io. rewrite no_fault. reflexivity. Qed.

Lemma makedirs_no_fault (dir : string) w :
  makedirs env dir w = (Ok tt, tick (add_dirs (made_dirs w dir) w)).
Proof. unfold Store.makedirs. rewrite no_fault. reflexivity. Qed.

(** Runs the first step of a sequence when it is known to succeed. *)
Ltac run_step :=
  erewrite mbind_ok
    by first [apply io_no_fault | apply makedirs_no_fault
             | eassumption | reflexivity].

Lemma header_succeeds (file : string) (row : list (string * cell F))
      (skip : bool) w :
  exists w1,
    (if negb skip then writeheader env file row else ret tt) w = (Ok tt, w1).
Proof. destruct (negb skip); eexists; [apply io_no_fault|reflexivity]. Qed.

Lemma write_processes_succeeds (file ts : string) (idx : Z) (pfe : bool)
      (procs : list (Process F)) w :
  exists w', write_processes file ts idx pfe procs w = (Ok tt, w').
Proof.
  revert pfe w. induction procs as [|proc procs IH]; intros pfe w.
  - eexists. reflexivity.
  - simpl.
    destruct (header_succeeds file (proc_row ts idx proc) pfe w) as [w1 Hhead].
    run_step. run_step. apply IH.
Qed.

Lemma store_processes_succeeds (server_name ts : string) (g : GPU F) w :
  exists w', store_processes server_name ts g w = (Ok tt, w').
Proof.
  unfold Store.store_processes. destruct (processes g) as [|proc procs].
  - eexists. reflexivity.
  - unfold _get_server_dir.
    erewrite (mbind_ok (mbind _ _)); [|run_step; reflexivity].
    unfold date_now at 1. unfold mbind at 1.
    unfold path_exists at 1. unfold mbind at 1.
    run_step. apply write_processes_succeeds.
Qed.

Lemma store_gpus_succeeds (server_name filename ts : string) (fe : bool)
      (gs : list (GPU F)) w :
  exists w', store_gpus server_name filename ts fe gs w = (Ok tt, w').
Proof.
  revert fe w. induction gs as [|g rest IH]; intros fe w.
  - eexists. reflexivity.
  - simpl. run_step.
    match goal with
    | |- context [mbind (if negb fe then _ else _) _ ?w1] =>
        destruct (header_succeeds filename (gpu_row ts g) fe w1) as [w2 Hhead]
    end.
    run_step. run_step.
    match goal with
    | |- context [mbind (store_processes _ _ _) _ ?w3] =>
        destruct (store_processes_succeeds server_name ts g w3) as [w4 Hproc]
    end.
    run_step. apply IH.
Qed.

Lemma stats_path_not_ancestor (server_name day : string) :
  ~ In (stats_path server_name day) (ancestors (server_dir server_name)).
Proof. apply under_not_ancestor; [reflexivity|discriminate]. Qed.

Lemma stats_path_not_made (server_name day : string) w :
  ~ In (stats_path server_name day) (made_dirs w (server_dir server_name)).
Proof.
  intros H. exact (stats_path_not_ancestor _ _ (made_dirs_ancestors _ _ _ H)).
Qed.

Lemma exists_in_prepared (server_name day : string) w :
  exists_in (prepared server_name w) (stats_path server_name day)
  = exists_in w (stats_path server_name day).
Proof.
  unfold exists_in. simpl. f_equal. apply bool_decide_ext.
  rewrite elem_of_union, elem_of_list_to_set, list_elem_of_In.
  pose proof (stats_path_not_made server_name day w). tauto.
Qed.

(** One call on a day without faults. *)
Lemma store_data_no_fault (data : Snapshot F) (server_name day : string) w :
  (forall t, today env t = day) ->
  server data = Some server_name ->
  server_name <> EmptyString ->
  exists w',
    store_data data w = (Ok true, w')
    /\ dirs w' ⊆ list_to_set (ancestors (server_dir server_name)) ∪ dirs w
    /\ files w' !! stats_path server_name day =
       match gpus data with
       | [] => files w !! stats_path server_name day
       | _ => Some (default [] (files w !! stats_path server_name day)
                    ++ stats_lines (timestamp data)
                                   (exists_in w (stats_path server_name day))
                                   (gpus data))
       end.
Proof.
  intros Hday Hs Hne. unfold Store.store_data.
  rewrite (store_data_body_run data server_name w Hs Hne), no_fault, Hday.
  cbv zeta. rewrite exists_in_prepared.
  destruct (store_gpus_succeeds server_name (stats_path server_name day)
              (timestamp data) (exists_in w (stats_path server_name day))
              (gpus data) (prepared server_name w)) as [w' Hrun].
  rewrite Hrun. exists w'. split; [reflexivity|].
  apply store_gpus_run in Hrun as ((_ & Hdirs & _) & _ & Hfile);
    [|apply stats_path_not_process].
  split.
  - intros x Hx. apply Hdirs in Hx. simpl in Hx.
    apply elem_of_union in Hx as [Hx|Hx]; [set_solver|].
    apply elem_of_union in Hx as [Hx|Hx]; [|set_solver].
    apply elem_of_union. left.
    apply elem_of_list_to_set, list_elem_of_In in Hx.
    apply elem_of_list_to_set, list_elem_of_In.
    exact (made_dirs_ancestors _ _ _ Hx).
  - exact (Hfile eq_refl).
Qed.

Lemma headers_app (l1 l2 : list (line F)) :
  headers (l1 ++ l2) = (headers l1 + headers l2)%nat.
Proof. induction l1 as [|l l1 IH]; simpl; [reflexivity|rewrite IH; lia]. Qed.

Lemma data_rows_app (l1 l2 : list (line F)) :
  data_rows (l1 ++ l2) = (data_rows l1 + data_rows l2)%nat.
Proof. induction l1 as [|l l1 IH]; simpl; [reflexivity|rewrite IH; lia]. Qed.

Lemma stats_rows_count (ts : string) (gs : list (GPU F)) :
  headers (stats_rows ts gs) = 0%nat
  /\ data_rows (stats_rows ts gs) = length gs.
Proof.
  induction gs as [|g gs [IH1 IH2]]; simpl; [auto|].
  rewrite IH1, IH2. auto.
Qed.

(** C6 (amended). Two calls for the same server on the same day, none
    of whose operations fails, starting without the stats file: when
    the two snapshots hold [N] and [M] GPURecords with [N + M >= 1],
    the file holds one header line followed by the [N + M] data rows,
    those of the first snapshot first; when both snapshots are empty,
    the file is not created.  And a call that finds the file present
    appends its rows and no header. *)
Theorem two_stores_one_header (w0 : World) (d1 d2 : Snapshot F)
        (server_name day : string) :
  (forall t, today env t = day) ->
  server d1 = Some server_name ->
  server d2 = Some server_name ->
  server_name <> EmptyString ->
  files w0 !! stats_path server_name day = None ->
  stats_path server_name day ∉ dirs w0 ->
  (exists w1 w2,
      store_data d1 w0 = (Ok true, w1)
      /\ store_data d2 w1 = (Ok true, w2)
      /\ files w2 !! stats_path server_name day =
         match gpus d1 ++ gpus d2 with
         | [] => None
         | _ => Some (Header stats_fieldnames
                        :: stats_rows (timestamp d1) (gpus d1)
                        ++ stats_rows (timestamp d2) (gpus d2))
         end
      /\ (forall ls, files w2 !! stats_path server_name day = Some ls ->
                     headers ls = 1%nat
                     /\ data_rows ls = (length (gpus d1) + length (gpus d2))%nat))
  /\ (forall w old,
         files w !! stats_path server_name day = Some old ->
         exists w', store_data d1 w = (Ok true, w')
                    /\ files w' !! stats_path server_name day
                       = Some (old ++ stats_rows (timestamp d1) (gpus d1))).
Proof.
  intros Hday Hs1 Hs2 Hne Hnone Hnodir.
  set (p := stats_path server_name day) in *.
  split.
  - destruct (store_data_no_fault d1 server_name day w0 Hday Hs1 Hne)
      as (w1 & Hrun1 & Hdirs1 & Hfile1).
    destruct (store_data_no_fault d2 server_name day w1 Hday Hs2 Hne)
      as (w2 & Hrun2 & _ & Hfile2).
    fold p in Hfile1, Hfile2.
    assert (Hex0 : exists_in w0 p = false).
    { unfold exists_in. rewrite Hnone.
      rewrite bool_decide_eq_false_2 by (intros [? ?]; discriminate).
      rewrite bool_decide_eq_false_2 by exact Hnodir. reflexivity. }
    rewrite Hex0, Hnone in Hfile1. cbn [from_option id] in Hfile1.
    assert (Hnodir1 : p ∉ dirs w1).
    { intros Hin. apply Hdirs1, elem_of_union in Hin as [Hin|Hin].
      - apply elem_of_list_to_set, list_elem_of_In in Hin.
        exact (stats_path_not_ancestor _ _ Hin).
      - exact (Hnodir Hin). }
    assert (Hfinal :
              files w2 !! p =
              match gpus d1 ++ gpus d2 with
              | [] => None
              | _ => Some (Header stats_fieldnames
                             :: stats_rows (timestamp d1) (gpus d1)
                             ++ stats_rows (timestamp d2) (gpus d2))
              end).
    { rewrite Hfile2. unfold exists_in. rewrite Hfile1.
      destruct (gpus d1) as [|g1 gs1], (gpus d2) as [|g2 gs2].
      - reflexivity.
      - rewrite bool_decide_eq_false_2 by (intros [? ?]; discriminate).
        rewrite bool_decide_eq_false_2 by exact Hnodir1. reflexivity.
      - cbn [stats_lines app]. rewrite app_nil_r. reflexivity.
      - rewrite bool_decide_eq_true_2 by eauto.
        cbn [from_option id orb stats_lines app]. reflexivity. }
    exists w1, w2. split; [exact Hrun1|]. split; [exact Hrun2|].
    split; [exact Hfinal|].
    intros ls Hls. rewrite Hfinal in Hls.
    destruct (gpus d1 ++ gpus d2) eqn:Happ; [discriminate|].
    inversion Hls; subst ls. cbn [headers data_rows is_header].
    rewrite headers_app, data_rows_app.
    destruct (stats_rows_count (timestamp d1) (gpus d1)) as [-> ->].
    destruct (stats_rows_count (timestamp d2) (gpus d2)) as [-> ->].
    lia.
  - intros w old Hold.
    destruct (store_data_no_fault d1 server_name day w Hday Hs1 Hne)
      as (w' & Hrun & _ & Hfile).
    fold p in Hfile. exists w'. split; [exact Hrun|].
    rewrite Hfile. unfold exists_in. rewrite Hold.
    rewrite bool_decide_eq_true_2 by eauto.
    cbn [from_option id orb].
    destruct (gpus d1); [rewrite app_nil_r; reflexivity|reflexivity].
Qed.

End NoFault.

End Store.

(** *** The store on concrete snapshots *)

Lemma quiet_no_fault : forall t, fault quiet t = None.
Proof. reflexivity. Qed.

Lemma two_stores_one_header_witness :
  exists w1 w2,
    store_data quiet "/data" (snapshot_of [busy_gpu; idle_gpu]) empty_disk
    = (Ok true, w1)
    /\ store_data quiet "/data" (snapshot_of [busy_gpu]) w1 = (Ok true, w2)
    /\ (forall ls, files w2 !! box_stats = Some ls ->
                   headers ls = 1%nat /\ data_rows ls = 3%nat).
Proof.
  destruct (two_stores_one_header quiet "/data" quiet_no_fault empty_disk
              (snapshot_of [busy_gpu; idle_gpu]) (snapshot_of [busy_gpu])
              "gpu-box" "2024-01-01")
    as [(w1 & w2 & H1 & H2 & _ & Hcount) _].
  - reflexivity.
  - reflexivity.
  - reflexivity.
  - discriminate.
  - apply lookup_empty.
  - apply not_elem_of_empty.
  - exists w1, w2. split; [exact H1|]. split; [exact H2|exact Hcount].
Defined.

(** C6, as stated, fails: after two calls with snapshots that hold no
    GPURecord ([N = M = 0]), both returning [True], there is no stats
    file, hence no header line. *)
Lemma two_empty_stores_leave_no_file :
  let r1 := store_data quiet "/data" (snapshot_of []) empty_disk in
  let r2 := store_data quiet "/data" (snapshot_of []) (snd r1) in
  fst r1 = Ok true /\ fst r2 = Ok true /\ files (snd r2) !! box_stats = None.
Proof. vm_compute. auto. Qed.

(** The disk fails when the row of the second GPU is written: the first
    eleven operations are the date, the directory, the three of the first
    row and the five of its process file, and the opening of the stats
    file for the second row. *)
Lemma store_data_not_atomic_witness :
  let w1 := snd (store_data (failing_at 11) "/data" (snapshot_of [busy_gpu])
                            empty_disk) in
  exists w2,
    store_data (failing_at 11) "/data" (snapshot_of [busy_gpu; idle_gpu])
               empty_disk = (Ok false, w2)
    /\ grows w1 w2
    /\ exists before more,
        files w2 !! box_stats
        = Some (before ++ stats_rows "2024-01-01T12:00:00" [busy_gpu] ++ more).
Proof.
  intros w1.
  destruct (store_data_not_atomic (failing_at 11) "/data"
              (snapshot_of [busy_gpu; idle_gpu]) "gpu-box"
              [busy_gpu] idle_gpu [] empty_disk w1)
    as (w2 & Hrun & Hgrow & Hrows).
  - reflexivity.
  - discriminate.
  - reflexivity.
  - vm_compute. reflexivity.
  - vm_compute. reflexivity.
  - exists w2. split; [exact Hrun|]. split; [exact Hgrow|].
    apply Hrows. discriminate.
Defined.

(** What is on the disk after the failed call: the header and the row of
    the first GPU, and the file of its process. *)
Example failed_store_leaves_rows :
  let r := store_data (failing_at 11) "/data" (snapshot_of [busy_gpu; idle_gpu])
                      empty_disk in
  fst r = Ok false
  /\ (data_rows <$> files (snd r) !! box_stats) = Some 1%nat
  /\ (data_rows <$> files (snd r)
         !! path_join "/data/gpu-box" (process_name 0 "2024-01-01")) = Some 1%nat.
Proof. vm_compute. auto. Qed.

Lemma store_data_without_server_witness :
  store_data quiet "/data" nameless_snapshot empty_disk = (Ok false, empty_disk).
Proof.
  apply (store_data_without_server quiet "/data" nameless_snapshot empty_disk).
  left. reflexivity.
Defined.

End StoreProps.

(** ** The store as the sink of the collection loop *)
Module SinkProps.
Import Collector Examples.

(** C7. [store_data] reports every failure of its operations by returning
    [False]: whatever the disk does, the call returns a boolean and raises
    nothing.  And when the callback of a cycle is [store_data] and it
    returns [False], the cycle is a successful one for the loop: the loop
    goes on, with the consecutive-failure counter at 0. *)
Theorem store_failure_not_counted :
  (forall (F : Type) (env : Store.Env) (base_dir : string)
          (data : Snapshot F) (w : Store.World F),
      exists b w', Store.store_data env base_dir data w = (Ok b, w'))
  /\ (forall (F : Type) (env : Store.Env) (base_dir : string)
             (interval max_retries : Z) (pre : list (cycle F bool))
             (c : cycle F bool) (data : Snapshot F) (w : Store.World F),
         state (start_collection interval true max_retries pre) = Running ->
         collected c = Ok (Some data) ->
         called_back c = fst (Store.store_data env base_dir data w) ->
         fst (Store.store_data env base_dir data w) = Ok false ->
         slept c = Ok tt ->
         let r := start_collection interval true max_retries (pre ++ [c]) in
         state r = Running /\ retry_count r = 0).
Proof.
  split.
  - intros F env base_dir data w. apply StoreProps.store_data_returns.
  - intros F env base_dir interval max_retries pre c data w
           Hrun Hc Hcb Hfalse Hsleep r.
    apply (CollectorProps.successful_cycle interval true max_retries pre c data);
      [exact Hrun|exact Hc|].
    unfold raised. rewrite Hc, Hcb, Hfalse, Hsleep. reflexivity.
Qed.

Lemma store_failure_not_counted_witness :
  let r := start_collection 5 true 3
             ([Examples.fail; Examples.fail] ++ [unstored]) in
  state r = Running /\ retry_count r = 0.
Proof.
  apply (proj2 store_failure_not_counted Parser.float64 (Examples.failing_at 1) "/data"
               5 3 [Examples.fail; Examples.fail] unstored
               (Examples.snapshot_of [Examples.busy_gpu])
               Examples.empty_disk);
    reflexivity.
Defined.

End SinkProps.


(** * Further properties *)

(** ** The remote-command client *)
Module SSHExtra.
Import PyStr SSH Observe Examples MoreExamples.

Lemma rstrip_idempotent (s : string) : rstrip (rstrip s) = rstrip s.
Proof.
  induction s as [|c s IH]; [reflexivity|].
  simpl. destruct (rstrip s) as [|c' r] eqn:Hr.
  - destruct (is_space c) eqn:Hc; [reflexivity|]. simpl. rewrite Hc. reflexivity.
  - change (rstrip (String c (String c' r))) with
      (match rstrip (String c' r) with
       | EmptyString => if is_space c then EmptyString else String c EmptyString
       | r' => String c r'
       end).
    rewrite IH. reflexivity.
Qed.

Lemma rstrip_keeps_head (c : ascii) (t : string) :
  is_space c = false -> exists t', rstrip (String c t) = String c t'.
Proof.
  intros Hc. simpl. destruct (rstrip t); [rewrite Hc|]; eauto.
Qed.

Lemma lstrip_fixed (s : string) :
  match s with
  | EmptyString => True
  | String c _ => is_space c = false
  end -> lstrip s = s.
Proof. destruct s as [|c s]; [reflexivity|]. simpl. intros ->. reflexivity. Qed.

(** Stripping twice is stripping once. *)
Lemma strip_idempotent (s : string) : strip (strip s) = strip s.
Proof.
  unfold strip.
  assert (Hl : lstrip (rstrip (lstrip s)) = rstrip (lstrip s)).
  { destruct (lstrip s) as [|c t] eqn:Hs; [reflexivity|].
    pose proof (ParserProps.lstrip_head s c t Hs) as Hc.
    destruct (rstrip_keeps_head c t Hc) as [t' ->].
    apply lstrip_fixed. exact Hc. }
  rewrite Hl. apply rstrip_idempotent.
Qed.

(** X1. [disconnect()] leaves no handle, closes the session exactly when
    there was one, and is idempotent: a second [disconnect()], like one on a
    client that never connected, makes no call and changes nothing. *)
Theorem disconnect_idempotent (self : SSHClient) :
  client (fst (disconnect self)) = None
  /\ snd (disconnect self) = match client self with
                             | Some _ => [EvClose]
                             | None => []
                             end
  /\ disconnect (fst (disconnect self)) = (fst (disconnect self), []).
Proof.
  unfold disconnect. destruct self as [[c|]]; simpl; auto.
Qed.

(** X2. A session whose transport is there and active is used as it is:
    the command is run once, no [connect()] is made and the handle is the
    one the call found. *)
Theorem live_session_reused (net : Net) (self : SSHClient) (command : string) :
  (exists c, client self = Some c /\ has_transport c = true) ->
  alive net = true ->
  snd (execute_command net self command) = [EvExec command]
  /\ snd (fst (execute_command net self command)) = self.
Proof.
  intros (c & Hc & Ht) Ha.
  assert (Hn : needs_connect net self = false).
  { unfold needs_connect. rewrite Hc, Ht, Ha. reflexivity. }
  split; [exact (SSHProps.execute_command_live net self command Hn)|].
  unfold execute_command. rewrite Hn.
  destruct (run_command net command). reflexivity.
Qed.

Lemma live_session_reused_witness :
  snd (execute_command healthy connected "nvidia-smi") = [EvExec "nvidia-smi"%string]
  /\ snd (fst (execute_command healthy connected "nvidia-smi")) = connected.
Proof.
  apply (live_session_reused healthy connected "nvidia-smi").
  - exists (mkSession true). split; reflexivity.
  - reflexivity.
Defined.

(** X3. [execute_command] reports success exactly when a session was there
    or could be opened and the command ran to the end with exit status 0;
    the output and error text it returns are then those of the command,
    stripped. *)
Theorem success_iff_exit_zero (net : Net) (self : SSHClient) (command : string) :
  (fst (fst (answer net self command)) = true <->
   (needs_connect net self = false \/ connect_error net = None)
   /\ exists out err, exec net command = Completed out err 0)
  /\ (forall out err, fst (fst (answer net self command)) = true ->
                      exec net command = Completed out err 0 ->
                      answer net self command = (true, strip out, strip err)).
Proof.
  unfold answer, execute_command, connect, run_command.
  destruct (needs_connect net self) eqn:Hn;
    [destruct (connect_error net) as [msg|] eqn:Hc|]; simpl.
  - split.
    + split; [discriminate|]. intros [[H|H] _]; discriminate.
    + discriminate.
  - destruct (exec net command) as [out err code|msg] eqn:He; simpl.
    + destruct (code =? 0) eqn:Hz; simpl.
      * apply Z.eqb_eq in Hz. subst code. split.
        -- split; [intros _; split; [auto|eauto]|reflexivity].
        -- intros o e _ Heq. inversion Heq; subst. reflexivity.
      * apply Z.eqb_neq in Hz. split.
        -- split; [discriminate|]. intros [_ (o & e & Heq)].
           inversion Heq; subst. congruence.
        -- discriminate.
    + split; [|discriminate].
      split; [discriminate|]. intros [_ (o & e & Heq)]. discriminate.
  - destruct (exec net command) as [out err code|msg] eqn:He; simpl.
    + destruct (code =? 0) eqn:Hz; simpl.
      * apply Z.eqb_eq in Hz. subst code. split.
        -- split; [intros _; split; [auto|eauto]|reflexivity].
        -- intros o e _ Heq. inversion Heq; subst. reflexivity.
      * apply Z.eqb_neq in Hz. split.
        -- split; [discriminate|]. intros [_ (o & e & Heq)].
           inversion Heq; subst. congruence.
        -- discriminate.
    + split; [|discriminate].
      split; [discriminate|]. intros [_ (o & e & Heq)]. discriminate.
Qed.

(** X4. After [execute_command], whether its [connect()] succeeded or not,
    there is a client object in the handle; a [disconnect()] that follows
    closes it, once. *)
Theorem execute_command_leaves_handle
        (net : Net) (self : SSHClient) (command : string) :
  client (snd (fst (execute_command net self command))) <> None
  /\ snd (disconnect (snd (fst (execute_command net self command)))) = [EvClose].
Proof.
  unfold execute_command, connect, needs_connect, disconnect.
  destruct self as [[c|]]; simpl.
  - destruct (negb (has_transport c) || negb (alive net)).
    + destruct (connect_error net); simpl.
      * split; [discriminate|reflexivity].
      * destruct (run_command net command). simpl.
        split; [discriminate|reflexivity].
    + destruct (run_command net command). simpl.
      split; [discriminate|reflexivity].
  - destruct (connect_error net); simpl.
    + split; [discriminate|reflexivity].
    + destruct (run_command net command). simpl.
      split; [discriminate|reflexivity].
Qed.

(** X5. After [disconnect()] the next [execute_command] starts by
    connecting again, whatever the network reports. *)
Theorem reconnects_after_disconnect
        (net : Net) (self : SSHClient) (command : string) :
  exists rest,
    snd (execute_command net (fst (disconnect self)) command) = EvConnect :: rest.
Proof.
  assert (Hn : needs_connect net (fst (disconnect self)) = true).
  { unfold needs_connect, disconnect. destruct self as [[c|]]; reflexivity. }
  unfold execute_command, connect. rewrite Hn.
  destruct (connect_error net); simpl; [eauto|].
  destruct (run_command net command). simpl. eauto.
Qed.

(** X6. The output text that [execute_command] returns has no whitespace
    at either end: stripping it again changes nothing. *)
Theorem output_is_stripped (net : Net) (self : SSHClient) (command : string) :
  strip (snd (fst (answer net self command))) = snd (fst (answer net self command)).
Proof.
  unfold answer, execute_command, connect, run_command.
  destruct (needs_connect net self);
    [destruct (connect_error net)|]; simpl; try reflexivity;
    (destruct (exec net command) as [out err code|msg]; simpl;
     [destruct (code =? 0); simpl; apply strip_idempotent|reflexivity]).
Qed.

End SSHExtra.

(** ** The collector *)
Module CollectorExtra.
Import PyStr SSH Collector Observe Examples MoreExamples.

Lemma commands_app (e1 e2 : list event) :
  commands (e1 ++ e2) = commands e1 ++ commands e2.
Proof.
  induction e1 as [|[| |] e1 IH]; simpl; [reflexivity| | |]; rewrite IH; reflexivity.
Qed.

(** A call runs its command, or fails to connect and runs nothing. *)
Lemma execute_command_commands (net : Net) (self : SSHClient) (command : string) :
  commands (snd (execute_command net self command)) = [command]
  \/ (commands (snd (execute_command net self command)) = []
      /\ fst (fst (answer net self command)) = false).
Proof.
  unfold answer, execute_command, connect, run_command.
  destruct (needs_connect net self);
    [destruct (connect_error net)|]; simpl; auto;
    (destruct (exec net command) as [out err code|msg]; simpl;
     [destruct (code =? 0)|]; simpl; auto).
Qed.

Section Collect.
Context {F : Type}.
Variable py_int : string -> option Z.
Variable py_float : string -> option F.

Local Abbreviation collect_gpu_stats := (@collect_gpu_stats F py_int py_float).

(** X7. A poll runs the three queries in the order stats, uuids, processes
    and stops at the first that fails: the commands it has run are a
    beginning of that list, and all three whenever the poll does not return
    [None]. *)
Theorem collect_runs_queries_in_order
        (n1 n2 n3 : Net) (now : string) (self : GPUDataCollector) :
  commands (snd (collect_gpu_stats n1 n2 n3 now self))
    `prefix_of` [NVIDIA_SMI_CMD; NVIDIA_SMI_UUID_CMD; NVIDIA_SMI_PROCESS_CMD]
  /\ (fst (fst (collect_gpu_stats n1 n2 n3 now self)) <> Ok None ->
      commands (snd (collect_gpu_stats n1 n2 n3 now self))
      = [NVIDIA_SMI_CMD; NVIDIA_SMI_UUID_CMD; NVIDIA_SMI_PROCESS_CMD]).
Proof.
  unfold Collector.collect_gpu_stats.
  pose proof (execute_command_commands n1 (ssh_client self) NVIDIA_SMI_CMD) as H1.
  unfold answer in H1.
  destruct (execute_command n1 (ssh_client self) NVIDIA_SMI_CMD)
    as [[[[ok1 out1] err1] c1] e1]. simpl in H1.
  destruct ok1; simpl.
  2:{ split; [|congruence].
      destruct H1 as [->|[-> _]]; [eexists; reflexivity|apply prefix_nil]. }
  destruct H1 as [H1|[_ H1]]; [|discriminate].
  pose proof (execute_command_commands n2 c1 NVIDIA_SMI_UUID_CMD) as H2.
  unfold answer in H2.
  destruct (execute_command n2 c1 NVIDIA_SMI_UUID_CMD)
    as [[[[ok2 out2] err2] c2] e2]. simpl in H2.
  destruct ok2; simpl.
  2:{ split; [|congruence]. rewrite commands_app, H1.
      destruct H2 as [->|[-> _]]; eexists; reflexivity. }
  destruct H2 as [H2|[_ H2]]; [|discriminate].
  pose proof (execute_command_commands n3 c2 NVIDIA_SMI_PROCESS_CMD) as H3.
  unfold answer in H3.
  destruct (execute_command n3 c2 NVIDIA_SMI_PROCESS_CMD)
    as [[[[ok3 out3] err3] c3] e3]. simpl in H3.
  destruct ok3; simpl.
  2:{ split; [|congruence]. rewrite !commands_app, H1, H2.
      destruct H3 as [->|[-> _]]; eexists; reflexivity. }
  destruct H3 as [H3|[_ H3]]; [|discriminate].
  assert (Hall : commands (e1 ++ e2 ++ e3)
                 = [NVIDIA_SMI_CMD; NVIDIA_SMI_UUID_CMD; NVIDIA_SMI_PROCESS_CMD])
    by (rewrite !commands_app, H1, H2, H3; reflexivity).
  destruct (Parser.parse _ _ _ _ _ _ _ _); simpl; rewrite Hall;
    (split; [exists []; reflexivity|reflexivity]).
Qed.

(** A network that answers gives the stripped output to any client. *)
Lemma answers_answer (net : Net) (self : SSHClient) (command out : string) :
  answers net command out ->
  exists err, answer net self command = (true, strip out, err).
Proof.
  intros [Hc (err & He)].
  unfold answer, execute_command, connect, run_command. rewrite Hc, He.
  destruct (needs_connect net self); simpl; eauto.
Qed.

(** X8. When the network lets the three queries through, the poll returns
    what the parser makes of their stripped outputs: the snapshot, or the
    parser's exception. *)
Theorem collect_parses_outputs
        (n1 n2 n3 : Net) (now : string) (self : GPUDataCollector)
        (stats uuids procs : string) :
  answers n1 NVIDIA_SMI_CMD stats ->
  answers n2 NVIDIA_SMI_UUID_CMD uuids ->
  answers n3 NVIDIA_SMI_PROCESS_CMD procs ->
  fst (fst (collect_gpu_stats n1 n2 n3 now self))
  = match Parser.parse py_int py_float now (server_name self) (server_host self)
                       (strip stats) (strip uuids) (strip procs) with
    | Ok data => Ok (Some data)
    | Raise e => Raise e
    end.
Proof.
  intros A1 A2 A3. unfold Collector.collect_gpu_stats.
  destruct (answers_answer n1 (ssh_client self) _ _ A1) as [err1 H1].
  unfold answer in H1.
  destruct (execute_command n1 (ssh_client self) NVIDIA_SMI_CMD)
    as [[r1 c1] e1]. simpl in H1. subst r1. simpl.
  destruct (answers_answer n2 c1 _ _ A2) as [err2 H2]. unfold answer in H2.
  destruct (execute_command n2 c1 NVIDIA_SMI_UUID_CMD) as [[r2 c2] e2].
  simpl in H2. subst r2. simpl.
  destruct (answers_answer n3 c2 _ _ A3) as [err3 H3]. unfold answer in H3.
  destruct (execute_command n3 c2 NVIDIA_SMI_PROCESS_CMD) as [[r3 c3] e3].
  simpl in H3. subst r3. simpl.
  destruct (Parser.parse _ _ _ _ _ _ _ _); reflexivity.
Qed.

End Collect.

Lemma collect_parses_outputs_witness :
  (fun r => match r with
            | Ok (Some data) =>
                map (fun g => (uuid g, map pid (processes g))) (gpus data)
            | _ => []
            end)
    (fst (fst (collect_gpu_stats Parser.int_decimal Parser.float_decimal
                                 gpu_box gpu_box gpu_box "t" box_collector)))
  = [("GPU-abc"%string, [123])].
Proof.
  rewrite (collect_parses_outputs Parser.int_decimal Parser.float_decimal
             gpu_box gpu_box gpu_box "t" box_collector
             test_gpu_row "0, GPU-abc" "123, python, GPU-abc, 512").
  - vm_compute. reflexivity.
  - split; [reflexivity|]. exists EmptyString. reflexivity.
  - split; [reflexivity|]. exists EmptyString. reflexivity.
  - split; [reflexivity|]. exists EmptyString. reflexivity.
Defined.

Section Loop.
Context {F R : Type}.
Variable interval : Z.
Variable max_retries : Z.

Local Abbreviation cycle := (cycle F R).
Local Abbreviation call := (call F).
Local Abbreviation while_true := (@while_true F R interval).
Local Abbreviation start_collection := (@start_collection F R interval).

Implicit Types (script pre post : list cycle) (cs : list call) (rc : Z)
         (callback : bool).

(** X9. [disconnect()] is the way out of [start_collection], whatever the
    exit: while the loop runs it has not been called, and once the loop is
    left, by giving up, by an interrupt or by an exception, it has been
    called once, as the last call. *)
Theorem disconnect_on_every_exit callback script :
  match state (start_collection callback max_retries script) with
  | Running =>
      disconnects (calls (start_collection callback max_retries script)) = 0%nat
  | Exited _ =>
      disconnects (calls (start_collection callback max_retries script)) = 1%nat
      /\ last (calls (start_collection callback max_retries script))
         = Some CallDisconnect
  end.
Proof.
  pose proof (CollectorProps.while_true_disconnects
                interval callback max_retries script 0 []) as Hd.
  unfold Collector.start_collection.
  destruct (state (while_true callback max_retries script 0 [])) eqn:Hs;
    simpl; rewrite ?Hs; simpl.
  - exact Hd.
  - split; [|apply last_snoc].
    rewrite CollectorProps.disconnects_app, Hd. reflexivity.
Qed.

Lemma delivered_app cs cs' : delivered (cs ++ cs') = delivered cs ++ delivered cs'.
Proof.
  induction cs as [|[| | |] cs IH]; simpl; rewrite ?IH; reflexivity.
Qed.

Lemma sleeps_app cs cs' : sleeps (cs ++ cs') = sleeps cs ++ sleeps cs'.
Proof.
  induction cs as [|[| | |] cs IH]; simpl; rewrite ?IH; reflexivity.
Qed.

Lemma no_callback_no_delivery script rc cs :
  delivered (calls (while_true false max_retries script rc cs)) = delivered cs.
Proof.
  revert rc cs. induction script as [|c script IH]; intros rc cs; [reflexivity|].
  assert (Hc : delivered (cs ++ [CallCollect]) = delivered cs)
    by (rewrite delivered_app; simpl; apply app_nil_r).
  simpl. destruct (collected c) as [[d|]|e]; simpl.
  - unfold call_back.
    assert (Hs : delivered ((cs ++ [CallCollect]) ++ [CallSleep interval])
                 = delivered cs)
      by (rewrite delivered_app, Hc; simpl; apply app_nil_r).
    destruct (slept c); simpl; [rewrite IH|]; exact Hs.
  - destruct (rc + 1 >=? max_retries); simpl; [|rewrite IH]; exact Hc.
  - exact Hc.
Qed.

(** X10. Without a callback, nothing is handed over: the trace of the loop
    holds no call of a callback, whatever the polls return. *)
Theorem no_callback_no_call script :
  delivered (calls (start_collection false max_retries script)) = [].
Proof.
  pose proof (no_callback_no_delivery script 0 []) as Hd.
  unfold Collector.start_collection.
  destruct (state (while_true false max_retries script 0 [])); simpl;
    [exact Hd|].
  rewrite delivered_app, Hd. reflexivity.
Qed.

Lemma delivery_in_order script rc cs :
  exists k,
    k `prefix_of` collected_snapshots script
    /\ delivered (calls (while_true true max_retries script rc cs))
       = delivered cs ++ k
    /\ (state (while_true true max_retries script rc cs) = Running ->
        k = collected_snapshots script).
Proof.
  revert rc cs. induction script as [|c script IH]; intros rc cs.
  - exists []. simpl. rewrite app_nil_r. auto.
  - assert (Hc : delivered (cs ++ [CallCollect]) = delivered cs)
      by (rewrite delivered_app; simpl; apply app_nil_r).
    simpl. destruct (collected c) as [[d|]|e]; simpl.
    + unfold call_back.
      assert (Hd : delivered ((cs ++ [CallCollect]) ++ [CallCallback d])
                   = delivered cs ++ [d])
        by (rewrite delivered_app, Hc; reflexivity).
      destruct (called_back c) as [v|e]; simpl.
      * destruct (slept c) as [u|e]; simpl.
        -- destruct (IH 0 (((cs ++ [CallCollect]) ++ [CallCallback d])
                             ++ [CallSleep interval])) as (k & Hk & Hdel & Hrun).
           exists (d :: k). split; [apply prefix_cons; exact Hk|].
           split.
           ++ rewrite Hdel, delivered_app, Hd. simpl.
              rewrite app_nil_r, <- app_assoc. reflexivity.
           ++ intros Hs. rewrite (Hrun Hs). reflexivity.
        -- exists [d]. split; [apply prefix_cons, prefix_nil|].
           split; [|discriminate].
           rewrite delivered_app, Hd. simpl. apply app_nil_r.
      * exists [d]. split; [apply prefix_cons, prefix_nil|].
        split; [exact Hd|discriminate].
    + destruct (rc + 1 >=? max_retries); simpl.
      * exists []. split; [apply prefix_nil|].
        split; [rewrite app_nil_r; exact Hc|discriminate].
      * destruct (IH (rc + 1) (cs ++ [CallCollect])) as (k & Hk & Hdel & Hrun).
        exists k. split; [exact Hk|]. split; [|exact Hrun].
        rewrite Hdel, Hc. reflexivity.
    + exists []. split; [apply prefix_nil|].
      split; [rewrite app_nil_r; exact Hc|discriminate].
Qed.

(** X11. The callback gets the snapshots of the successful polls, each
    once and in the order of the polls: what has been handed over is a
    beginning of the list of collected snapshots, and the whole list as long
    as the loop runs. *)
Theorem snapshots_delivered_in_order script :
  delivered (calls (start_collection true max_retries script))
    `prefix_of` collected_snapshots script
  /\ (state (start_collection true max_retries script) = Running ->
      delivered (calls (start_collection true max_retries script))
      = collected_snapshots script).
Proof.
  destruct (delivery_in_order script 0 []) as (k & Hk & Hdel & Hrun).
  simpl in Hdel.
  rewrite CollectorProps.start_collection_state.
  unfold Collector.start_collection.
  destruct (state (while_true true max_retries script 0 [])) eqn:Hs; simpl.
  - rewrite Hdel. split; [exact Hk|]. intros _. apply Hrun. reflexivity.
  - rewrite delivered_app, Hdel. simpl. rewrite app_nil_r.
    split; [exact Hk|discriminate].
Qed.

Lemma counter_and_give_up callback script rc cs :
  0 <= rc < max_retries ->
  (state (while_true callback max_retries script rc cs) = Exited MaxRetries
   /\ retry_count (while_true callback max_retries script rc cs) = max_retries)
  \/ (state (while_true callback max_retries script rc cs) <> Exited MaxRetries
      /\ 0 <= retry_count (while_true callback max_retries script rc cs)
         < max_retries).
Proof.
  revert rc cs. induction script as [|c script IH]; intros rc cs Hrc.
  - right. simpl. split; [discriminate|exact Hrc].
  - assert (Hh : forall e, Exited (handler e) <> Exited (@MaxRetries))
      by (intros e H; inversion H as [H'];
          exact (CollectorProps.handler_not_max_retries e H')).
    simpl. destruct (collected c) as [[d|]|e]; simpl.
    + destruct (call_back callback c d (cs ++ [CallCollect])) as [[u|e] cs'];
        simpl; [|right; split; [apply Hh|lia]].
      destruct (slept c); simpl; [apply IH; lia|right; split; [apply Hh|lia]].
    + destruct (rc + 1 >=? max_retries) eqn:Hge; simpl.
      * left. split; [reflexivity|lia].
      * apply IH. lia.
    + right. split; [apply Hh|lia].
Qed.

(** X12. With a limit of at least 1, the consecutive-failure counter stays
    between 0 and [max_retries], and it reaches [max_retries] exactly when
    the loop gives up. *)
Theorem counter_bounded callback script :
  1 <= max_retries ->
  0 <= retry_count (start_collection callback max_retries script) <= max_retries
  /\ (state (start_collection callback max_retries script) = Exited MaxRetries
      <-> retry_count (start_collection callback max_retries script)
          = max_retries).
Proof.
  intros Hm.
  assert (Hrc : retry_count (start_collection callback max_retries script)
                = retry_count (while_true callback max_retries script 0 [])).
  { unfold Collector.start_collection.
    destruct (state (while_true callback max_retries script 0 [])); reflexivity. }
  rewrite CollectorProps.start_collection_state, Hrc.
  destruct (counter_and_give_up callback script 0 [] ltac:(lia))
    as [[Hs Hr]|[Hs Hr]].
  - rewrite Hs, Hr. split; [lia|]. split; auto.
  - split; [lia|]. split; [intros H; contradiction|lia].
Qed.

(** X13. With a limit of 1 or less (0 and negative limits included) the
    first failed poll ends the loop: it is not retried, and [disconnect()]
    follows at once. *)
Theorem first_failure_gives_up callback pre (c : cycle) post :
  max_retries <= 1 ->
  state (start_collection callback max_retries pre) = Running ->
  failed c ->
  state (start_collection callback max_retries (pre ++ c :: post))
  = Exited MaxRetries
  /\ calls (start_collection callback max_retries (pre ++ c :: post))
     = calls (start_collection callback max_retries pre)
       ++ [CallCollect; CallDisconnect].
Proof.
  intros Hm Hrun Hc.
  pose proof (CollectorProps.start_collection_running
                interval callback max_retries pre Hrun) as Hr0.
  rewrite CollectorProps.start_collection_state in Hrun.
  destruct (CollectorProps.while_true_counter
              interval callback max_retries pre 0 [] ltac:(lia)) as [H0 _].
  rewrite Hr0. unfold Collector.start_collection.
  rewrite CollectorProps.while_true_app, Hrun.
  unfold failed in Hc. simpl. rewrite Hc.
  destruct (_ + 1 >=? max_retries) eqn:Hge; [|lia].
  simpl. split; [reflexivity|]. rewrite <- app_assoc. reflexivity.
Qed.

Lemma sleeps_bounded callback script rc cs :
  exists n,
    sleeps (calls (while_true callback max_retries script rc cs))
    = sleeps cs ++ replicate n interval
    /\ (n <= length (collected_snapshots script))%nat.
Proof.
  revert rc cs. induction script as [|c script IH]; intros rc cs.
  - exists 0%nat. simpl. rewrite app_nil_r. auto.
  - assert (Hc : sleeps (cs ++ [CallCollect]) = sleeps cs)
      by (rewrite sleeps_app; simpl; apply app_nil_r).
    simpl. destruct (collected c) as [[d|]|e]; simpl.
    + assert (Hcb : sleeps (snd (call_back callback c d (cs ++ [CallCollect])))
                    = sleeps cs).
      { unfold call_back. destruct callback; [|exact Hc].
        destruct (called_back c); simpl; rewrite sleeps_app, Hc; simpl;
          apply app_nil_r. }
      destruct (call_back callback c d (cs ++ [CallCollect])) as [[u|e] cs'];
        simpl in *.
      * destruct (slept c) as [u'|e]; simpl.
        -- destruct (IH 0 (cs' ++ [CallSleep interval])) as (n & Hn & Hle).
           exists (S n). split; [|lia].
           rewrite Hn, sleeps_app, Hcb. simpl. rewrite <- app_assoc. reflexivity.
        -- exists 1%nat. split; [|lia]. rewrite sleeps_app, Hcb. reflexivity.
      * exists 0%nat. split; [|lia]. rewrite app_nil_r. exact Hcb.
    + destruct (rc + 1 >=? max_retries); simpl.
      * exists 0%nat. split; [|lia]. rewrite app_nil_r. exact Hc.
      * destruct (IH (rc + 1) (cs ++ [CallCollect])) as (n & Hn & Hle).
        exists n. split; [|exact Hle]. rewrite Hn, Hc. reflexivity.
    + exists 0%nat. split; [|lia]. rewrite app_nil_r. exact Hc.
Qed.

(** The loop only adds to the trace, and a pass through its body starts
    with the poll. *)
Lemma while_true_extends callback script rc cs :
  exists extra,
    calls (while_true callback max_retries script rc cs) = cs ++ extra
    /\ match script with
       | [] => extra = []
       | _ :: _ => exists more, extra = CallCollect :: more
       end.
Proof.
  revert rc cs. induction script as [|c script IH]; intros rc cs.
  - exists []. simpl. rewrite app_nil_r. auto.
  - assert (Hnext : forall rc' tail,
               exists more,
                 calls (while_true callback max_retries script rc'
                                   ((cs ++ [CallCollect]) ++ tail))
                 = cs ++ CallCollect :: more).
    { intros rc' tail. destruct (IH rc' ((cs ++ [CallCollect]) ++ tail))
        as (extra & -> & _).
      exists (tail ++ extra). rewrite <- !app_assoc. reflexivity. }
    assert (Hgoal : exists more,
               calls (while_true callback max_retries (c :: script) rc cs)
               = cs ++ CallCollect :: more).
    { simpl. destruct (collected c) as [[d|]|e]; simpl.
      - unfold call_back. destruct callback.
        + destruct (called_back c) as [r|e]; simpl.
          * destruct (slept c) as [u|e]; simpl.
            -- destruct (Hnext 0 [CallCallback d; CallSleep interval])
                 as [more Hmore].
               exists more. rewrite <- Hmore. f_equal.
               rewrite <- !app_assoc. reflexivity.
            -- exists [CallCallback d; CallSleep interval].
               rewrite <- !app_assoc. reflexivity.
          * exists [CallCallback d]. rewrite <- !app_assoc. reflexivity.
        + destruct (slept c) as [u|e]; simpl.
          * destruct (Hnext 0 [CallSleep interval]) as [more Hmore].
            exists more. rewrite <- Hmore. reflexivity.
          * exists [CallSleep interval]. rewrite <- !app_assoc. reflexivity.
      - destruct (rc + 1 >=? max_retries); simpl.
        + exists []. reflexivity.
        + destruct (Hnext (rc + 1) []) as [more Hmore].
          exists more. rewrite <- Hmore, app_nil_r. reflexivity.
      - exists []. reflexivity. }
    destruct Hgoal as [more Hmore]. exists (CallCollect :: more). eauto.
Qed.

(** X14. The loop sleeps for [interval] and for nothing else, and at most
    once for each poll that returned a snapshot.  A failed poll is never
    followed by a sleep: in the trace of a loop that was running when a
    poll failed, the call of that poll is followed by nothing, by the
    poll of the next pass, or by [disconnect()]. *)
Theorem sleeps_follow_snapshots callback script :
  (exists n,
      sleeps (calls (start_collection callback max_retries script))
      = replicate n interval
      /\ (n <= length (collected_snapshots script))%nat)
  /\ (forall pre (c : cycle) post,
         script = pre ++ c :: post ->
         state (start_collection callback max_retries pre) = Running ->
         failed c ->
         exists rest,
           calls (start_collection callback max_retries script)
           = calls (start_collection callback max_retries pre)
             ++ CallCollect :: rest
           /\ (rest = [] \/ rest = [CallDisconnect]
               \/ exists more, rest = CallCollect :: more)).
Proof.
  split.
  - destruct (sleeps_bounded callback script 0 []) as (n & Hn & Hle).
    exists n. split; [|exact Hle].
    unfold Collector.start_collection.
    destruct (state (while_true callback max_retries script 0 [])); simpl.
    + exact Hn.
    + rewrite sleeps_app, Hn. simpl. apply app_nil_r.
  - intros pre c post -> Hrun Hc.
    pose proof (CollectorProps.start_collection_running
                  interval callback max_retries pre Hrun) as Hr0.
    rewrite CollectorProps.start_collection_state in Hrun.
    rewrite Hr0. unfold Collector.start_collection.
    rewrite CollectorProps.while_true_app, Hrun.
    unfold failed in Hc. simpl. rewrite Hc.
    set (cs0 := calls (while_true callback max_retries pre 0 [])).
    set (rc0 := retry_count (while_true callback max_retries pre 0 [])).
    destruct (rc0 + 1 >=? max_retries).
    + simpl. exists [CallDisconnect]. split; [|auto].
      rewrite <- app_assoc. reflexivity.
    + destruct (while_true_extends callback post (rc0 + 1)
                                   (cs0 ++ [CallCollect]))
        as (extra & Hextra & Hshape).
      destruct (state (while_true callback max_retries post (rc0 + 1)
                                  (cs0 ++ [CallCollect]))) eqn:Hst.
      * exists extra. rewrite Hextra, <- app_assoc. split; [reflexivity|].
        destruct post; [left; exact Hshape|right; right; exact Hshape].
      * simpl. destruct post as [|c' post]; [discriminate Hst|].
        destruct Hshape as [more ->].
        exists (CallCollect :: more ++ [CallDisconnect]).
        rewrite Hextra, <- !app_assoc. split; [reflexivity|eauto].
Qed.

End Loop.

Lemma counter_bounded_witness :
  0 <= retry_count (start_collection 5 true 3 two_by_two) <= 3
  /\ (state (start_collection 5 true 3 two_by_two) = Exited MaxRetries
      <-> retry_count (start_collection 5 true 3 two_by_two) = 3).
Proof. apply (counter_bounded 5 3 true two_by_two). lia. Defined.

Lemma first_failure_gives_up_witness :
  state (start_collection 5 true 0 ([succeed] ++ Examples.fail :: [succeed]))
  = Exited MaxRetries
  /\ calls (start_collection 5 true 0 ([succeed] ++ Examples.fail :: [succeed]))
     = calls (start_collection 5 true 0 [succeed])
       ++ [CallCollect; CallDisconnect].
Proof.
  apply (first_failure_gives_up 5 0 true [succeed] Examples.fail [succeed]).
  - lia.
  - reflexivity.
  - reflexivity.
Defined.

End CollectorExtra.

(** ** The parser *)
Module ParserExtra.
Import PyStr Parser Observe Examples MoreExamples.

(** A loop that returns has run its body on every element. *)
Lemma for_each_ok_inv {A S : Type} (body : S -> A -> result S)
      (xs : list A) (s s' : S) :
  for_each body xs s = Ok s' ->
  forall x, In x xs -> exists s1 s2, body s1 x = Ok s2.
Proof.
  revert s. induction xs as [|y xs IH]; intros s Hrun x Hin; [destruct Hin|].
  simpl in Hrun. destruct (body s y) as [s1|e] eqn:Hb; [|discriminate].
  destruct Hin as [<-|Hin]; [eauto|]. exact (IH s1 Hrun x Hin).
Qed.

(** A loop that raises raises what its body raised on some element. *)
Lemma for_each_raise_inv {A S : Type} (body : S -> A -> result S)
      (xs : list A) (s : S) (e : exc) :
  for_each body xs s = Raise e ->
  exists s1 x, In x xs /\ body s1 x = Raise e.
Proof.
  revert s. induction xs as [|y xs IH]; intros s Hrun; [discriminate|].
  simpl in Hrun. destruct (body s y) as [s1|e'] eqn:Hb.
  - destruct (IH s1 Hrun) as (s2 & x & Hin & Hx). exists s2, x.
    split; [right; exact Hin|exact Hx].
  - inversion Hrun; subst. exists s, y. split; [left; reflexivity|exact Hb].
Qed.

Section Parse.
Context {F : Type}.
Variable py_int : string -> option Z.
Variable py_float : string -> option F.

Local Abbreviation make_gpu := (@make_gpu F py_int py_float).
Local Abbreviation stats_row := (@stats_row F py_int py_float).
Local Abbreviation process_row := (@process_row F py_int py_float).
Local Abbreviation process_of := (@process_of F py_int py_float).
Local Abbreviation stats_fields_ok := (@stats_fields_ok F py_int py_float).
Local Abbreviation parse := (@parse F py_int py_float).

Lemma to_int_raise (s : string) (e : exc) :
  to_int py_int s = Raise e -> e = ValueError.
Proof. unfold to_int. destruct (py_int s); intros H; inversion H. reflexivity. Qed.

Lemma to_float_raise (s : string) (e : exc) :
  to_float py_float s = Raise e -> e = ValueError.
Proof. unfold to_float. destruct (py_float s); intros H; inversion H. reflexivity. Qed.

(** A record is built only from eleven convertible fields, and building one
    raises nothing but [ValueError]. *)
Lemma make_gpu_result m ps :
  match make_gpu m ps with
  | Ok _ => stats_fields_ok ps = true
  | Raise e => e = ValueError /\ stats_fields_ok ps = false
  end.
Proof.
  unfold Parser.make_gpu, Parser.stats_fields_ok.
  do 11 (destruct ps as [|? ps]; [split; reflexivity|]).
  destruct ps; [|split; reflexivity].
  unfold to_int, to_float. simpl.
  repeat match goal with
         | |- context [py_int ?x] =>
             destruct (py_int x) eqn:?; simpl;
             [rewrite ?bool_decide_eq_true_2 by eauto
             |rewrite ?bool_decide_eq_false_2 by (intros [? ?]; discriminate);
              simpl; rewrite ?andb_false_r; split; reflexivity]
         | |- context [py_float ?x] =>
             destruct (py_float x) eqn:?; simpl;
             [rewrite ?bool_decide_eq_true_2 by eauto
             |rewrite ?bool_decide_eq_false_2 by (intros [? ?]; discriminate);
              simpl; rewrite ?andb_false_r; try (split; reflexivity)]
         | |- context [truthy ?x] => destruct (truthy x) eqn:?; simpl
         end; try reflexivity; try (split; reflexivity).
Qed.

Lemma uuid_row_result (acc : gmap string string) (line : string) :
  match uuid_row acc line with
  | Ok _ => (2 <= length (parts line))%nat -> length (parts line) = 2%nat
  | Raise e => e = ValueError /\ (2 < length (parts line))%nat
  end.
Proof.
  unfold uuid_row. destruct (truthy (strip line)) eqn:Hb.
  - destruct (parts line) as [|a [|b [|c l]]]; simpl; try lia.
    split; [reflexivity|lia].
  - rewrite (ParserProps.blank_line_parts line Hb). simpl. lia.
Qed.

Lemma stats_row_result m (gs : list (GPU F)) (line : string) :
  match stats_row m gs line with
  | Ok _ => (11 <= length (parts line))%nat -> stats_fields_ok (parts line) = true
  | Raise e => e = ValueError
               /\ (11 <= length (parts line))%nat
               /\ stats_fields_ok (parts line) = false
  end.
Proof.
  destruct (stats_line line) eqn:Hl.
  - rewrite (ParserProps.stats_row_keep py_int py_float m gs line Hl).
    rewrite ParserProps.stats_line_fields in Hl. apply Nat.leb_le in Hl.
    pose proof (make_gpu_result m (parts line)) as Hg.
    destruct (make_gpu m (parts line)); [auto|].
    destruct Hg as [-> Hf]. auto.
  - rewrite (ParserProps.stats_row_skip py_int py_float m gs line Hl).
    rewrite ParserProps.stats_line_fields in Hl. apply Nat.leb_gt in Hl. lia.
Qed.

Lemma process_row_result (gs : list (GPU F)) (line : string) :
  match process_row gs line with
  | Ok _ => (4 <= length (parts line))%nat -> is_Some (process_of (parts line))
  | Raise e => e = ValueError
               /\ (4 <= length (parts line))%nat
               /\ process_of (parts line) = None
  end.
Proof.
  destruct (process_line line) eqn:Hl.
  - rewrite (ParserProps.process_row_keep py_int py_float gs line Hl).
    rewrite ParserProps.process_line_fields in Hl. apply Nat.leb_le in Hl.
    destruct (process_of (parts line)) as [[p u]|]; [eauto|auto].
  - rewrite (ParserProps.process_row_skip py_int py_float gs line Hl).
    rewrite ParserProps.process_line_fields in Hl. apply Nat.leb_gt in Hl. lia.
Qed.

(** X15. The parser returns a snapshot exactly for the blobs in which no
    row has more fields than it unpacks (2, 11 and 4) and the numeric fields
    convert; on every other input it raises, and what it raises is
    [ValueError]. *)
Theorem parse_returns_iff (now server_name server_host a b c : string) :
  ((exists data, parse now server_name server_host a b c = Ok data) <->
   uuid_table_ok b /\ stats_table_ok py_int py_float a
   /\ process_table_ok py_int py_float c)
  /\ (forall e, parse now server_name server_host a b c = Raise e ->
                e = ValueError).
Proof.
  split; [split|].
  - intros [data Hrun]. unfold Parser.parse in Hrun.
    destruct (parse_uuid_map b) as [m|e] eqn:Hm; [|discriminate].
    simpl in Hrun.
    destruct (parse_stats py_int py_float m a) as [gs|e] eqn:Hgs; [|discriminate].
    simpl in Hrun.
    destruct (parse_processes py_int py_float gs c) as [gs'|e] eqn:Hps;
      [|discriminate].
    split; [|split]; intros line Hin Hlen.
    + destruct (for_each_ok_inv _ _ _ _ Hm line Hin) as (s1 & s2 & Hrow).
      pose proof (uuid_row_result s1 line) as Hr. rewrite Hrow in Hr. auto.
    + destruct (for_each_ok_inv _ _ _ _ Hgs line Hin) as (s1 & s2 & Hrow).
      pose proof (stats_row_result m s1 line) as Hr.
      rewrite Hrow in Hr. auto.
    + destruct (for_each_ok_inv _ _ _ _ Hps line Hin) as (s1 & s2 & Hrow).
      pose proof (process_row_result s1 line) as Hr.
      rewrite Hrow in Hr. auto.
  - intros (Hb & Ha & Hc). unfold Parser.parse.
    destruct (ParserProps.uuid_loop_ok (lines b) ∅ Hb) as [m Hm].
    unfold parse_uuid_map. rewrite Hm. simpl.
    destruct (ParserProps.stats_loop_ok py_int py_float m (lines a) [])
      as (gs & Hgs & _).
    { intros line Hin Hl. apply Ha; [exact Hin|].
      rewrite ParserProps.stats_line_fields in Hl. apply Nat.leb_le. exact Hl. }
    unfold parse_stats. rewrite Hgs. simpl.
    unfold parse_processes. rewrite ParserProps.process_loop_ok.
    + simpl. eauto.
    + intros line Hin Hl. apply Hc; [exact Hin|].
      rewrite ParserProps.process_line_fields in Hl. apply Nat.leb_le. exact Hl.
  - intros e Hrun. unfold Parser.parse in Hrun.
    destruct (parse_uuid_map b) as [m|e1] eqn:Hm.
    2:{ simpl in Hrun. inversion Hrun; subst.
        destruct (for_each_raise_inv _ _ _ _ Hm) as (s1 & line & _ & Hrow).
        pose proof (uuid_row_result s1 line) as Hr. rewrite Hrow in Hr. tauto. }
    simpl in Hrun.
    destruct (parse_stats py_int py_float m a) as [gs|e1] eqn:Hgs.
    2:{ simpl in Hrun. inversion Hrun; subst.
        destruct (for_each_raise_inv _ _ _ _ Hgs) as (s1 & line & _ & Hrow).
        pose proof (stats_row_result m s1 line) as Hr.
        rewrite Hrow in Hr. tauto. }
    simpl in Hrun.
    destruct (parse_processes py_int py_float gs c) as [gs'|e1] eqn:Hps;
      [discriminate|].
    simpl in Hrun. inversion Hrun; subst.
    destruct (for_each_raise_inv _ _ _ _ Hps) as (s1 & line & _ & Hrow).
    pose proof (process_row_result s1 line) as Hr.
    rewrite Hrow in Hr. tauto.
Qed.

(** *** The uuid table *)

Lemma uuid_loop_rows (ls : list string) (acc m : gmap string string) :
  for_each uuid_row ls acc = Ok m ->
  m = fold_left put
                (omap (fun line => match parts line with
                                   | [idx; u] => Some (idx, u)
                                   | _ => None
                                   end) ls) acc.
Proof.
  revert acc. induction ls as [|line ls IH]; intros acc Hrun.
  - simpl in Hrun. inversion Hrun. reflexivity.
  - simpl in Hrun. destruct (uuid_row acc line) as [m1|e] eqn:Hrow; [|discriminate].
    rewrite (IH m1 Hrun). simpl.
    unfold uuid_row in Hrow. destruct (truthy (strip line)) eqn:Hb.
    + destruct (parts line) as [|a [|b' [|c' l]]]; simpl in *;
        inversion Hrow; subst; reflexivity.
    + pose proof (ParserProps.blank_line_parts line Hb) as Hlen.
      destruct (parts line) as [|a [|b' l]]; try discriminate.
      inversion Hrow; subst. reflexivity.
Qed.

Lemma put_other (rows : list (string * string)) (acc : gmap string string)
      (idx : string) :
  (forall u, ~ In (idx, u) rows) ->
  fold_left put rows acc !! idx = acc !! idx.
Proof.
  revert acc. induction rows as [|[i u] rows IH]; intros acc Hno; [reflexivity|].
  simpl. rewrite IH.
  - unfold put. simpl. apply lookup_insert_ne. intros ->.
    exact (Hno u (or_introl eq_refl)).
  - intros u' Hin. exact (Hno u' (or_intror Hin)).
Qed.

(** X16. In the index-to-uuid mapping the last row of an index wins: an
    index has the uuid of the last two-field row of the uuid table that
    names it, and no entry when no such row names it. *)
Theorem last_uuid_row_wins (blob : string) (m : gmap string string) :
  parse_uuid_map blob = Ok m ->
  (forall before idx u after,
      uuid_rows blob = before ++ (idx, u) :: after ->
      (forall u', ~ In (idx, u') after) ->
      m !! idx = Some u)
  /\ (forall idx, (forall u, ~ In (idx, u) (uuid_rows blob)) -> m !! idx = None).
Proof.
  intros Hrun. apply uuid_loop_rows in Hrun. fold (uuid_rows blob) in Hrun.
  subst m. split.
  - intros before idx u after Hrows Hlast. rewrite Hrows, fold_left_app. simpl.
    rewrite (put_other after _ idx Hlast). unfold put. simpl.
    apply lookup_insert_eq.
  - intros idx Hno. rewrite (put_other _ _ idx Hno). apply lookup_empty.
Qed.

(** *** Counting processes *)

Lemma attach_total (p : Process F) (u : string) (gs : list (GPU F)) :
  total_processes (attach p u gs)
  = (total_processes gs + (if has_uuid gs u then 1 else 0))%nat.
Proof.
  unfold has_uuid. induction gs as [|g gs IH]; [reflexivity|].
  simpl. destruct (String.eqb (uuid g) u); simpl.
  - rewrite length_app. simpl. lia.
  - rewrite IH. lia.
Qed.

Lemma attach_uuids (p : Process F) (u : string) (gs : list (GPU F)) :
  map uuid (attach p u gs) = map uuid gs.
Proof.
  induction gs as [|g gs IH]; [reflexivity|].
  simpl. destruct (String.eqb (uuid g) u); simpl; [reflexivity|].
  rewrite IH. reflexivity.
Qed.

Lemma has_uuid_by_uuids (gs gs' : list (GPU F)) (u : string) :
  map uuid gs = map uuid gs' -> has_uuid gs u = has_uuid gs' u.
Proof.
  unfold has_uuid. revert gs'. induction gs as [|g gs IH]; intros [|g' gs'] H;
    try discriminate; [reflexivity|].
  simpl in *. inversion H as [[H1 H2]]. rewrite H1, (IH gs' H2). reflexivity.
Qed.

(** X17. Attaching the processes keeps the GPUs and their order, and adds
    one process for each row whose uuid is that of some GPU and none for
    the others: the processes in the snapshot are never more than the rows
    of the process table. *)
Theorem attached_processes_counted
        (rows : list (Process F * string)) (gs : list (GPU F)) :
  map uuid (attach_all rows gs) = map uuid gs
  /\ total_processes (attach_all rows gs)
     = (total_processes gs
        + length (List.filter (fun row => has_uuid gs (snd row)) rows))%nat
  /\ (total_processes (attach_all rows gs)
      <= total_processes gs + length rows)%nat.
Proof.
  assert (Hmain : map uuid (attach_all rows gs) = map uuid gs
                  /\ total_processes (attach_all rows gs)
                     = (total_processes gs
                        + length (List.filter (fun row => has_uuid gs (snd row))
                                              rows))%nat).
  { revert gs. induction rows as [|[p u] rows IH]; intros gs.
    - simpl. split; [reflexivity|lia].
    - unfold attach_all in *. simpl.
      destruct (IH (attach p u gs)) as [Hu Ht].
      split; [rewrite Hu; apply attach_uuids|].
      rewrite Ht, attach_total.
      rewrite (List.filter_ext
                 (fun row => has_uuid (attach p u gs) (snd row))
                 (fun row => has_uuid gs (snd row)))
        by (intros row; apply has_uuid_by_uuids, attach_uuids).
      destruct (has_uuid gs u); simpl; lia. }
  destruct Hmain as [Hu Ht]. split; [exact Hu|]. split; [exact Ht|].
  rewrite Ht. pose proof (List.filter_length_le
                            (fun row => has_uuid gs (snd row)) rows). lia.
Qed.

End Parse.

Lemma last_uuid_row_wins_witness :
  exists m, parse_uuid_map repeated_index = Ok m
            /\ m !! "0"%string = Some "GPU-new"%string.
Proof.
  exists (<["0"%string := "GPU-new"%string]> (<["0"%string := "GPU-old"%string]> ∅)).
  assert (Hrun : parse_uuid_map repeated_index
                 = Ok (<["0"%string := "GPU-new"%string]>
                         (<["0"%string := "GPU-old"%string]> ∅)))
    by reflexivity.
  split; [exact Hrun|].
  apply (proj1 (last_uuid_row_wins repeated_index _ Hrun)
               [("0"%string, "GPU-old"%string)] "0"%string "GPU-new"%string []).
  - reflexivity.
  - intros u' [].
Defined.

End ParserExtra.

Module StoreExtra.
Import PyStr Store Disk Examples MoreExamples StoreProps.

Lemma process_path_not_dir (dir day : string) (idx : Z) :
  path_join dir (process_name idx day) <> dir.
Proof.
  destruct (path_join_relative dir (process_name idx day)) as [sep ->];
    [reflexivity|].
  intros H. apply (f_equal String.length) in H.
  rewrite !length_app_string in H. simpl in H. lia.
Qed.

Section Store.
Context {F : Type}.
Variable env : Env.
Variable base_dir : string.

Local Abbreviation World := (World F).
Local Abbreviation M := (@M F).
Local Abbreviation store_gpus := (@store_gpus F env base_dir).
Local Abbreviation store_processes := (@store_processes F env base_dir).
Local Abbreviation write_processes := (@write_processes F env).
Local Abbreviation store_data := (@store_data F env base_dir).
Local Abbreviation server_dir := (server_dir base_dir).
Local Abbreviation stats_path := (stats_path base_dir).
Local Abbreviation process_path := (process_path base_dir).
Local Abbreviation grows := (@grows F).
Local Abbreviation is_process_path := (is_process_path base_dir).
Local Abbreviation prepared := (@prepared F base_dir).
Local Abbreviation unprepared := (@unprepared F env base_dir).
Local Abbreviation made_dirs := (@made_dirs F).
Local Abbreviation add_dirs := (@add_dirs F).
Local Abbreviation contents := (@contents F).

(** *** What a step adds to a file *)

Lemma open_append_contents (file : string) w (r : result unit) w' :
  open_append env file w = (r, w') -> contents w' file = contents w file.
Proof.
  unfold open_append. intros H.
  apply io_inv in H as [(_ & -> & _)|(cls & _ & -> & _)]; unfold Disk.contents;
    simpl; [rewrite lookup_insert_eq|]; reflexivity.
Qed.

Lemma write_contents (file : string) (l : line F) w (r : result unit) w' :
  write env file l w = (r, w') ->
  contents w' file
  = contents w file ++ match r with Ok _ => [l] | Raise _ => [] end.
Proof.
  unfold write. intros H.
  apply io_inv in H as [(-> & -> & _)|(cls & -> & -> & _)]; unfold Disk.contents;
    simpl; [rewrite lookup_insert_eq|rewrite app_nil_r]; reflexivity.
Qed.

Lemma header_contents (file : string) (row : list (string * cell F))
      (skip : bool) w (r : result unit) w' :
  (if negb skip then writeheader env file row else ret tt) w = (r, w') ->
  contents w' file
  = contents w file ++ match r with
                       | Ok _ => if skip then [] else [Header (map fst row)]
                       | Raise _ => []
                       end.
Proof.
  destruct skip; simpl; intros H.
  - apply ret_inv in H as [-> ->]. rewrite app_nil_r. reflexivity.
  - apply write_contents in H. exact H.
Qed.

Lemma stats_lines_present (ts : string) (gs : list (GPU F)) :
  stats_lines ts true gs = stats_rows ts gs.
Proof. destruct gs; reflexivity. Qed.

Lemma process_lines_present (ts : string) (idx : Z) (procs : list (Process F)) :
  process_lines ts idx true procs = process_rows ts idx procs.
Proof. destruct procs; reflexivity. Qed.

(** Whatever the loop over the processes does, and wherever it stops, the
    process file has gained a beginning of the lines of a complete pass. *)
Lemma write_processes_added (file ts : string) (idx : Z) (pfe : bool)
      (procs : list (Process F)) w (r : result unit) w' :
  write_processes file ts idx pfe procs w = (r, w') ->
  exists l,
    l `prefix_of` process_lines ts idx pfe procs
    /\ contents w' file = contents w file ++ l
    /\ (r = Ok tt -> l = process_lines ts idx pfe procs).
Proof.
  revert pfe w r w'. induction procs as [|proc rest IH]; intros pfe w r w' Hrun.
  - apply ret_inv in Hrun as [-> ->]. exists []. simpl.
    rewrite app_nil_r. auto using prefix_nil.
  - simpl in Hrun.
    set (hdr := if pfe then []
                else [Header (map fst (proc_row ts idx proc))] : list (line F)).
    set (row := Row (map snd (proc_row ts idx proc)) : line F).
    assert (Hfull : process_lines ts idx pfe (proc :: rest)
                    = hdr ++ row :: process_rows ts idx rest) by reflexivity.
    rewrite Hfull.
    apply mbind_inv in Hrun as [(u0 & w0 & Hh & Hrun)|(e & Hh & ->)].
    + apply header_contents in Hh. fold hdr in Hh.
      apply mbind_inv in Hrun as [(u1 & w1 & Hw & Hrun)|(e & Hw & ->)].
      * apply write_contents in Hw. fold row in Hw.
        apply IH in Hrun as (l & [k Hk] & Hc & Hdone).
        rewrite process_lines_present in Hk, Hdone.
        exists (hdr ++ row :: l). split; [|split].
        -- exists k. rewrite Hk, <- app_assoc. reflexivity.
        -- rewrite Hc, Hw, Hh, <- !app_assoc. reflexivity.
        -- intros Hr. rewrite (Hdone Hr). reflexivity.
      * apply write_contents in Hw.
        exists hdr. split; [|split].
        -- exists (row :: process_rows ts idx rest). reflexivity.
        -- rewrite Hw, Hh, app_nil_r. reflexivity.
        -- discriminate.
    + apply header_contents in Hh.
      exists []. split; [apply prefix_nil|]. split; [exact Hh|discriminate].
Qed.

(** The same for the loop over the GPUs and the stats file. *)
Lemma store_gpus_added (server_name file ts : string) (fe : bool)
      (gs : list (GPU F)) w (r : result unit) w' :
  store_gpus server_name file ts fe gs w = (r, w') ->
  ~ is_process_path server_name file ->
  exists l,
    l `prefix_of` stats_lines ts fe gs
    /\ contents w' file = contents w file ++ l
    /\ (r = Ok tt -> l = stats_lines ts fe gs).
Proof.
  intros Hrun Hnp. revert fe w r w' Hrun.
  induction gs as [|g rest IH]; intros fe w r w' Hrun.
  - apply ret_inv in Hrun as [-> ->]. exists []. simpl.
    rewrite app_nil_r. auto using prefix_nil.
  - simpl in Hrun.
    set (hdr := if fe then []
                else [Header (map fst (gpu_row ts g))] : list (line F)).
    set (row := Row (map snd (gpu_row ts g)) : line F).
    assert (Hfull : stats_lines ts fe (g :: rest)
                    = hdr ++ row :: stats_rows ts rest) by reflexivity.
    rewrite Hfull.
    apply mbind_inv in Hrun as [(u0 & w0 & Ho & Hrun)|(e & Ho & ->)].
    + apply open_append_contents in Ho.
      apply mbind_inv in Hrun as [(u1 & w1 & Hh & Hrun)|(e & Hh & ->)].
      * apply header_contents in Hh. fold hdr in Hh.
        apply mbind_inv in Hrun as [(u2 & w2 & Hw & Hrun)|(e & Hw & ->)].
        -- apply write_contents in Hw. fold row in Hw.
           assert (Hp : forall rp wp,
                      store_processes server_name ts g w2 = (rp, wp) ->
                      contents wp file = contents w2 file).
           { intros rp wp H. apply store_processes_run in H as [(_ & _ & Hk) _].
             unfold Disk.contents. rewrite (Hk file Hnp). reflexivity. }
           apply mbind_inv in Hrun as [(u3 & w3 & Hs & Hrun)|(e & Hs & ->)].
           ++ apply Hp in Hs.
              apply IH in Hrun as (l & [k Hk] & Hc & Hdone).
              rewrite stats_lines_present in Hk, Hdone.
              exists (hdr ++ row :: l). split; [|split].
              ** exists k. rewrite Hk, <- app_assoc. reflexivity.
              ** rewrite Hc, Hs, Hw, Hh, Ho, <- !app_assoc. reflexivity.
              ** intros Hr. rewrite (Hdone Hr). reflexivity.
           ++ apply Hp in Hs.
              exists (hdr ++ [row]). split; [|split].
              ** exists (stats_rows ts rest). rewrite <- app_assoc. reflexivity.
              ** rewrite Hs, Hw, Hh, Ho, <- !app_assoc. reflexivity.
              ** discriminate.
        -- apply write_contents in Hw.
           exists hdr. split; [|split].
           ++ exists (row :: stats_rows ts rest). reflexivity.
           ++ rewrite Hw, Hh, Ho, app_nil_r. reflexivity.
           ++ discriminate.
      * apply header_contents in Hh.
        exists []. split; [apply prefix_nil|].
        split; [rewrite Hh, Ho; reflexivity|discriminate].
    + apply open_append_contents in Ho.
      exists []. split; [apply prefix_nil|].
      split; [rewrite Ho, app_nil_r; reflexivity|discriminate].
Qed.

Lemma headers_prefix (l full : list (line F)) :
  l `prefix_of` full -> (headers l <= headers full)%nat.
Proof. intros [k ->]. rewrite headers_app. lia. Qed.

Lemma stats_lines_headers (ts : string) (fe : bool) (gs : list (GPU F)) :
  (headers (stats_lines ts fe gs) <= if fe then 0 else 1)%nat.
Proof.
  destruct gs as [|g rest]; [destruct fe; simpl; lia|].
  unfold stats_lines. rewrite headers_app.
  destruct (stats_rows_count ts (g :: rest)) as [-> _].
  destruct fe; simpl; lia.
Qed.

(** The block that stores the processes of a GPU, up to the opening of
    the process file. *)
Lemma store_processes_start (server_name ts : string) (g : GPU F) w :
  processes g <> [] ->
  store_processes server_name ts g w =
  match fault env (clock w) with
  | Some cls =>
      (Raise (Exception cls),
       tick (add_dirs (take (made_before env (clock w))
                            (removelast (made_dirs w (server_dir server_name))))
                      w))
  | None =>
      let file := process_path server_name (index g) (today env (S (clock w))) in
      let w1 := prepared server_name w in
      mbind (open_append env file)
            (fun _ => write_processes file ts (index g) (exists_in w1 file)
                                      (processes g)) w1
  end.
Proof.
  intros Hne. unfold Store.store_processes.
  destruct (processes g) as [|proc procs] eqn:Hp; [congruence|].
  unfold _get_server_dir, makedirs, Store.io, date_now, path_exists.
  unfold mbind at 1. unfold mbind at 1.
  destruct (fault env (clock w)) as [cls|]; [reflexivity|].
  unfold ret at 1. unfold mbind at 1. simpl. unfold mbind at 1. reflexivity.
Qed.

Lemma exists_in_prepared_process (server_name day : string) (idx : Z) w :
  exists_in (prepared server_name w) (process_path server_name idx day)
  = exists_in w (process_path server_name idx day).
Proof.
  unfold exists_in. simpl. f_equal. apply bool_decide_ext.
  rewrite elem_of_union, elem_of_list_to_set, list_elem_of_In.
  assert (Hno : ~ In (process_path server_name idx day)
                     (made_dirs w (server_dir server_name))).
  { intros H. apply made_dirs_ancestors in H. revert H.
    apply under_not_ancestor; [reflexivity|].
    unfold process_name. simpl. discriminate. }
  tauto.
Qed.

(** X18. A call never removes or shortens a file: whatever fails, every
    file that was on the disk is still there afterwards, with its old lines
    first. *)
Theorem files_only_grow (data : Snapshot F) (w : World) :
  grows w (snd (store_data data w)).
Proof.
  unfold Store.store_data.
  destruct (Store.store_data_body env base_dir data w) as [r w'] eqn:Hb.
  apply store_data_body_sound in Hb as [_ Hg].
  destruct r as [b|e]; [exact Hg|]. destruct (is_Exception e); exact Hg.
Qed.

(** X19. A call for a server touches nothing but the stats file of the day
    on which it starts and the process files of that server: every other
    file is as it was, and the only directories that may be new are the
    server's and the directories above it. *)
Theorem other_files_untouched (data : Snapshot F) (server_name : string)
        (w : World) :
  server data = Some server_name ->
  server_name <> EmptyString ->
  (forall path,
      path <> stats_path server_name (today env (clock w)) ->
      ~ is_process_path server_name path ->
      files (snd (store_data data w)) !! path = files w !! path)
  /\ dirs (snd (store_data data w))
     ⊆ list_to_set (ancestors (server_dir server_name)) ∪ dirs w.
Proof.
  intros Hs Hne. rewrite (store_data_run env base_dir data server_name w Hs Hne).
  destruct (fault env (S (clock w))) as [cls|].
  - simpl. split; [reflexivity|]. intros x Hx.
    apply elem_of_union in Hx as [Hx|Hx]; [|set_solver].
    apply elem_of_union. left.
    apply elem_of_list_to_set, list_elem_of_In in Hx.
    apply elem_of_list_to_set, list_elem_of_In.
    exact (made_dirs_ancestors _ _ _ (removelast_incl _ _ (take_incl _ _ _ Hx))).
  - cbv zeta.
    destruct (store_gpus _ _ _ _ _ _) as [r w'] eqn:Hg.
    apply store_gpus_run in Hg as ((_ & Hd & Hk) & _ & _);
      [|apply stats_path_not_process].
    assert (Hgoal : (forall path,
                        path <> stats_path server_name (today env (clock w)) ->
                        ~ is_process_path server_name path ->
                        files w' !! path = files w !! path)
                    /\ dirs w' ⊆ list_to_set (ancestors (server_dir server_name))
                                 ∪ dirs w).
    { split.
      - intros path H1 H2. rewrite (Hk path (conj H1 H2)). reflexivity.
      - intros x Hx. apply Hd in Hx. simpl in Hx.
        apply elem_of_union in Hx as [Hx|Hx]; [set_solver|].
        apply elem_of_union in Hx as [Hx|Hx]; [|set_solver].
        apply elem_of_union. left.
        apply elem_of_list_to_set, list_elem_of_In in Hx.
        apply elem_of_list_to_set, list_elem_of_In.
        exact (made_dirs_ancestors _ _ _ Hx). }
    destruct r; exact Hgoal.
Qed.

(** X20. When no operation on the disk fails, the call returns [True]
    exactly when the snapshot names a server with a non-empty name. *)
Theorem store_succeeds_iff_named (data : Snapshot F) (w : World) :
  (forall t, fault env t = None) ->
  fst (store_data data w)
  = Ok (match server data with
        | Some server_name => truthy server_name
        | None => false
        end).
Proof.
  intros Hnf. destruct (server data) as [[|c rest]|] eqn:Hs.
  - unfold Store.store_data, Store.store_data_body. rewrite Hs. reflexivity.
  - rewrite (store_data_run env base_dir data (String c rest) w Hs)
      by discriminate.
    rewrite Hnf. cbv zeta.
    destruct (store_gpus_succeeds env base_dir Hnf (String c rest)
                (stats_path (String c rest) (today env (clock w)))
                (timestamp data)
                (exists_in (prepared (String c rest) w)
                           (stats_path (String c rest) (today env (clock w))))
                (gpus data) (prepared (String c rest) w)) as [w' ->].
    reflexivity.
  - unfold Store.store_data, Store.store_data_body. rewrite Hs. reflexivity.
Qed.

(** X21. Whatever fails and wherever the call stops, the stats file of the
    day has gained a beginning of what a complete call adds (the header
    when the file was missing, then one row per GPU in the order of the
    snapshot), and all of it when the call returns [True]; so a call adds
    no header to a file that exists and one at most to a new one. *)
Theorem stats_file_gains_prefix (data : Snapshot F) (server_name : string)
        (w : World) :
  server data = Some server_name ->
  server_name <> EmptyString ->
  let file := stats_path server_name (today env (clock w)) in
  let full := stats_lines (timestamp data) (exists_in w file) (gpus data) in
  exists l,
    l `prefix_of` full
    /\ contents (snd (store_data data w)) file = contents w file ++ l
    /\ (fst (store_data data w) = Ok true -> l = full)
    /\ (headers l <= if exists_in w file then 0 else 1)%nat.
Proof.
  intros Hs Hne file full.
  assert (Hmain : exists l,
             l `prefix_of` full
             /\ contents (snd (store_data data w)) file = contents w file ++ l
             /\ (fst (store_data data w) = Ok true -> l = full)).
  { rewrite (store_data_run env base_dir data server_name w Hs Hne).
    destruct (fault env (S (clock w))) as [cls|].
    - exists []. simpl. split; [apply prefix_nil|].
      split; [rewrite app_nil_r; reflexivity|discriminate].
    - cbv zeta. rewrite exists_in_prepared. fold file.
      destruct (store_gpus _ _ _ _ _ _) as [r w'] eqn:Hg.
      apply store_gpus_added in Hg as (l & Hpre & Hc & Hdone);
        [|apply stats_path_not_process].
      exists l. fold full in Hpre, Hdone.
      destruct r as [[]|e]; simpl; (split; [exact Hpre|]);
        (split; [exact Hc|]); [intros _; exact (Hdone eq_refl)|discriminate]. }
  destruct Hmain as (l & Hpre & Hc & Hdone). exists l.
  repeat split; try assumption.
  pose proof (headers_prefix _ _ Hpre).
  pose proof (stats_lines_headers (timestamp data) (exists_in w file) (gpus data)).
  fold full in H0. lia.
Qed.

(** X22. The block that stores the processes of a GPU: without processes
    it does nothing at all; otherwise the process file of the GPU, named
    after the date read in that block, gains a beginning of the header
    (when the file was missing) followed by one row per process, and all
    of these lines when the block completes. *)
Theorem process_file_gains_prefix (server_name ts : string) (g : GPU F)
        (w : World) :
  let run := store_processes server_name ts g w in
  let file := process_path server_name (index g) (today env (S (clock w))) in
  let full := process_lines ts (index g) (exists_in w file) (processes g) in
  (processes g = [] -> run = (Ok tt, w))
  /\ exists l,
      l `prefix_of` full
      /\ contents (snd run) file = contents w file ++ l
      /\ (fst run = Ok tt -> l = full).
Proof.
  intros run file full. split.
  - intros Hp. unfold run, Store.store_processes. rewrite Hp. reflexivity.
  - destruct (processes g) as [|proc procs] eqn:Hp.
    + exists []. unfold run, Store.store_processes. rewrite Hp. simpl.
      split; [apply prefix_nil|].
      split; [rewrite app_nil_r; reflexivity|reflexivity].
    + unfold run. rewrite store_processes_start by (rewrite Hp; discriminate).
      destruct (fault env (clock w)) as [cls|].
      * exists []. simpl. split; [apply prefix_nil|].
        split; [rewrite app_nil_r; reflexivity|discriminate].
      * cbv zeta. rewrite exists_in_prepared_process. fold file.
        rewrite Hp. fold full.
        destruct (mbind _ _ _) as [r w'] eqn:Hrun.
        apply mbind_inv in Hrun as [(u & w0 & Ho & Hrun)|(e & Ho & ->)].
        -- apply open_append_contents in Ho.
           apply write_processes_added in Hrun as (l & Hpre & Hc & Hdone).
           exists l. simpl. split; [exact Hpre|].
           split; [rewrite Hc, Ho; reflexivity|].
           intros ->. exact (Hdone eq_refl).
        -- apply open_append_contents in Ho.
           exists []. simpl. split; [apply prefix_nil|].
           split; [rewrite Ho, app_nil_r; reflexivity|discriminate].
Qed.

(** X23. A snapshot without GPUs is stored successfully: the date is read
    and the directory of the server made, and no file is opened, created
    or written. *)
Theorem empty_snapshot_makes_directory (data : Snapshot F)
        (server_name : string) (w : World) :
  server data = Some server_name ->
  server_name <> EmptyString ->
  gpus data = [] ->
  fault env (S (clock w)) = None ->
  store_data data w = (Ok true, prepared server_name w).
Proof.
  intros Hs Hne Hg Hf.
  rewrite (store_data_run env base_dir data server_name w Hs Hne), Hf, Hg.
  reflexivity.
Qed.

(** X24. When the directory of the server cannot be made, the call
    returns [False] after two operations; no file is made or changed and
    no directory is lost.  Directories above the server's may have been
    made before the failure, and they are the only new ones: the
    server's own directory has not been made. *)
Theorem unmakeable_directory_stores_nothing (data : Snapshot F)
        (server_name cls : string) (w : World) :
  server data = Some server_name ->
  server_name <> EmptyString ->
  fault env (S (clock w)) = Some cls ->
  store_data data w = (Ok false, unprepared server_name w)
  /\ clock (snd (store_data data w)) = S (S (clock w))
  /\ files (snd (store_data data w)) = files w
  /\ dirs w ⊆ dirs (snd (store_data data w))
  /\ (forall d, d ∈ dirs (snd (store_data data w)) -> d ∉ dirs w ->
                In d (ancestors (server_dir server_name))
                /\ (String.length d
                    < String.length (server_dir server_name))%nat)
  /\ (server_dir server_name ∈ dirs (snd (store_data data w)) ->
      server_dir server_name ∈ dirs w).
Proof.
  intros Hs Hne Hf.
  rewrite (store_data_run env base_dir data server_name w Hs Hne), Hf.
  assert (Hnew : forall d,
             d ∈ dirs (unprepared server_name w) -> d ∉ dirs w ->
             In d (removelast (made_dirs w (server_dir server_name)))).
  { intros d Hd Hn. simpl in Hd.
    apply elem_of_union in Hd as [Hd|Hd]; [|contradiction].
    apply elem_of_list_to_set, list_elem_of_In in Hd.
    exact (take_incl _ _ _ Hd). }
  split; [reflexivity|]. split; [reflexivity|]. split; [reflexivity|].
  split; [simpl; set_solver|]. split.
  - intros d Hd Hn. pose proof (Hnew d Hd Hn) as Hin. split.
    + exact (made_dirs_ancestors _ _ _ (removelast_incl _ _ Hin)).
    + exact (mkdir_calls_above _ _ _ _ Hin).
  - intros Hd. destruct (decide (server_dir server_name ∈ dirs w)) as [Hin|Hn];
      [exact Hin|].
    pose proof (mkdir_calls_above _ _ _ _ (Hnew _ Hd Hn)). lia.
Qed.

End Store.

Lemma other_files_untouched_witness :
  files (snd (store_data quiet "/data" (snapshot_of [busy_gpu]) used_disk))
    !! "/data/notes.txt"%string
  = Some [].
Proof.
  rewrite (proj1 (other_files_untouched quiet "/data" (snapshot_of [busy_gpu])
                    "gpu-box" used_disk eq_refl ltac:(discriminate))).
  - reflexivity.
  - discriminate.
  - intros (idx & day & H). apply (f_equal String.length) in H.
    destruct (path_join_relative (server_dir "/data" "gpu-box")
                                 (process_name idx day)) as [sep Hj];
      [reflexivity|].
    rewrite Hj in H. rewrite !length_app_string in H. simpl in H. lia.
Defined.

Lemma store_succeeds_iff_named_witness :
  fst (store_data quiet "/data" (snapshot_of [busy_gpu; idle_gpu]) empty_disk)
  = Ok true.
Proof.
  exact (store_succeeds_iff_named quiet "/data"
           (snapshot_of [busy_gpu; idle_gpu]) empty_disk quiet_no_fault).
Defined.

Lemma stats_file_gains_prefix_witness :
  exists l,
    l `prefix_of` stats_lines "2024-01-01T12:00:00" false [busy_gpu; idle_gpu]
    /\ contents (snd (store_data (failing_at 11) "/data"
                                 (snapshot_of [busy_gpu; idle_gpu]) empty_disk))
                box_stats
       = l
    /\ (headers l <= 1)%nat.
Proof.
  destruct (stats_file_gains_prefix (failing_at 11) "/data"
              (snapshot_of [busy_gpu; idle_gpu]) "gpu-box" empty_disk
              eq_refl ltac:(discriminate)) as (l & Hpre & Hc & _ & Hh).
  exists l. split; [exact Hpre|]. split; [exact Hc|exact Hh].
Defined.

Lemma empty_snapshot_makes_directory_witness :
  store_data quiet "/data" (snapshot_of []) empty_disk
  = (Ok true, prepared "/data" "gpu-box" empty_disk).
Proof.
  exact (empty_snapshot_makes_directory quiet "/data" (snapshot_of [])
           "gpu-box" empty_disk eq_refl ltac:(discriminate) eq_refl eq_refl).
Defined.

(** The directory of the rack is made, then the [mkdir] of the server's
    directory fails. *)
Lemma unmakeable_directory_stores_nothing_witness :
  let r := store_data (stuck_at 1 1) "/data" rack_snapshot data_disk in
  fst r = Ok false
  /\ files (snd r) = ∅
  /\ "/data/rack1"%string ∈ dirs (snd r)
  /\ "/data/rack1/gpu-box"%string ∉ dirs (snd r).
Proof.
  destruct (unmakeable_directory_stores_nothing
              (stuck_at 1 1) "/data" rack_snapshot "rack1/gpu-box" "OSError"
              data_disk eq_refl ltac:(discriminate) eq_refl)
    as (Hrun & _ & Hfiles & _ & _ & Hleaf).
  cbv zeta. split; [rewrite Hrun; reflexivity|]. split; [exact Hfiles|].
  split.
  - rewrite Hrun. apply (bool_decide_unpack _). vm_compute. exact I.
  - intros Hin. apply Hleaf in Hin.
    apply (bool_decide_pack _) in Hin. vm_compute in Hin. exact Hin.
Defined.

(** A server named [rack1/gpu-box]: a call that succeeds makes the
    directory of the rack and the directory of the server. *)
Example nested_directories_made :
  let r := store_data quiet "/data" rack_snapshot data_disk in
  fst r = Ok true
  /\ "/data/rack1"%string ∈ dirs (snd r)
  /\ "/data/rack1/gpu-box"%string ∈ dirs (snd r).
Proof.
  cbv zeta. split; [vm_compute; reflexivity|].
  split; apply (bool_decide_unpack _); vm_compute; exact I.
Qed.

(** The [mkdir] calls of [os.makedirs] for that server, on a disk that
    holds the base directory and on one that holds nothing. *)
Example makedirs_calls :
  made_dirs data_disk "/data/rack1/gpu-box"
  = ["/data/rack1"; "/data/rack1/gpu-box"]%string
  /\ made_dirs empty_disk "/data/rack1/gpu-box/"
     = ["/"; "/data"; "/data/rack1"; "/data/rack1/gpu-box/"]%string
  /\ made_dirs data_disk "/data/gpu-box/."
     = ["/data/gpu-box"]%string.
Proof. vm_compute. auto. Qed.

End StoreExtra.
